(** * Portfolio script (script.js): a shallow embedding and its properties

    The script renders two JSON catalogs into existing page markup and wires
    a "load more" paginator, a gallery modal, a lightbox and smooth scrolling.
    Page state is a handful of globals plus the document; every handler runs
    to completion on the single UI thread.  The embedding below follows the
    script function by function: globals and the parts of the document the
    script reads or writes are fields of one state record, handlers are
    functions on that record, and a thrown TypeError is an explicit outcome
    that leaves the state as it was at the throwing statement. *)

From Stdlib Require Import String Ascii.
From Stdlib Require Import ZArith List Lia Bool.
Import ListNotations.
Local Open Scope Z_scope.

(** ** JavaScript values *)

(** A JavaScript string is a sequence of UTF-16 code units. *)
Definition jsstring := list N.

(** Source literals, written as Rocq strings (every literal of the script is
    ASCII, so one byte is one code unit). *)
Definition lit (s : string) : jsstring :=
  map N_of_ascii (list_ascii_of_string s).

Definition QUOT : N := 34.   (* the double quote *)
Definition AMP : N := 38.    (* & *)
Definition APOS : N := 39.   (* the single quote *)
Definition LT : N := 60.     (* < *)
Definition GT : N := 62.     (* > *)
Definition NBSP : N := 160.  (* U+00A0 *)

Fixpoint jsstring_eqb (a b : jsstring) : bool :=
  match a, b with
  | [], [] => true
  | x :: a', y :: b' => N.eqb x y && jsstring_eqb a' b'
  | _, _ => false
  end.

(** [String.prototype.startsWith]. *)
Fixpoint startsWith (s p : jsstring) {struct p} : bool :=
  match p, s with
  | [], _ => true
  | x :: p', y :: s' => N.eqb x y && startsWith s' p'
  | _ :: _, [] => false
  end.

(** Substring test, as the attribute selector [[href*=...]] needs it. *)
Fixpoint includes (s p : jsstring) : bool :=
  startsWith s p ||
  match s with
  | [] => false
  | _ :: s' => includes s' p
  end.

(** A JavaScript number as far as the script computes with one: an integer,
    or NaN (the remainder by a zero length). *)
Inductive jsnum : Type :=
| Num (z : Z)
| NaN.

Definition js_add (a b : jsnum) : jsnum :=
  match a, b with
  | Num x, Num y => Num (x + y)
  | _, _ => NaN
  end.

Definition js_sub (a b : jsnum) : jsnum :=
  match a, b with
  | Num x, Num y => Num (x - y)
  | _, _ => NaN
  end.

(** The [%] operator: the remainder takes the sign of the dividend, and a
    zero divisor gives NaN. *)
Definition js_rem (a b : jsnum) : jsnum :=
  match a, b with
  | Num x, Num y => if y =? 0 then NaN else Num (Z.rem x y)
  | _, _ => NaN
  end.

(** [idx === n] for an array position [idx]. *)
Definition js_index_eqb (idx : nat) (n : jsnum) : bool :=
  match n with
  | Num z => Z.of_nat idx =? z
  | NaN => false
  end.

(** [arr[n]]: [undefined] (here [None]) off the array and at NaN. *)
Definition js_get {A : Type} (arr : list A) (n : jsnum) : option A :=
  match n with
  | Num z => if z <? 0 then None else nth_error arr (Z.to_nat z)
  | NaN => None
  end.

(** [arr.slice(0, e)]: a negative end counts from the end of the array. *)
Definition slice0 {A : Type} (arr : list A) (e : Z) : list A :=
  if e <? 0
  then firstn (Z.to_nat (Z.max (Z.of_nat (length arr) + e) 0)) arr
  else firstn (Z.to_nat e) arr.

(** [arr.forEach((x, index) => ...)] hands each element its position. *)
Fixpoint indexed_from {A : Type} (i : nat) (l : list A) : list (nat * A) :=
  match l with
  | [] => []
  | x :: l' => (i, x) :: indexed_from (S i) l'
  end.

Definition indexed {A : Type} (l : list A) : list (nat * A) := indexed_from 0 l.

(** ** The fragment of the DOM behind [escapeHtml] *)

(** Children of the scratch [div] that [escapeHtml] creates: setting
    [textContent] leaves at most one text node. *)
Inductive Node : Type :=
| TextNode (data : jsstring).

(** The text-node case of the fragment serialisation algorithm: escaping a
    string outside attribute mode. *)
Definition escape_unit (c : N) : jsstring :=
  if N.eqb c AMP then lit "&amp;"
  else if N.eqb c NBSP then lit "&nbsp;"
  else if N.eqb c LT then lit "&lt;"
  else if N.eqb c GT then lit "&gt;"
  else [c].

Definition serialize_node (n : Node) : jsstring :=
  match n with
  | TextNode data => flat_map escape_unit data
  end.

(** The [textContent] setter: all children are replaced by one text node,
    or by nothing when the string is empty. *)
Definition set_textContent (text : jsstring) : list Node :=
  match text with
  | [] => []
  | _ => [TextNode text]
  end.

(** The [innerHTML] getter: the serialisation of the children, in order. *)
Definition get_innerHTML (children : list Node) : jsstring :=
  flat_map serialize_node children.

(** [escapeHtml(text)]: a fresh [div], [div.textContent = text], and the
    result is [div.innerHTML]. *)
Definition escapeHtml (text : jsstring) : jsstring :=
  let div := set_textContent text in
  get_innerHTML div.

(** ** Reading markup back: the tokenizer behind the [innerHTML] setter

    What a browser makes of a string assigned to [innerHTML] is decided by
    the HTML parser: the input stream is preprocessed (newlines are
    normalised), then tokenised, and the tokens are handed to the tree
    builder.  The states below are those the script's templates and any
    text interpolated into them can reach: data, tags, attributes and the
    character references that [escapeHtml] writes.  Comments, doctypes,
    numeric references and the rest of the named-reference table are
    outside the model; the tokenizer answers [None] on them.  Of the tree
    builder only one rule matters to text inside [div], [h3], [p] and
    [span]: a U+0000 character token is ignored, so none is emitted here. *)

(** Preprocessing of the input stream: every CR LF pair and every other CR
    becomes one LF. *)
Fixpoint normalize_newlines (s : jsstring) : jsstring :=
  match s with
  | [] => []
  | c :: rest =>
      if N.eqb c 13
      then 10%N :: match rest with
                   | d :: rest' => if N.eqb d 10 then normalize_newlines rest'
                                   else normalize_newlines rest
                   | [] => []
                   end
      else c :: normalize_newlines rest
  end.

Inductive Token : Type :=
| TChar (c : N)
| TStartTag (name : jsstring) (attrs : list (jsstring * jsstring)) (selfClosing : bool)
| TEndTag (name : jsstring).

Record Tag : Type := mkTag {
  tag_end : bool;
  tag_name : jsstring;
  tag_attrs : list (jsstring * jsstring)
}.

Inductive TState : Type :=
| Data
| TagOpen
| EndTagOpen
| TagName (t : Tag)
| BeforeAttrName (t : Tag)
| AttrName (t : Tag) (n : jsstring)
| AfterAttrName (t : Tag) (n : jsstring)
| BeforeAttrValue (t : Tag) (n : jsstring)
| AttrValueDQ (t : Tag) (n v : jsstring)
| AttrValueSQ (t : Tag) (n v : jsstring)
| AttrValueUnq (t : Tag) (n v : jsstring)
| AfterAttrValueQ (t : Tag)
| SelfClosing (t : Tag)
| Unsupported.

Definition is_ws (c : N) : bool :=
  N.eqb c 9 || N.eqb c 10 || N.eqb c 12 || N.eqb c 32.

Definition is_upper (c : N) : bool := N.leb 65 c && N.leb c 90.
Definition is_lower (c : N) : bool := N.leb 97 c && N.leb c 122.
Definition is_digit (c : N) : bool := N.leb 48 c && N.leb c 57.
Definition is_alpha (c : N) : bool := is_upper c || is_lower c.
Definition is_alnum (c : N) : bool := is_alpha c || is_digit c.

(** Names are lower-cased, and U+0000 inside a tag becomes U+FFFD. *)
Definition fold_unit (c : N) : N :=
  if is_upper c then (c + 32)%N else if N.eqb c 0 then 65533%N else c.

Definition nul_unit (c : N) : N := if N.eqb c 0 then 65533%N else c.

(** An attribute whose name the tag already has is dropped. *)
Definition add_attr (t : Tag) (n v : jsstring) : Tag :=
  if existsb (fun a => jsstring_eqb (fst a) n) (tag_attrs t)
  then t
  else mkTag (tag_end t) (tag_name t) (tag_attrs t ++ [(n, v)]).

Definition emit_tag (t : Tag) (selfClosing : bool) : Token :=
  if tag_end t then TEndTag (tag_name t)
  else TStartTag (tag_name t) (tag_attrs t) selfClosing.

(** What follows an ampersand. *)
Inductive CharRef : Type :=
| Decoded (c : N) (consumed : nat)
| Literal
| OutsideModel.

Definition charref (rest : jsstring) : CharRef :=
  if startsWith rest (lit "amp;") then Decoded AMP 4
  else if startsWith rest (lit "lt;") then Decoded LT 3
  else if startsWith rest (lit "gt;") then Decoded GT 3
  else if startsWith rest (lit "nbsp;") then Decoded NBSP 5
  else if startsWith rest (lit "quot;") then Decoded QUOT 5
  else match rest with
       | c :: _ => if is_alnum c || N.eqb c 35 then OutsideModel else Literal
       | [] => Literal
       end.

(** One step: the next state, the tokens emitted, and how many of the
    following code units the step has consumed besides [c]. *)
Definition Step : Type := TState * list Token * nat.

Definition step_data (c : N) (rest : jsstring) : Step :=
  if N.eqb c AMP then
    match charref rest with
    | Decoded d k => (Data, [TChar d], k)
    | Literal => (Data, [TChar AMP], O)
    | OutsideModel => (Unsupported, [], O)
    end
  else if N.eqb c LT then (TagOpen, [], O)
  else if N.eqb c 0 then (Data, [], O)
  else (Data, [TChar c], O).

Definition step_tag_name (t : Tag) (c : N) : Step :=
  if is_ws c then (BeforeAttrName t, [], O)
  else if N.eqb c 47 then (SelfClosing t, [], O)
  else if N.eqb c GT then (Data, [emit_tag t false], O)
  else (TagName (mkTag (tag_end t) (tag_name t ++ [fold_unit c]) (tag_attrs t)), [], O).

Definition step_tag_open (c : N) (rest : jsstring) : Step :=
  if N.eqb c 33 then (Unsupported, [], O)
  else if N.eqb c 47 then (EndTagOpen, [], O)
  else if is_alpha c then step_tag_name (mkTag false [] []) c
  else if N.eqb c 63 then (Unsupported, [], O)
  else let '(s, toks, k) := step_data c rest in (s, TChar LT :: toks, k).

Definition step_end_tag_open (c : N) : Step :=
  if is_alpha c then step_tag_name (mkTag true [] []) c
  else if N.eqb c GT then (Data, [], O)
  else (Unsupported, [], O).

Definition step_after_attr_name (t : Tag) (n : jsstring) (c : N) : Step :=
  if is_ws c then (AfterAttrName t n, [], O)
  else if N.eqb c 47 then (SelfClosing (add_attr t n []), [], O)
  else if N.eqb c 61 then (BeforeAttrValue t n, [], O)
  else if N.eqb c GT then (Data, [emit_tag (add_attr t n []) false], O)
  else (AttrName (add_attr t n []) [fold_unit c], [], O).

Definition step_attr_name (t : Tag) (n : jsstring) (c : N) : Step :=
  if is_ws c || N.eqb c 47 || N.eqb c GT then step_after_attr_name t n c
  else if N.eqb c 61 then (BeforeAttrValue t n, [], O)
  else (AttrName t (n ++ [fold_unit c]), [], O).

Definition step_before_attr_name (t : Tag) (c : N) : Step :=
  if is_ws c then (BeforeAttrName t, [], O)
  else if N.eqb c 47 then (SelfClosing t, [], O)
  else if N.eqb c GT then (Data, [emit_tag t false], O)
  else if N.eqb c 61 then (AttrName t [c], [], O)
  else step_attr_name t [] c.

Definition step_value (mk : jsstring -> TState) (v : jsstring) (c : N) (rest : jsstring) : Step :=
  if N.eqb c AMP then
    match charref rest with
    | Decoded d k => (mk (v ++ [d]), [], k)
    | Literal => (mk (v ++ [AMP]), [], O)
    | OutsideModel => (Unsupported, [], O)
    end
  else (mk (v ++ [nul_unit c]), [], O).

Definition step_value_dq (t : Tag) (n v : jsstring) (c : N) (rest : jsstring) : Step :=
  if N.eqb c QUOT then (AfterAttrValueQ (add_attr t n v), [], O)
  else step_value (AttrValueDQ t n) v c rest.

Definition step_value_sq (t : Tag) (n v : jsstring) (c : N) (rest : jsstring) : Step :=
  if N.eqb c APOS then (AfterAttrValueQ (add_attr t n v), [], O)
  else step_value (AttrValueSQ t n) v c rest.

Definition step_value_unq (t : Tag) (n v : jsstring) (c : N) (rest : jsstring) : Step :=
  if is_ws c then (BeforeAttrName (add_attr t n v), [], O)
  else if N.eqb c GT then (Data, [emit_tag (add_attr t n v) false], O)
  else step_value (AttrValueUnq t n) v c rest.

Definition step_before_attr_value (t : Tag) (n : jsstring) (c : N) (rest : jsstring) : Step :=
  if is_ws c then (BeforeAttrValue t n, [], O)
  else if N.eqb c QUOT then (AttrValueDQ t n [], [], O)
  else if N.eqb c APOS then (AttrValueSQ t n [], [], O)
  else if N.eqb c GT then (Data, [emit_tag (add_attr t n []) false], O)
  else step_value_unq t n [] c rest.

Definition step_after_attr_value (t : Tag) (c : N) : Step :=
  if is_ws c then (BeforeAttrName t, [], O)
  else if N.eqb c 47 then (SelfClosing t, [], O)
  else if N.eqb c GT then (Data, [emit_tag t false], O)
  else step_before_attr_name t c.

Definition step_self_closing (t : Tag) (c : N) : Step :=
  if N.eqb c GT then (Data, [emit_tag t true], O)
  else step_before_attr_name t c.

Definition step (s : TState) (c : N) (rest : jsstring) : Step :=
  match s with
  | Data => step_data c rest
  | TagOpen => step_tag_open c rest
  | EndTagOpen => step_end_tag_open c
  | TagName t => step_tag_name t c
  | BeforeAttrName t => step_before_attr_name t c
  | AttrName t n => step_attr_name t n c
  | AfterAttrName t n => step_after_attr_name t n c
  | BeforeAttrValue t n => step_before_attr_value t n c rest
  | AttrValueDQ t n v => step_value_dq t n v c rest
  | AttrValueSQ t n v => step_value_sq t n v c rest
  | AttrValueUnq t n v => step_value_unq t n v c rest
  | AfterAttrValueQ t => step_after_attr_value t c
  | SelfClosing t => step_self_closing t c
  | Unsupported => (Unsupported, [], O)
  end.

(** At the end of input an open tag is dropped; a lone [<] or [</] is text. *)
Definition at_eof (s : TState) : option (list Token) :=
  match s with
  | Unsupported => None
  | TagOpen => Some [TChar LT]
  | EndTagOpen => Some [TChar LT; TChar 47%N]
  | _ => Some []
  end.

Fixpoint run (s : TState) (skip : nat) (input : jsstring) : option (list Token) :=
  match input with
  | [] => at_eof s
  | c :: rest =>
      match skip with
      | S k => run s k rest
      | O =>
          match s with
          | Unsupported => None
          | _ =>
              let '(s', toks, k) := step s c rest in
              option_map (app toks) (run s' k rest)
          end
      end
  end.

Definition tokenize (markup : jsstring) : option (list Token) :=
  run Data O (normalize_newlines markup).

(** A CR is read together with the LF that follows it, if one does. *)
Definition no_leading_LF (s : jsstring) : Prop :=
  match s with
  | c :: _ => c <> 10%N
  | [] => True
  end.

(** What the parser gives back for a string written into the markup: in a
    text position U+0000 is dropped, in an attribute value it becomes
    U+FFFD, and in both the newlines come back normalised. *)
Definition drop_nul (s : jsstring) : jsstring := filter (fun c => negb (N.eqb c 0)) s.

Definition text_read (s : jsstring) : jsstring := drop_nul (normalize_newlines s).

Definition value_read (s : jsstring) : jsstring := map nul_unit (normalize_newlines s).

(** The attributes of the start tags named [name], in document order. *)
Fixpoint attrs_of (name : jsstring) (toks : list Token) : list (list (jsstring * jsstring)) :=
  match toks with
  | [] => []
  | TStartTag n attrs _ :: toks' =>
      if jsstring_eqb n name then attrs :: attrs_of name toks' else attrs_of name toks'
  | _ :: toks' => attrs_of name toks'
  end.

(** The text between the tags. *)
Fixpoint text_of (toks : list Token) : jsstring :=
  match toks with
  | [] => []
  | TChar c :: toks' => c :: text_of toks'
  | _ :: toks' => text_of toks'
  end.

(** ** Data model: the three JSON documents *)

Record ArtItem : Type := mkArt {
  art_image : jsstring;
  art_title : jsstring;
  art_year : jsstring
}.

Record ArtCatalog : Type := mkArtCatalog {
  heroImages : list ArtItem;
  artworks : list ArtItem
}.

Record Project : Type := mkProject {
  project_title : jsstring;
  project_description : jsstring;
  project_technologies : list jsstring;
  project_link : option jsstring
}.

Record ProjectCatalog : Type := mkProjectCatalog {
  projects : list Project
}.

Record LinksConfig : Type := mkLinks {
  links_github : jsstring;
  links_resume : jsstring
}.

(** ** The elements the script creates *)

(** An element's [innerHTML] is kept as the string the script assigned;
    [tokenize] says what the browser reads in it. *)

Record Block : Type := mkBlock {           (* a featured-art block *)
  block_className : jsstring;
  block_transitionDelay : option jsstring;
  block_innerHTML : jsstring
}.

Record Card : Type := mkCard {             (* a project card *)
  card_className : jsstring;
  card_innerHTML : jsstring;
  card_cursor : option jsstring;
  card_onclick : option jsstring           (* the link its click listener navigates to *)
}.

Record GalleryItem : Type := mkGalleryItem {   (* a thumbnail block of the gallery grid *)
  item_className : jsstring;
  item_innerHTML : jsstring;
  item_source : list ArtItem;              (* the [allArt] its click listener closes over *)
  item_index : nat                         (* and the [index] *)
}.

Record Thumb : Type := mkThumb {           (* a [.thumbnail] of the lightbox strip *)
  thumb_active : bool;
  thumb_innerHTML : jsstring;
  thumb_index : nat                        (* the [index] its click listener closes over *)
}.

Definition dq : jsstring := [QUOT].
Definition nl : jsstring := [10%N].

(** The template literal of [loadFeaturedArt]. *)
Definition featured_template (art : ArtItem) : jsstring :=
  nl ++ lit "      <div class=" ++ dq ++ lit "relative overflow-hidden rounded-xl" ++ dq ++ lit ">" ++
  nl ++ lit "        <img src=" ++ dq ++ escapeHtml (art_image art) ++ dq ++
        lit " alt=" ++ dq ++ escapeHtml (art_title art) ++ dq ++
  nl ++ lit "          class=" ++ dq ++
        lit "w-full h-auto transition-transform duration-500 group-hover:scale-105" ++ dq ++ lit ">" ++
  nl ++ lit "      </div>" ++
  nl ++ lit "      <h3 class=" ++ dq ++ lit "text-[17px] font-semibold mt-4 mb-1 text-[#444]" ++ dq ++ lit ">" ++
        escapeHtml (art_title art) ++ lit "</h3>" ++
  nl ++ lit "      <p class=" ++ dq ++ lit "text-[14px] font-semibold text-[#444]/40" ++ dq ++ lit ">" ++
        escapeHtml (art_year art) ++ lit "</p>" ++
  nl ++ lit "    ".

(** The badge of one technology, and [technologies.map(...).join('')]. *)
Definition tech_badge (tech : jsstring) : jsstring :=
  lit "<span class=" ++ dq ++ lit "tech-badge" ++ dq ++ lit ">" ++ escapeHtml tech ++ lit "</span>".

Definition tech_badges (technologies : list jsstring) : jsstring :=
  concat (map tech_badge technologies).

(** The template literal of [loadCodeProjects]. *)
Definition card_template (project : Project) : jsstring :=
  nl ++ lit "        <h3>" ++ escapeHtml (project_title project) ++ lit "</h3>" ++
  nl ++ lit "        <p>" ++ escapeHtml (project_description project) ++ lit "</p>" ++
  nl ++ lit "        <div class=" ++ dq ++ lit "tech-stack" ++ dq ++ lit ">" ++
  nl ++ lit "          " ++ tech_badges (project_technologies project) ++
  nl ++ lit "        </div>" ++
  nl ++ lit "      ".

(** The template literal shared by the gallery grid and the thumbnail strip. *)
Definition img_template (art : ArtItem) : jsstring :=
  lit "<img src=" ++ dq ++ escapeHtml (art_image art) ++ dq ++
  lit " alt=" ++ dq ++ escapeHtml (art_title art) ++ dq ++ lit ">".

Definition featured_block (index : nat) (art : ArtItem) : Block :=
  mkBlock (lit "scroll-reveal group")
          (if Nat.eqb index 1 then Some (lit "100ms") else None)
          (featured_template art).

(** [if (project.link)]: an absent or empty link is falsy. *)
Definition truthy_link (link : option jsstring) : bool :=
  match link with
  | Some (_ :: _) => true
  | _ => false
  end.

Definition project_card (project : Project) : Card :=
  if truthy_link (project_link project)
  then mkCard (lit "code-card scroll-reveal") (card_template project)
              (Some (lit "pointer")) (project_link project)
  else mkCard (lit "code-card scroll-reveal") (card_template project) None None.

Definition gallery_item (allArt : list ArtItem) (index : nat) (art : ArtItem) : GalleryItem :=
  mkGalleryItem (lit "masonry-item") (img_template art) allArt index.

Definition thumbnail (current : jsnum) (index : nat) (item : ArtItem) : Thumb :=
  mkThumb (js_index_eqb index current) (img_template item) index.

(** ** Page state *)

(** The two classes the script toggles on its modals. *)
Record ClassList : Type := mkClassList {
  cl_hidden : bool;
  cl_active : bool
}.

Inductive Display : Type := DisplayInitial | DisplayNone | DisplayBlock.
Inductive Overflow : Type := OverflowInitial | OverflowHidden | OverflowAuto.

Record Anchor : Type := mkAnchor {
  href : option jsstring;
  js_resume_download : bool;        (* carries the class [js-resume-download] *)
  download : option jsstring;
  smooth : bool                     (* [setupSmoothScroll] gave it a click listener *)
}.

Record Img : Type := mkImg {
  img_src : jsstring;
  img_alt : jsstring
}.

(** The script's globals. *)
Record Globals : Type := mkGlobals {
  artData : ArtCatalog;
  projectData : ProjectCatalog;
  displayedProjectCount : Z;
  currentLightboxIndex : jsnum;
  currentLightboxSource : list ArtItem
}.

Definition projectsPerLoad : Z := 6.

(** The collaborating markup.  An element the page may lack is an option
    (or a flag, where the script only asks whether it is there); the script
    never adds or removes any of them. *)
Record ProjectsView : Type := mkProjectsView {
  codeGrid : option (list Card);
  loadMoreProjects : option Display            (* its [style.display] *)
}.

Record GalleryView : Type := mkGalleryView {
  viewAllArt : bool;
  galleryClose : bool;
  galleryModal : option ClassList;
  fullGalleryGrid : option (list GalleryItem)
}.

Record LightboxView : Type := mkLightboxView {
  modalClose : bool;
  modalPrev : bool;
  modalNext : bool;
  imageModal : option ClassList;
  modalImg : option Img;
  thumbnailStrip : option (list Thumb)
}.

Record PageView : Type := mkPageView {
  featuredArtGrid : option (list Block);
  bodyOverflow : Overflow;
  anchors : list Anchor;
  heroText : nat;                   (* how many [.hero-text] elements there are *)
  revealObservers : nat             (* IntersectionObservers created so far *)
}.

(** Where the asynchronous [loadData] stands: each [await] is a point at
    which other handlers may run. *)
Inductive LoadPhase : Type :=
| NotStarted
| Fetching
| ParsingArt
| ParsingProjects
| ParsingLinks
| Loaded
| LoadFailed.

(** What the script does to the world besides the state above, and (as
    bookkeeping) which of its functions ran. *)
Inductive Fn : Type :=
| FupdateLinks
| FloadCodeProjects (initial : bool)
| FloadFeaturedArt
| FanimateHero.

Inductive Effect : Type :=
| Called (f : Fn)
| ConsoleError
| PreventDefault
| StopPropagation
| ScrollTo (top : Z)                (* [window.scrollTo], behaviour smooth *)
| ScrollIntoView (thumb : nat)
| SetTimeout (heroIndex : nat) (delay : Z)
| Navigate (url : jsstring).        (* [window.location.href = url] *)

Record State : Type := mkState {
  globals : Globals;
  projectsView : ProjectsView;
  galleryView : GalleryView;
  lightboxView : LightboxView;
  pageView : PageView;
  phase : LoadPhase;
  effects : list Effect             (* most recent first *)
}.

(** *** Field updates *)

Definition set_globals (g : Globals) (st : State) : State :=
  mkState g (projectsView st) (galleryView st) (lightboxView st) (pageView st) (phase st) (effects st).
Definition set_projectsView (v : ProjectsView) (st : State) : State :=
  mkState (globals st) v (galleryView st) (lightboxView st) (pageView st) (phase st) (effects st).
Definition set_galleryView (v : GalleryView) (st : State) : State :=
  mkState (globals st) (projectsView st) v (lightboxView st) (pageView st) (phase st) (effects st).
Definition set_lightboxView (v : LightboxView) (st : State) : State :=
  mkState (globals st) (projectsView st) (galleryView st) v (pageView st) (phase st) (effects st).
Definition set_pageView (v : PageView) (st : State) : State :=
  mkState (globals st) (projectsView st) (galleryView st) (lightboxView st) v (phase st) (effects st).
Definition set_phase (p : LoadPhase) (st : State) : State :=
  mkState (globals st) (projectsView st) (galleryView st) (lightboxView st) (pageView st) p (effects st).
Definition log (e : Effect) (st : State) : State :=
  mkState (globals st) (projectsView st) (galleryView st) (lightboxView st) (pageView st) (phase st)
          (e :: effects st).

Definition set_artData (a : ArtCatalog) (st : State) : State :=
  let g := globals st in
  set_globals (mkGlobals a (projectData g) (displayedProjectCount g)
                         (currentLightboxIndex g) (currentLightboxSource g)) st.
Definition set_projectData (p : ProjectCatalog) (st : State) : State :=
  let g := globals st in
  set_globals (mkGlobals (artData g) p (displayedProjectCount g)
                         (currentLightboxIndex g) (currentLightboxSource g)) st.
Definition set_displayedProjectCount (n : Z) (st : State) : State :=
  let g := globals st in
  set_globals (mkGlobals (artData g) (projectData g) n
                         (currentLightboxIndex g) (currentLightboxSource g)) st.
Definition set_currentLightboxIndex (i : jsnum) (st : State) : State :=
  let g := globals st in
  set_globals (mkGlobals (artData g) (projectData g) (displayedProjectCount g)
                         i (currentLightboxSource g)) st.
Definition set_currentLightboxSource (s : list ArtItem) (st : State) : State :=
  let g := globals st in
  set_globals (mkGlobals (artData g) (projectData g) (displayedProjectCount g)
                         (currentLightboxIndex g) s) st.

Definition set_codeGrid (cards : list Card) (st : State) : State :=
  set_projectsView (mkProjectsView (Some cards) (loadMoreProjects (projectsView st))) st.
Definition set_loadMoreDisplay (d : Display) (st : State) : State :=
  set_projectsView (mkProjectsView (codeGrid (projectsView st)) (Some d)) st.

Definition set_galleryModal (cl : ClassList) (st : State) : State :=
  let v := galleryView st in
  set_galleryView (mkGalleryView (viewAllArt v) (galleryClose v) (Some cl) (fullGalleryGrid v)) st.
Definition set_fullGalleryGrid (items : list GalleryItem) (st : State) : State :=
  let v := galleryView st in
  set_galleryView (mkGalleryView (viewAllArt v) (galleryClose v) (galleryModal v) (Some items)) st.

Definition set_imageModal (cl : ClassList) (st : State) : State :=
  let v := lightboxView st in
  set_lightboxView (mkLightboxView (modalClose v) (modalPrev v) (modalNext v)
                                   (Some cl) (modalImg v) (thumbnailStrip v)) st.
Definition set_modalImg (img : Img) (st : State) : State :=
  let v := lightboxView st in
  set_lightboxView (mkLightboxView (modalClose v) (modalPrev v) (modalNext v)
                                   (imageModal v) (Some img) (thumbnailStrip v)) st.
Definition set_thumbnailStrip (thumbs : list Thumb) (st : State) : State :=
  let v := lightboxView st in
  set_lightboxView (mkLightboxView (modalClose v) (modalPrev v) (modalNext v)
                                   (imageModal v) (modalImg v) (Some thumbs)) st.

Definition set_featuredArtGrid (blocks : list Block) (st : State) : State :=
  let v := pageView st in
  set_pageView (mkPageView (Some blocks) (bodyOverflow v) (anchors v) (heroText v) (revealObservers v)) st.
Definition set_bodyOverflow (o : Overflow) (st : State) : State :=
  let v := pageView st in
  set_pageView (mkPageView (featuredArtGrid v) o (anchors v) (heroText v) (revealObservers v)) st.
Definition set_anchors (l : list Anchor) (st : State) : State :=
  let v := pageView st in
  set_pageView (mkPageView (featuredArtGrid v) (bodyOverflow v) l (heroText v) (revealObservers v)) st.
Definition set_revealObservers (n : nat) (st : State) : State :=
  let v := pageView st in
  set_pageView (mkPageView (featuredArtGrid v) (bodyOverflow v) (anchors v) (heroText v) n) st.

(** *** Handlers: state passing with exceptions

    A handler turns a state into a state and says whether it returned or
    threw; what it wrote before throwing stays written. *)

Inductive Outcome : Type := Returned | Threw.

Definition Handler : Type := State -> State * Outcome.

Definition ret : Handler := fun st => (st, Returned).
Definition throw : Handler := fun st => (st, Threw).
Definition lift (f : State -> State) : Handler := fun st => (f st, Returned).

Definition andThen (f g : Handler) : Handler :=
  fun st => match f st with
            | (st', Returned) => g st'
            | (st', Threw) => (st', Threw)
            end.

Declare Scope handler_scope.
Delimit Scope handler_scope with handler.
Bind Scope handler_scope with Handler.
Notation "f ;; g" := (andThen f g) (at level 61, right associativity) : handler_scope.
Local Open Scope handler_scope.

(** [try { body } catch (error) { handler }]. *)
Definition try_catch (body handler : Handler) : Handler :=
  fun st => match body st with
            | (st', Returned) => (st', Returned)
            | (st', Threw) => handler st'
            end.

(** What a listener leaves behind; an exception it lets escape is reported
    by the browser and otherwise lost. *)
Definition after (h : Handler) (st : State) : State := fst (h st).

(** ** The script's functions *)

(** [setupScrollAnimations]: a new observer over every [.scroll-reveal]
    element of the document as it then is.  What an observer does later
    (it adds the class [visible] to what scrolls into view) touches nothing
    the script reads, and is not modelled. *)
Definition setupScrollAnimations : Handler :=
  lift (fun st => set_revealObservers (S (revealObservers (pageView st))) st).

(** [a[href*="github.com"]]. *)
Definition is_github_link (a : Anchor) : bool :=
  match href a with
  | Some h => includes h (lit "github.com")
  | None => false
  end.

(** [updateLinks(links)]; both node lists are taken before any link is
    rewritten. *)
Definition updateLinks (links : LinksConfig) : Handler :=
  fun st =>
    let st := log (Called FupdateLinks) st in
    let rewrite (a : Anchor) : Anchor :=
      let a1 := if is_github_link a
                then mkAnchor (Some (links_github links)) (js_resume_download a) (download a) (smooth a)
                else a in
      if js_resume_download a
      then mkAnchor (Some (links_resume links)) true (Some (lit "Dixit_Parmar_Resume.pdf")) (smooth a)
      else a1 in
    ret (set_anchors (map rewrite (anchors (pageView st))) st).

(** [animateHero]: one timer per [.hero-text] element. *)
Definition animateHero : Handler :=
  fun st =>
    let st := log (Called FanimateHero) st in
    ret (fold_left (fun s index => log (SetTimeout index (Z.of_nat index * 150 + 400)) s)
                   (List.seq 0 (heroText (pageView st))) st).

(** [loadFeaturedArt]. *)
Definition loadFeaturedArt : Handler :=
  fun st =>
    let st := log (Called FloadFeaturedArt) st in
    match featuredArtGrid (pageView st) with
    | None => ret st
    | Some _ =>
        let featured := slice0 (heroImages (artData (globals st))) 2 in
        let grid := fold_left (fun grid '(index, art) => grid ++ [featured_block index art])
                              (indexed featured) [] in
        setupScrollAnimations (set_featuredArtGrid grid st)
    end.

(** The test guarding the body of the [forEach] in [loadCodeProjects]. *)
Definition card_wanted (initial : bool) (displayed : Z) (index : nat) : bool :=
  initial || (Z.of_nat index >=? displayed - projectsPerLoad).

(** [loadCodeProjects(initial)]. *)
Definition loadCodeProjects (initial : bool) : Handler :=
  fun st =>
    let st := log (Called (FloadCodeProjects initial)) st in
    match codeGrid (projectsView st) with
    | None => ret st
    | Some grid0 =>
        let displayed := displayedProjectCount (globals st) in
        let all := projects (projectData (globals st)) in
        let projectsToShow := slice0 all displayed in
        let grid :=
          fold_left (fun grid '(index, project) =>
                       if card_wanted initial displayed index
                       then grid ++ [project_card project]
                       else grid)
                    (indexed projectsToShow)
                    (if initial then [] else grid0) in
        let st := set_codeGrid grid st in
        let st := match loadMoreProjects (projectsView st) with
                  | Some _ =>
                      set_loadMoreDisplay
                        (if displayed >=? Z.of_nat (length all) then DisplayNone else DisplayBlock) st
                  | None => st
                  end in
        setupScrollAnimations st
    end.

(** The click listener of [setupLoadMore]. *)
Definition loadMore_click : Handler :=
  lift (fun st => set_displayedProjectCount
                    (displayedProjectCount (globals st) + projectsPerLoad) st) ;;
  loadCodeProjects false.

(** The click listener of a card with a link. *)
Definition card_click (c : Card) : Handler :=
  match card_onclick c with
  | Some link => lift (log (Navigate link))
  | None => ret
  end.

(** [openLightbox] and its helpers. *)
Definition updateLightboxContent : Handler :=
  fun st =>
    let current := currentLightboxIndex (globals st) in
    match js_get (currentLightboxSource (globals st)) current with
    | None => throw st                         (* [item.image] of undefined *)
    | Some item =>
        match modalImg (lightboxView st) with
        | None => throw st
        | Some _ =>
            let st := set_modalImg (mkImg (art_image item) (art_title item)) st in
            match thumbnailStrip (lightboxView st) with
            | None => ret st
            | Some thumbs =>
                let mark '(idx, th) :=
                  mkThumb (js_index_eqb idx current) (thumb_innerHTML th) (thumb_index th) in
                let st := set_thumbnailStrip (map mark (indexed thumbs)) st in
                ret (fold_left (fun s '(idx, _) =>
                                  if js_index_eqb idx current then log (ScrollIntoView idx) s else s)
                               (indexed thumbs) st)
            end
        end
    end.

Definition generateThumbnails : Handler :=
  fun st =>
    match thumbnailStrip (lightboxView st) with
    | None => throw st
    | Some _ =>
        let current := currentLightboxIndex (globals st) in
        let strip := fold_left (fun strip '(index, item) => strip ++ [thumbnail current index item])
                               (indexed (currentLightboxSource (globals st))) [] in
        ret (set_thumbnailStrip strip st)
    end.

Definition show_modal : ClassList := mkClassList false true.   (* remove hidden, add active *)
Definition hide_modal : ClassList := mkClassList true false.   (* add hidden, remove active *)

Definition openLightbox (dataSource : list ArtItem) (index : jsnum) : Handler :=
  lift (set_currentLightboxSource dataSource) ;;
  lift (set_currentLightboxIndex index) ;;
  (fun st => match imageModal (lightboxView st) with
             | None => throw st
             | Some _ => ret (set_bodyOverflow OverflowHidden (set_imageModal show_modal st))
             end) ;;
  updateLightboxContent ;;
  generateThumbnails.

(** The click listener of a strip thumbnail. *)
Definition thumbnail_click (t : Thumb) : Handler :=
  lift (log StopPropagation) ;;
  lift (set_currentLightboxIndex (Num (Z.of_nat (thumb_index t)))) ;;
  updateLightboxContent.

(** The click listeners of [setupGallery]. *)
Definition viewAll_click : Handler :=
  fun st =>
    match fullGalleryGrid (galleryView st) with
    | None => throw st
    | Some _ =>
        let allArt := heroImages (artData (globals st)) ++ artworks (artData (globals st)) in
        let grid := fold_left (fun grid '(index, art) => grid ++ [gallery_item allArt index art])
                              (indexed allArt) [] in
        let st := set_fullGalleryGrid grid st in
        match galleryModal (galleryView st) with
        | None => throw st
        | Some _ => ret (set_bodyOverflow OverflowHidden (set_galleryModal show_modal st))
        end
    end.

Definition galleryClose_click : Handler :=
  fun st =>
    match galleryModal (galleryView st) with
    | None => throw st
    | Some _ => ret (set_bodyOverflow OverflowAuto (set_galleryModal hide_modal st))
    end.

Definition galleryItem_click (it : GalleryItem) : Handler :=
  openLightbox (item_source it) (Num (Z.of_nat (item_index it))).

(** The closures of [setupLightboxControls]. *)
Definition closeLightbox : Handler :=
  fun st =>
    match imageModal (lightboxView st) with
    | None => throw st
    | Some _ => ret (set_bodyOverflow OverflowAuto (set_imageModal hide_modal st))
    end.

Definition source_length (st : State) : jsnum :=
  Num (Z.of_nat (length (currentLightboxSource (globals st)))).

(** [e] says whether the closure was handed an event. *)
Definition nextImage (e : bool) : Handler :=
  (if e then lift (log StopPropagation) else ret) ;;
  lift (fun st => set_currentLightboxIndex
                    (js_rem (js_add (currentLightboxIndex (globals st)) (Num 1))
                            (source_length st)) st) ;;
  updateLightboxContent.

Definition prevImage (e : bool) : Handler :=
  (if e then lift (log StopPropagation) else ret) ;;
  lift (fun st => set_currentLightboxIndex
                    (js_rem (js_add (js_sub (currentLightboxIndex (globals st)) (Num 1))
                                    (source_length st))
                            (source_length st)) st) ;;
  updateLightboxContent.

(** Whether the lightbox is open: its modal lacks the class [hidden]. *)
Definition lightbox_open (st : State) : bool :=
  match imageModal (lightboxView st) with
  | Some cl => negb (cl_hidden cl)
  | None => false
  end.

(** The [keydown] listener on the document. *)
Definition keydown (key : jsstring) : Handler :=
  fun st =>
    match imageModal (lightboxView st) with
    | None => throw st
    | Some cl =>
        if negb (cl_hidden cl)
        then ((if jsstring_eqb key (lit "Escape") then closeLightbox else ret) ;;
              (if jsstring_eqb key (lit "ArrowRight") then nextImage false else ret) ;;
              (if jsstring_eqb key (lit "ArrowLeft") then prevImage false else ret)) st
        else ret st
    end.

(** What the document answers when a link is clicked: the element a
    selector finds, and the navigation bar's height if there is a bar. *)
Inductive QueryResult : Type :=
| QElement (offsetTop : Z)
| QNull
| QSyntaxError.

Record Layout : Type := mkLayout {
  querySelector : jsstring -> QueryResult;
  navbar : option Z                  (* [offsetHeight] of [#navbar] *)
}.

(** The click listener of [setupSmoothScroll]; [this] is the anchor. *)
Definition anchor_click (this : Anchor) (ly : Layout) : Handler :=
  fun st =>
    match href this with
    | None => ret st
    | Some targetId =>
        if match targetId with [] => true | _ => false end
           || negb (startsWith targetId (lit "#"))
        then ret st
        else
          let st := log PreventDefault st in
          if jsstring_eqb targetId (lit "#") then ret st
          else match querySelector ly targetId with
               | QSyntaxError => throw st
               | QNull => ret st
               | QElement offsetTop =>
                   let navHeight := match navbar ly with
                                    | Some h => if h =? 0 then 0 else h
                                    | None => 0
                                    end in
                   ret (log (ScrollTo (offsetTop - navHeight)) st)
               end
    end.

(** ** Start-up and the data load *)

(** [setupLoadMore] and [setupGallery] only register listeners, on elements
    whose presence never changes: which of them exist is read off the
    markup when an event is dispatched (see [handle]). *)
Definition setupLoadMore : Handler := ret.
Definition setupGallery : Handler := ret.

(** [setupSmoothScroll]: a listener on each [a[href^="#"]] of that moment. *)
Definition setupSmoothScroll : Handler :=
  lift (fun st =>
          let register (a : Anchor) : Anchor :=
            match href a with
            | Some h => if startsWith h (lit "#")
                        then mkAnchor (href a) (js_resume_download a) (download a) true
                        else a
            | None => a
            end in
          set_anchors (map register (anchors (pageView st))) st).

(** [setupLightboxControls]: [modal.addEventListener] throws on a page
    without [#imageModal], before the [keydown] listener is registered. *)
Definition setupLightboxControls : Handler :=
  fun st =>
    match imageModal (lightboxView st) with
    | None => throw st
    | Some _ => ret st
    end.

Definition setupEventListeners : Handler :=
  setupLoadMore ;; setupGallery ;; setupSmoothScroll ;; setupLightboxControls.

(** [loadData] up to its first [await]: the three fetches are under way. *)
Definition loadData_start : Handler := lift (set_phase Fetching).

(** The [catch] clause of [loadData]. *)
Definition loadData_catch : Handler :=
  lift (fun st => set_phase LoadFailed (log ConsoleError st)).

(** The stretches of [loadData] between two [await]s.  A rejected promise
    ([false], [None]) throws at the [await]. *)
Definition resume_fetch (ok : bool) : Handler :=
  if ok then lift (set_phase ParsingArt) else throw.

Definition resume_art (r : option ArtCatalog) : Handler :=
  match r with
  | Some a => lift (set_artData a) ;; lift (set_phase ParsingProjects)
  | None => throw
  end.

Definition resume_projects (r : option ProjectCatalog) : Handler :=
  match r with
  | Some p => lift (set_projectData p) ;; lift (set_phase ParsingLinks)
  | None => throw
  end.

Definition resume_links (r : option LinksConfig) : Handler :=
  match r with
  | Some linksData =>
      updateLinks linksData ;;
      loadCodeProjects true ;;
      loadFeaturedArt ;;
      animateHero ;;
      lift (set_phase Loaded)
  | None => throw
  end.

(** [loadData] from the settling of the fetches to its end, when nothing
    else runs in between. *)
Definition loadData_settle (fetched : bool) (art : option ArtCatalog)
           (proj : option ProjectCatalog) (links : option LinksConfig) : Handler :=
  try_catch (resume_fetch fetched ;; resume_art art ;; resume_projects proj ;; resume_links links)
            loadData_catch.

(** The [DOMContentLoaded] listener. *)
Definition domContentLoaded : Handler :=
  loadData_start ;; setupEventListeners ;; setupScrollAnimations.

(** ** Events *)

Inductive Event : Type :=
| DOMContentLoaded
| FetchesSettled (ok : bool)
| ArtJson (r : option ArtCatalog)
| ProjectJson (r : option ProjectCatalog)
| LinksJson (r : option LinksConfig)
| ClickLoadMore
| ClickCard (i : nat)
| ClickViewAll
| ClickGalleryClose
| ClickGalleryItem (i : nat)
| ClickThumbnail (i : nat)
| ClickModalClose
| ClickModalNext
| ClickModalPrev
| ClickModalBackdrop
| KeyDown (key : jsstring)
| ClickAnchor (i : nat) (ly : Layout).

Definition started (st : State) : bool :=
  match phase st with
  | NotStarted => false
  | _ => true
  end.

Definition in_phase (p : LoadPhase) (st : State) : bool :=
  match p, phase st with
  | NotStarted, NotStarted | Fetching, Fetching | ParsingArt, ParsingArt
  | ParsingProjects, ParsingProjects | ParsingLinks, ParsingLinks
  | Loaded, Loaded | LoadFailed, LoadFailed => true
  | _, _ => false
  end.

Definition is_some {A : Type} (o : option A) : bool :=
  match o with
  | Some _ => true
  | None => false
  end.

(** The listener an event reaches, if one is registered for it.  The guards
    on the phase in the first five cases are facts about the browser, not
    about the script: [DOMContentLoaded] is fired once per document, and a
    promise settles once, so each stretch of [loadData] is resumed once and
    in order.  (The script itself would run [loadData] and register every
    listener again if the event were dispatched a second time.) *)
Definition listener (e : Event) (st : State) : Handler :=
  match e with
  | DOMContentLoaded =>
      if in_phase NotStarted st then domContentLoaded else ret
  | FetchesSettled ok =>
      if in_phase Fetching st then try_catch (resume_fetch ok) loadData_catch else ret
  | ArtJson r =>
      if in_phase ParsingArt st then try_catch (resume_art r) loadData_catch else ret
  | ProjectJson r =>
      if in_phase ParsingProjects st then try_catch (resume_projects r) loadData_catch else ret
  | LinksJson r =>
      if in_phase ParsingLinks st then try_catch (resume_links r) loadData_catch else ret
  | ClickLoadMore =>
      if started st && is_some (loadMoreProjects (projectsView st)) then loadMore_click else ret
  | ClickCard i =>
      match codeGrid (projectsView st) with
      | Some cards => match nth_error cards i with
                      | Some c => card_click c
                      | None => ret
                      end
      | None => ret
      end
  | ClickViewAll =>
      if started st && viewAllArt (galleryView st) && is_some (galleryModal (galleryView st))
      then viewAll_click else ret
  | ClickGalleryClose =>
      if started st && galleryClose (galleryView st) then galleryClose_click else ret
  | ClickGalleryItem i =>
      match fullGalleryGrid (galleryView st) with
      | Some items => match nth_error items i with
                      | Some it => galleryItem_click it
                      | None => ret
                      end
      | None => ret
      end
  | ClickThumbnail i =>
      match thumbnailStrip (lightboxView st) with
      | Some thumbs => match nth_error thumbs i with
                       | Some t => thumbnail_click t
                       | None => ret
                       end
      | None => ret
      end
  | ClickModalClose =>
      if started st && modalClose (lightboxView st) then closeLightbox else ret
  | ClickModalNext =>
      if started st && modalNext (lightboxView st) then nextImage true else ret
  | ClickModalPrev =>
      if started st && modalPrev (lightboxView st) then prevImage true else ret
  | ClickModalBackdrop =>
      if started st && is_some (imageModal (lightboxView st)) then closeLightbox else ret
  | KeyDown key =>
      if started st && is_some (imageModal (lightboxView st)) then keydown key else ret
  | ClickAnchor i ly =>
      match nth_error (anchors (pageView st)) i with
      | Some a => if smooth a then anchor_click a ly else ret
      | None => ret
      end
  end.

(** One turn of the event loop. *)
Definition handle (e : Event) (st : State) : State := after (listener e st) st.

Definition run_events (es : list Event) (st : State) : State :=
  fold_left (fun s e => handle e s) es st.

(** The page as the script finds it: its own globals at their initial
    values over whatever markup the page has. *)
Definition initial_globals : Globals :=
  mkGlobals (mkArtCatalog [] []) (mkProjectCatalog []) 6 (Num 0) [].

Definition initial_state (pv : ProjectsView) (gv : GalleryView) (lv : LightboxView)
           (page : PageView) : State :=
  mkState initial_globals pv gv lv page NotStarted [].

Definition is_initial (st : State) : Prop :=
  globals st = initial_globals /\ phase st = NotStarted /\ effects st = [] /\
  Forall (fun a => smooth a = false) (anchors (pageView st)).

Inductive reachable : State -> Prop :=
| reach_init : forall st, is_initial st -> reachable st
| reach_step : forall st e, reachable st -> reachable (handle e st).

(** How many times the "load more" listener has run: it is the only caller
    of [loadCodeProjects] without the [initial] flag. *)
Fixpoint activations (es : list Effect) : Z :=
  match es with
  | [] => 0
  | Called (FloadCodeProjects false) :: es' => 1 + activations es'
  | _ :: es' => activations es'
  end.

(** The cards of the projects at positions [lo <= index < hi]. *)
Definition cards_between (lo hi : nat) (all : list Project) : list Card :=
  map project_card (skipn lo (firstn hi all)).

(** ** Vocabulary of the statements below *)

Definition displayed (st : State) : Z := displayedProjectCount (globals st).
Definition all_projects (st : State) : list Project := projects (projectData (globals st)).

(** What [loadCodeProjects] leaves in the grid and on the button. *)
Definition rendered (initial : bool) (count : Z) (all : list Project) (grid0 : list Card) : list Card :=
  (if initial then [] else grid0) ++
  map project_card (if initial then slice0 all count
                    else skipn (Z.to_nat (count - projectsPerLoad)) (slice0 all count)).

Definition button_display (count : Z) (all : list Project) : Display :=
  if count >=? Z.of_nat (length all) then DisplayNone else DisplayBlock.

(** The pagination's share of the state. *)
Definition pagination (st : State) : Z * ProjectCatalog * ProjectsView * LoadPhase * Z :=
  (displayedProjectCount (globals st), projectData (globals st), projectsView st,
   phase st, activations (effects st)).

(** A handler that stays out of the pagination's way, whatever its outcome. *)
Definition off_pagination (h : Handler) : Prop :=
  forall st, pagination (fst (h st)) = pagination st.

(** A handler that returns and touches neither the globals nor the project
    grid nor the load phase, and is not a "load more" activation. *)
Definition aside (h : Handler) : Prop :=
  forall st,
    snd (h st) = Returned /\
    globals (fst (h st)) = globals st /\
    projectsView (fst (h st)) = projectsView st /\
    phase (fst (h st)) = phase st /\
    activations (effects (fst (h st))) = activations (effects st).

Definition is_load_more (e : Event) : bool :=
  match e with
  | ClickLoadMore => true
  | _ => false
  end.

Definition load_more_registered (st : State) : bool :=
  started st && is_some (loadMoreProjects (projectsView st)).

(** What one event can do to the pagination: nothing; a step of the data
    load short of its end; the end of a successful load, which renders the
    first page; an activation of "load more". *)
Inductive Move (e : Event) (st st' : State) : Prop :=
| move_none :
    is_load_more e && load_more_registered st = false ->
    pagination st' = pagination st -> Move e st st'
| move_loading :
    phase st <> Loaded -> phase st' <> Loaded ->
    displayed st' = displayed st ->
    activations (effects st') = activations (effects st) ->
    Move e st st'
| move_loaded :
    phase st <> Loaded -> phase st' = Loaded ->
    globals st' = globals st ->
    activations (effects st') = activations (effects st) ->
    projectsView st' = projectsView (fst (loadCodeProjects true st)) ->
    Move e st st'
| move_more :
    is_load_more e = true ->
    load_more_registered st = true ->
    phase st' = phase st ->
    displayed st' = displayed st + projectsPerLoad ->
    projectData (globals st') = projectData (globals st) ->
    activations (effects st') = 1 + activations (effects st) ->
    projectsView st' =
      projectsView (fst (loadCodeProjects false
                           (set_displayedProjectCount (displayed st + projectsPerLoad) st))) ->
    Move e st st'.

(** The pagination invariant: the counter counts activations, and once the
    data is loaded the grid shows the first [displayed] projects and the
    button is hidden or shown accordingly. *)
Definition paginated (st : State) : Prop :=
  displayed st = 6 + 6 * activations (effects st) /\
  (phase st = Loaded ->
   forall cards, codeGrid (projectsView st) = Some cards ->
     cards = map project_card (slice0 (all_projects st) (displayed st)) /\
     forall d, loadMoreProjects (projectsView st) = Some d ->
       d = button_display (displayed st) (all_projects st)).

(** The clicks on "load more" among a list of events. *)
Fixpoint load_more_clicks (es : list Event) : Z :=
  match es with
  | [] => 0
  | ClickLoadMore :: es' => 1 + load_more_clicks es'
  | _ :: es' => load_more_clicks es'
  end.

(** Start-up followed by a data load in which everything succeeds. *)
Definition load_events (a : ArtCatalog) (p : ProjectCatalog) (l : LinksConfig) : list Event :=
  [DOMContentLoaded; FetchesSettled true; ArtJson (Some a); ProjectJson (Some p); LinksJson (Some l)].

(** The gallery grid of a sequence of art items. *)
Definition gallery_of (allArt : list ArtItem) : list GalleryItem :=
  map (fun '(index, art) => gallery_item allArt index art) (indexed allArt).

(** [navHeight]: the bar's height, 0 without a bar. *)
Definition nav_height (ly : Layout) : Z :=
  match navbar ly with
  | Some h => h
  | None => 0
  end.

(** ** A sample page

    A page with all the collaborating markup, small catalogs, and the
    states a few events lead to; the statements below are tried on them. *)

Definition sample_art (name : string) : ArtItem :=
  mkArt (lit name ++ lit ".png") (lit name) (lit "2024").

Definition sample_artData : ArtCatalog :=
  mkArtCatalog [sample_art "A"; sample_art "B"; sample_art "C"]
               [sample_art "D"; sample_art "E"].

Definition sample_project (n : nat) : Project :=
  mkProject (lit "project") (lit "description") [lit "js"; lit "css"] None.

Definition sample_projectData : ProjectCatalog :=
  mkProjectCatalog (map sample_project (List.seq 0 10)).

Definition sample_links : LinksConfig :=
  mkLinks (lit "https://github.com/me") (lit "resume.pdf").

Definition sample_page : State :=
  initial_state
    (mkProjectsView (Some []) (Some DisplayInitial))
    (mkGalleryView true true (Some hide_modal) (Some []))
    (mkLightboxView true true true (Some hide_modal) (Some (mkImg [] [])) (Some []))
    (mkPageView (Some []) OverflowInitial
                [mkAnchor (Some (lit "#about")) false None false;
                 mkAnchor (Some (lit "https://github.com/")) false None false]
                2 0).

Definition sample_fetching : State := run_events [DOMContentLoaded] sample_page.

Definition sample_loaded : State :=
  run_events (load_events sample_artData sample_projectData sample_links) sample_page.

Definition sample_more : State := run_events [ClickLoadMore] sample_loaded.

Definition sample_lightbox : State :=
  run_events [ClickViewAll; ClickGalleryItem 3] sample_loaded.

(** A layout in which no selector finds anything, and one in which every
    selector finds an element 900 pixels down, under a bar 64 pixels high. *)
Definition empty_layout : Layout := mkLayout (fun _ => QNull) None.
Definition full_layout : Layout := mkLayout (fun _ => QElement 900) (Some 64).

Definition link_to (target : string) : Anchor := mkAnchor (Some (lit target)) false None true.

(** An item whose title has double quotes in it. *)
Definition quoted_title : jsstring :=
  lit "x" ++ dq ++ lit " onerror=" ++ dq ++ lit "alert(1)".

Definition quoted_art : ArtItem := mkArt (lit "a.png") quoted_title (lit "2024").

Definition quoted_loaded : State :=
  run_events (load_events (mkArtCatalog [quoted_art] []) sample_projectData sample_links)
             sample_page.

(** ** Vocabulary of the further properties *)

(** What [updateLinks] makes of one anchor. *)
Definition rewritten (links : LinksConfig) (a : Anchor) : Anchor :=
  if js_resume_download a
  then mkAnchor (Some (links_resume links)) true (Some (lit "Dixit_Parmar_Resume.pdf")) (smooth a)
  else if is_github_link a
       then mkAnchor (Some (links_github links)) false (download a) (smooth a)
       else a.

(** The strip after [updateLightboxContent]: the same thumbnails, the one
    at the current position marked. *)
Definition marked (current : jsnum) (thumbs : list Thumb) : list Thumb :=
  map (fun '(idx, th) => mkThumb (js_index_eqb idx current) (thumb_innerHTML th) (thumb_index th))
      (indexed thumbs).

(** The strip [generateThumbnails] builds. *)
Definition strip_of (current : jsnum) (source : list ArtItem) : list Thumb :=
  map (fun '(index, item) => thumbnail current index item) (indexed source).

(** The timers [animateHero] sets, most recent first. *)
Definition hero_timers (n : nat) : list Effect :=
  rev (map (fun index => SetTimeout index (Z.of_nat index * 150 + 400)) (List.seq 0 n)).

(** What [setupSmoothScroll] makes of one anchor. *)
Definition with_listener (a : Anchor) : Anchor :=
  match href a with
  | Some h => if startsWith h (lit "#")
              then mkAnchor (href a) (js_resume_download a) (download a) true
              else a
  | None => a
  end.

(** The catalogs and the phase of the load. *)
Definition catalogs (st : State) : ArtCatalog * ProjectCatalog * LoadPhase :=
  (artData (globals st), projectData (globals st), phase st).

(** A handler that leaves them alone, whatever its outcome. *)
Definition keeps_catalogs (h : Handler) : Prop :=
  forall st, catalogs (fst (h st)) = catalogs st.

(** The events a visitor causes, as opposed to those of start-up and of
    the data load. *)
Definition user_event (e : Event) : bool :=
  match e with
  | DOMContentLoaded | FetchesSettled _ | ArtJson _ | ProjectJson _ | LinksJson _ => false
  | _ => true
  end.

(** The indices the listeners of the strip hold. *)
Definition strip_indices (st : State) : option (list nat) :=
  option_map (map thumb_index) (thumbnailStrip (lightboxView st)).

(** The lightbox's share of the state. *)
Definition lightbox_part (st : State)
  : jsnum * list ArtItem * option (list GalleryItem) * option (list nat) * bool * bool :=
  (currentLightboxIndex (globals st), currentLightboxSource (globals st),
   fullGalleryGrid (galleryView st), strip_indices st,
   is_some (imageModal (lightboxView st)), is_some (modalImg (lightboxView st))).

(** A handler that leaves that share alone, whatever its outcome. *)
Definition off_lightbox (h : Handler) : Prop :=
  forall st, lightbox_part (fst (h st)) = lightbox_part st.

(** Every listener of the gallery and of the strip holds a position inside
    the sequence it was made for, and the index is inside the source as
    soon as there is one. *)
Definition lightbox_safe (st : State) : Prop :=
  (forall items it,
      fullGalleryGrid (galleryView st) = Some items -> In it items ->
      (item_index it < length (item_source it))%nat) /\
  (forall idxs,
      strip_indices st = Some idxs ->
      idxs = [] \/
      (is_some (imageModal (lightboxView st)) = true /\
       is_some (modalImg (lightboxView st)) = true /\
       Forall (fun k => (k < length (currentLightboxSource (globals st)))%nat) idxs)) /\
  (currentLightboxSource (globals st) = [] \/
   exists i, currentLightboxIndex (globals st) = Num (Z.of_nat i) /\
             (i < length (currentLightboxSource (globals st)))%nat).

(** A handler that keeps the lightbox inside its source. *)
Definition keeps_safe (h : Handler) : Prop :=
  forall st, lightbox_safe st -> lightbox_safe (fst (h st)).

(** A page before start-up whose gallery grid and thumbnail strip are
    still empty. *)
Definition fresh_page (st : State) : Prop :=
  is_initial st /\
  (fullGalleryGrid (galleryView st) = None \/ fullGalleryGrid (galleryView st) = Some []) /\
  (thumbnailStrip (lightboxView st) = None \/ thumbnailStrip (lightboxView st) = Some []).

(** A string as character tokens. *)
Definition chars (s : jsstring) : list Token := map TChar s.

(** The tokens of one technology badge. *)
Definition badge_tokens (tech : jsstring) : list Token :=
  [TStartTag (lit "span") [(lit "class", lit "tech-badge")] false] ++
  chars (text_read tech) ++ [TEndTag (lit "span")].

(** The tokens of a project card: the texts as the parser reads them. *)
Definition card_tokens (project : Project) : list Token :=
  chars (nl ++ lit "        ") ++ [TStartTag (lit "h3") [] false] ++
  chars (text_read (project_title project)) ++ [TEndTag (lit "h3")] ++
  chars (nl ++ lit "        ") ++ [TStartTag (lit "p") [] false] ++
  chars (text_read (project_description project)) ++ [TEndTag (lit "p")] ++
  chars (nl ++ lit "        ") ++
  [TStartTag (lit "div") [(lit "class", lit "tech-stack")] false] ++
  chars (nl ++ lit "          ") ++
  flat_map badge_tokens (project_technologies project) ++
  chars (nl ++ lit "        ") ++ [TEndTag (lit "div")] ++ chars (nl ++ lit "      ").

(** The tokens of a featured-art block. *)
Definition featured_tokens (art : ArtItem) : list Token :=
  chars (nl ++ lit "      ") ++
  [TStartTag (lit "div") [(lit "class", lit "relative overflow-hidden rounded-xl")] false] ++
  chars (nl ++ lit "        ") ++
  [TStartTag (lit "img")
             [(lit "src", value_read (art_image art)); (lit "alt", value_read (art_title art));
              (lit "class",
               lit "w-full h-auto transition-transform duration-500 group-hover:scale-105")]
             false] ++
  chars (nl ++ lit "      ") ++ [TEndTag (lit "div")] ++
  chars (nl ++ lit "      ") ++
  [TStartTag (lit "h3")
             [(lit "class", lit "text-[17px] font-semibold mt-4 mb-1 text-[#444]")] false] ++
  chars (text_read (art_title art)) ++ [TEndTag (lit "h3")] ++
  chars (nl ++ lit "      ") ++
  [TStartTag (lit "p") [(lit "class", lit "text-[14px] font-semibold text-[#444]/40")] false] ++
  chars (text_read (art_year art)) ++ [TEndTag (lit "p")] ++
  chars (nl ++ lit "    ").

(** The element names of the tags, end tags with a slash in front. *)
Fixpoint tags_of (toks : list Token) : list jsstring :=
  match toks with
  | [] => []
  | TStartTag n _ _ :: toks' => n :: tags_of toks'
  | TEndTag n :: toks' => (lit "/" ++ n) :: tags_of toks'
  | TChar _ :: toks' => tags_of toks'
  end.

(** * Properties *)

(** ** Escaping *)

Lemma escapeHtml_flat_map (s : jsstring) : escapeHtml s = flat_map escape_unit s.
Proof.
  unfold escapeHtml, get_innerHTML, set_textContent.
  destruct s as [|c s]; [reflexivity|].
  cbn [flat_map serialize_node]. now rewrite app_nil_r.
Qed.

Lemma escapeHtml_app (a b : jsstring) : escapeHtml (a ++ b) = escapeHtml a ++ escapeHtml b.
Proof. rewrite !escapeHtml_flat_map. apply flat_map_app. Qed.

Lemma escapeHtml_cons (c : N) (s : jsstring) : escapeHtml (c :: s) = escape_unit c ++ escapeHtml s.
Proof. now rewrite !escapeHtml_flat_map. Qed.

Lemma escape_unit_cases (c : N) :
  (c = AMP /\ escape_unit c = lit "&amp;") \/
  (c = NBSP /\ escape_unit c = lit "&nbsp;") \/
  (c = LT /\ escape_unit c = lit "&lt;") \/
  (c = GT /\ escape_unit c = lit "&gt;") \/
  (c <> AMP /\ c <> NBSP /\ c <> LT /\ c <> GT /\ escape_unit c = [c]).
Proof.
  unfold escape_unit.
  destruct (N.eqb_spec c AMP); [now left|].
  destruct (N.eqb_spec c NBSP); [now right; left|].
  destruct (N.eqb_spec c LT); [now right; right; left|].
  destruct (N.eqb_spec c GT); [now right; right; right; left|].
  now right; right; right; right.
Qed.

Lemma count_occ_escape (q : N) (s : jsstring) :
  q = QUOT \/ q = APOS ->
  count_occ N.eq_dec (escapeHtml s) q = count_occ N.eq_dec s q.
Proof.
  intros Hq. induction s as [|c s IH]; [reflexivity|].
  rewrite escapeHtml_cons. change (c :: s) with ([c] ++ s).
  rewrite !count_occ_app, IH. f_equal.
  destruct (escape_unit_cases c) as [[-> ->]|[[-> ->]|[[-> ->]|[[-> ->]|(_ & _ & _ & _ & ->)]]]];
    try (destruct Hq as [-> | ->]; reflexivity).
Qed.

Lemma escapeHtml_no_angle (s : jsstring) : ~ In LT (escapeHtml s) /\ ~ In GT (escapeHtml s).
Proof.
  induction s as [|c s [IHl IHg]]; [split; intros []|].
  rewrite escapeHtml_cons.
  split; intros H; apply in_app_or in H; destruct H as [H|H]; try tauto;
    destruct (escape_unit_cases c) as [[-> E]|[[-> E]|[[-> E]|[[-> E]|(_ & _ & Hl & Hg & E)]]]];
    rewrite E in H; cbn in H; unfold LT, GT in *;
    repeat (destruct H as [H|H]; [try discriminate; try (symmetry in H; contradiction)|]); try contradiction.
Qed.

(** Newline normalisation and escaping commute: [escapeHtml] leaves CR and
    LF as they are and writes neither. *)
Lemma normalize_plain (c : N) (s : jsstring) :
  c <> 13%N -> normalize_newlines (c :: s) = c :: normalize_newlines s.
Proof. intros H. cbn [normalize_newlines]. now rewrite (proj2 (N.eqb_neq c 13) H). Qed.

Lemma normalize_escape_unit (c : N) (tl : jsstring) :
  c <> 13%N ->
  normalize_newlines (escape_unit c ++ tl) = escape_unit c ++ normalize_newlines tl.
Proof.
  intros H.
  destruct (escape_unit_cases c) as [[_ ->]|[[_ ->]|[[_ ->]|[[_ ->]|(_ & _ & _ & _ & ->)]]]];
    try reflexivity.
  now apply normalize_plain.
Qed.

Lemma escape_unit_no_leading_LF (c : N) (tl : jsstring) :
  c <> 10%N -> no_leading_LF (escape_unit c ++ tl).
Proof.
  intros H.
  destruct (escape_unit_cases c) as [[_ ->]|[[_ ->]|[[_ ->]|[[_ ->]|(_ & _ & _ & _ & ->)]]]];
    cbn; try discriminate. exact H.
Qed.

Lemma normalize_CR (tl : jsstring) :
  no_leading_LF tl -> normalize_newlines (13%N :: tl) = 10%N :: normalize_newlines tl.
Proof.
  intros H. cbn [normalize_newlines]. cbn [N.eqb Pos.eqb].
  destruct tl as [|d tl]; [reflexivity|].
  cbn in H. now rewrite (proj2 (N.eqb_neq d 10) H).
Qed.

Lemma normalize_escape_le (n : nat) :
  forall s rest,
    (length s <= n)%nat -> no_leading_LF rest ->
    normalize_newlines (escapeHtml s ++ rest)
    = escapeHtml (normalize_newlines s) ++ normalize_newlines rest.
Proof.
  induction n as [|n IH]; intros s rest Hn Hrest.
  - destruct s; [reflexivity|cbn in Hn; lia].
  - destruct s as [|c s]; [reflexivity|]. cbn [length] in Hn.
    destruct (N.eqb_spec c 13) as [->|Hc].
    + change (escapeHtml (13%N :: s)) with (escapeHtml ([13%N] ++ s)).
      rewrite escapeHtml_app. change (escapeHtml [13%N]) with [13%N]. cbn [app].
      destruct s as [|d s].
      * cbn [escapeHtml set_textContent get_innerHTML flat_map app].
        now rewrite normalize_CR.
      * destruct (N.eqb_spec d 10) as [->|Hd].
        -- change (escapeHtml (10%N :: s)) with (escapeHtml ([10%N] ++ s)).
           rewrite escapeHtml_app. change (escapeHtml [10%N]) with [10%N]. cbn [app].
           change (normalize_newlines (13%N :: 10%N :: escapeHtml s ++ rest))
             with (10%N :: normalize_newlines (escapeHtml s ++ rest)).
           change (normalize_newlines (13%N :: 10%N :: s))
             with (10%N :: normalize_newlines s).
           rewrite IH by (cbn [length] in Hn; lia || assumption).
           now rewrite escapeHtml_cons.
        -- rewrite normalize_CR.
           2:{ rewrite escapeHtml_cons, <- app_assoc. now apply escape_unit_no_leading_LF. }
           rewrite IH by (lia || assumption).
           rewrite (normalize_CR (d :: s)) by exact Hd.
           now rewrite (escapeHtml_cons 10).
    + rewrite escapeHtml_cons, <- app_assoc, normalize_escape_unit by exact Hc.
      rewrite IH by (lia || assumption).
      rewrite normalize_plain by exact Hc.
      now rewrite escapeHtml_cons, <- app_assoc.
Qed.

Lemma normalize_escape (s rest : jsstring) :
  no_leading_LF rest ->
  normalize_newlines (escapeHtml s ++ rest)
  = escapeHtml (normalize_newlines s) ++ normalize_newlines rest.
Proof. apply (normalize_escape_le (length s)). lia. Qed.

(** Reading escaped text back in the data state gives the text, without
    its U+0000. *)
Lemma run_data_reference (c : N) (tl : jsstring) :
  c = AMP \/ c = NBSP \/ c = LT \/ c = GT ->
  run Data O (escape_unit c ++ tl) = option_map (cons (TChar c)) (run Data O tl).
Proof.
  intros [-> | [-> | [-> | ->]]]; reflexivity.
Qed.

Lemma run_data_plain (c : N) (tl : jsstring) :
  c <> AMP -> c <> LT -> c <> 0%N ->
  run Data O (c :: tl) = option_map (cons (TChar c)) (run Data O tl).
Proof.
  intros Ha Hl H0. cbn [run step]. unfold step_data.
  now rewrite (proj2 (N.eqb_neq c AMP) Ha), (proj2 (N.eqb_neq c LT) Hl),
    (proj2 (N.eqb_neq c 0) H0).
Qed.

Lemma run_data_nul (tl : jsstring) : run Data O (0%N :: tl) = run Data O tl.
Proof. cbn. now destruct (run Data 0 tl). Qed.

Lemma run_data_escape (s rest : jsstring) :
  run Data O (escapeHtml s ++ rest) = option_map (app (map TChar (drop_nul s))) (run Data O rest).
Proof.
  induction s as [|c s IH].
  - cbn. destruct (run Data 0 rest); reflexivity.
  - rewrite escapeHtml_cons, <- app_assoc.
    destruct (N.eqb_spec c 0) as [->|H0].
    + change (escape_unit 0) with [0%N]. cbn [app]. rewrite run_data_nul. exact IH.
    + assert (E : run Data O (escape_unit c ++ escapeHtml s ++ rest)
                  = option_map (cons (TChar c)) (run Data O (escapeHtml s ++ rest))).
      { destruct (escape_unit_cases c) as [[-> _]|[[-> _]|[[-> _]|[[-> _]|(Ha & _ & Hl & _ & E)]]]];
          try (apply run_data_reference; tauto).
        rewrite E. now apply run_data_plain. }
      rewrite E, IH. unfold drop_nul. cbn [filter].
      rewrite (proj2 (N.eqb_neq c 0) H0). cbn [negb map].
      destruct (run Data 0 rest); reflexivity.
Qed.

Lemma tokenize_escapeHtml (s : jsstring) :
  tokenize (escapeHtml s) = Some (map TChar (text_read s)).
Proof.
  unfold tokenize, text_read.
  rewrite <- (app_nil_r (escapeHtml s)), normalize_escape by exact I.
  cbn [normalize_newlines]. rewrite run_data_escape.
  cbn. now rewrite app_nil_r.
Qed.

(** C9. [escapeHtml] is the text-node serialisation of its argument: it works
    code unit by code unit, writes [&], [<] and [>] as the character
    references [&amp;], [&lt;] and [&gt;] (so that no [<] or [>] is left) and
    the no-break space as [&nbsp;], and returns every other code unit
    unchanged, double and single quotes among them, as many as the argument
    has: a title with double quotes in it comes back with them. *)
Theorem escapeHtml_text_serialization :
  forall s : jsstring,
    (forall a b, s = a ++ b -> escapeHtml s = escapeHtml a ++ escapeHtml b) /\
    escapeHtml [AMP] = lit "&amp;" /\
    escapeHtml [LT] = lit "&lt;" /\
    escapeHtml [GT] = lit "&gt;" /\
    escapeHtml [NBSP] = lit "&nbsp;" /\
    escapeHtml [QUOT] = [QUOT] /\
    escapeHtml [APOS] = [APOS] /\
    (forall c, c <> AMP -> c <> LT -> c <> GT -> c <> NBSP -> escapeHtml [c] = [c]) /\
    ~ In LT (escapeHtml s) /\ ~ In GT (escapeHtml s) /\
    count_occ N.eq_dec (escapeHtml s) QUOT = count_occ N.eq_dec s QUOT /\
    count_occ N.eq_dec (escapeHtml s) APOS = count_occ N.eq_dec s APOS /\
    escapeHtml quoted_title = quoted_title.
Proof.
  intros s. repeat split; try reflexivity.
  - intros a b ->. apply escapeHtml_app.
  - intros c Ha Hl Hg Hn. rewrite escapeHtml_cons.
    destruct (escape_unit_cases c) as [[E _]|[[E _]|[[E _]|[[E _]|(_ & _ & _ & _ & ->)]]]];
      [contradiction..|reflexivity].
  - apply escapeHtml_no_angle.
  - apply escapeHtml_no_angle.
  - apply count_occ_escape; now left.
  - apply count_occ_escape; now right.
Qed.

(** ** Handlers and the parts of the state they leave alone *)

Lemma activations_nonneg (es : list Effect) : 0 <= activations es.
Proof.
  induction es as [|e es IH]; [reflexivity|].
  cbn [activations]. destruct e as [[| [] | |]| | | | | | |]; lia.
Qed.

Lemma off_ret : off_pagination ret.
Proof. intros st. reflexivity. Qed.

Lemma off_andThen (f g : Handler) :
  off_pagination f -> off_pagination g -> off_pagination (f ;; g).
Proof.
  intros Hf Hg st. unfold andThen. specialize (Hf st).
  destruct (f st) as [st' []]; cbn [fst] in *; [now rewrite Hg|assumption].
Qed.

Lemma off_if (b : bool) (f g : Handler) :
  off_pagination f -> off_pagination g -> off_pagination (if b then f else g).
Proof. now destruct b. Qed.

Lemma off_lift (f : State -> State) :
  (forall st, pagination (f st) = pagination st) -> off_pagination (lift f).
Proof. intros H st. apply H. Qed.

Lemma scroll_marks_off (current : jsnum) (l : list (nat * Thumb)) (st : State) :
  pagination (fold_left (fun s '(idx, _) =>
                           if js_index_eqb idx current then log (ScrollIntoView idx) s else s)
                        l st) = pagination st.
Proof.
  revert st. induction l as [|[idx t] l IH]; intros st; [reflexivity|].
  cbn [fold_left]. rewrite IH. now destruct (js_index_eqb idx current).
Qed.

Lemma off_updateLightboxContent : off_pagination updateLightboxContent.
Proof.
  intros st. unfold updateLightboxContent.
  destruct (js_get _ _); [|reflexivity].
  destruct (modalImg _); [|reflexivity].
  cbn [set_modalImg set_lightboxView lightboxView thumbnailStrip].
  destruct (thumbnailStrip (lightboxView st)); [|reflexivity].
  unfold ret. cbn [fst]. now rewrite scroll_marks_off.
Qed.

Lemma off_generateThumbnails : off_pagination generateThumbnails.
Proof.
  intros st. unfold generateThumbnails. now destruct (thumbnailStrip _).
Qed.

Lemma off_closeLightbox : off_pagination closeLightbox.
Proof. intros st. unfold closeLightbox. now destruct (imageModal _). Qed.

Lemma off_openLightbox (src : list ArtItem) (i : jsnum) : off_pagination (openLightbox src i).
Proof.
  unfold openLightbox.
  repeat apply off_andThen; try (apply off_lift; reflexivity);
    auto using off_updateLightboxContent, off_generateThumbnails.
  intros st. now destruct (imageModal _).
Qed.

Lemma off_nextImage (e : bool) : off_pagination (nextImage e).
Proof.
  unfold nextImage.
  repeat apply off_andThen; try apply off_if; try (apply off_lift; reflexivity);
    auto using off_ret, off_updateLightboxContent.
Qed.

Lemma off_prevImage (e : bool) : off_pagination (prevImage e).
Proof.
  unfold prevImage.
  repeat apply off_andThen; try apply off_if; try (apply off_lift; reflexivity);
    auto using off_ret, off_updateLightboxContent.
Qed.

Lemma off_keydown (key : jsstring) : off_pagination (keydown key).
Proof.
  intros st. unfold keydown.
  destruct (imageModal _) as [cl|]; [|reflexivity].
  destruct (negb (cl_hidden cl)); [|reflexivity].
  revert st. repeat apply off_andThen; apply off_if;
    auto using off_ret, off_closeLightbox, off_nextImage, off_prevImage.
Qed.

Lemma off_viewAll_click : off_pagination viewAll_click.
Proof.
  intros st. unfold viewAll_click.
  destruct (fullGalleryGrid _); [|reflexivity].
  cbn [set_fullGalleryGrid set_galleryView galleryView galleryModal].
  now destruct (galleryModal (galleryView st)).
Qed.

Lemma off_galleryClose_click : off_pagination galleryClose_click.
Proof. intros st. unfold galleryClose_click. now destruct (galleryModal _). Qed.

Lemma off_thumbnail_click (t : Thumb) : off_pagination (thumbnail_click t).
Proof.
  unfold thumbnail_click.
  repeat apply off_andThen; try (apply off_lift; reflexivity);
    auto using off_updateLightboxContent.
Qed.

Lemma off_card_click (c : Card) : off_pagination (card_click c).
Proof.
  unfold card_click. destruct (card_onclick c); [apply off_lift; reflexivity|apply off_ret].
Qed.

Lemma off_anchor_click (a : Anchor) (ly : Layout) : off_pagination (anchor_click a ly).
Proof.
  intros st. unfold anchor_click.
  destruct (href a) as [t|]; [|reflexivity].
  destruct (_ || _); [reflexivity|].
  destruct (jsstring_eqb _ _); [reflexivity|].
  destruct (querySelector ly t); reflexivity.
Qed.

(** ** Rendering projects *)

(** The [forEach] of [loadCodeProjects] in closed form. *)
Lemma forEach_cards (initial : bool) (displayed : Z) (l : list Project) :
  forall (i : nat) (grid : list Card),
    fold_left (fun grid '(index, project) =>
                 if card_wanted initial displayed index
                 then grid ++ [project_card project]
                 else grid)
              (indexed_from i l) grid
    = grid ++ map project_card
                  (if initial then l
                   else skipn (Z.to_nat (displayed - projectsPerLoad) - i) l).
Proof.
  induction l as [|p l IH]; intros i grid.
  - cbn. rewrite skipn_nil. now destruct initial; rewrite app_nil_r.
  - cbn [indexed_from fold_left]. rewrite IH.
    unfold card_wanted. destruct initial; cbn [orb].
    + now rewrite <- app_assoc.
    + destruct (Z.geb_spec (Z.of_nat i) (displayed - projectsPerLoad)) as [H|H].
      * replace (Z.to_nat (displayed - projectsPerLoad) - i)%nat with 0%nat by lia.
        replace (Z.to_nat (displayed - projectsPerLoad) - S i)%nat with 0%nat by lia.
        cbn [skipn]. now rewrite <- app_assoc.
      * replace (Z.to_nat (displayed - projectsPerLoad) - i)%nat
          with (S (Z.to_nat (displayed - projectsPerLoad) - S i))%nat by lia.
        reflexivity.
Qed.

Lemma slice0_nonneg {A : Type} (l : list A) (e : Z) :
  0 <= e -> slice0 l e = firstn (Z.to_nat e) l.
Proof. intros H. unfold slice0. destruct (Z.ltb_spec e 0); [lia|reflexivity]. Qed.

Lemma slice0_min {A : Type} (l : list A) (e : Z) :
  0 <= e -> slice0 l e = firstn (Z.to_nat (Z.min e (Z.of_nat (length l)))) l.
Proof.
  intros H. rewrite slice0_nonneg by assumption.
  destruct (Z.le_ge_cases e (Z.of_nat (length l))) as [Hle|Hge].
  - now rewrite Z.min_l.
  - rewrite Z.min_r, Nat2Z.id, firstn_all by assumption.
    apply firstn_all2. lia.
Qed.

Lemma length_slice0 {A : Type} (l : list A) (e : Z) :
  0 <= e -> Z.of_nat (length (slice0 l e)) = Z.min e (Z.of_nat (length l)).
Proof.
  intros H. rewrite slice0_nonneg, length_firstn by assumption. lia.
Qed.

(** One more page: the cards already there and the newly exposed ones. *)
Lemma slice0_next_page {A : Type} (l : list A) (e : Z) :
  0 <= e ->
  slice0 l e ++ skipn (Z.to_nat e) (slice0 l (e + projectsPerLoad)) = slice0 l (e + projectsPerLoad).
Proof.
  intros H. unfold projectsPerLoad. rewrite !slice0_nonneg by lia.
  rewrite <- (firstn_skipn (Z.to_nat e) (firstn (Z.to_nat (e + 6)) l)) at 2.
  f_equal. rewrite firstn_firstn. f_equal. lia.
Qed.

Lemma loadCodeProjects_spec (initial : bool) (st : State) :
  let st' := fst (loadCodeProjects initial st) in
  let displayed := displayedProjectCount (globals st) in
  let all := projects (projectData (globals st)) in
  snd (loadCodeProjects initial st) = Returned /\
  globals st' = globals st /\
  phase st' = phase st /\
  galleryView st' = galleryView st /\
  lightboxView st' = lightboxView st /\
  projectsView st' =
    match codeGrid (projectsView st) with
    | None => projectsView st
    | Some grid0 =>
        mkProjectsView (Some (rendered initial displayed all grid0))
                       (option_map (fun _ => button_display displayed all)
                                   (loadMoreProjects (projectsView st)))
    end /\
  effects st' = Called (FloadCodeProjects initial) :: effects st.
Proof.
  destruct st as [g [cg lm] gv lv pg ph ef].
  unfold loadCodeProjects. cbn -[fold_left indexed slice0 Z.geb Z.sub].
  destruct cg as [grid0|]; [|cbn; auto 10].
  unfold indexed. rewrite forEach_cards, Nat.sub_0_r.
  destruct lm as [d|]; cbn -[slice0 Z.geb Z.sub]; auto 10.
Qed.

(** ** The renderers called at the end of the data load *)

Lemma aside_updateLinks (links : LinksConfig) : aside (updateLinks links).
Proof. intros st. repeat split. Qed.

Lemma aside_loadFeaturedArt : aside loadFeaturedArt.
Proof.
  intros st. unfold loadFeaturedArt.
  cbn [log pageView featuredArtGrid].
  destruct (featuredArtGrid (pageView st)); repeat split.
Qed.

Lemma timers_aside (l : list nat) :
  forall st,
    let st' := fold_left (fun s index => log (SetTimeout index (Z.of_nat index * 150 + 400)) s) l st in
    globals st' = globals st /\ projectsView st' = projectsView st /\
    phase st' = phase st /\ activations (effects st') = activations (effects st).
Proof.
  induction l as [|i l IH]; intros st; [repeat split|].
  cbn [fold_left]. destruct (IH (log (SetTimeout i (Z.of_nat i * 150 + 400)) st)) as (G & P & H & A).
  repeat split; assumption.
Qed.

Lemma aside_animateHero : aside animateHero.
Proof.
  intros st. unfold animateHero, ret. cbn [fst snd].
  destruct (timers_aside (List.seq 0 (heroText (pageView (log (Called FanimateHero) st))))
                         (log (Called FanimateHero) st)) as (G & P & H & A).
  repeat split; assumption.
Qed.

Lemma andThen_returned (f g : Handler) (st : State) :
  snd (f st) = Returned -> (f ;; g) st = g (fst (f st)).
Proof. unfold andThen. destruct (f st) as [st' o]. cbn. now intros ->. Qed.

(** The last stretch of a successful load. *)
Lemma resume_links_spec (links : LinksConfig) (st : State) :
  let st' := fst (resume_links (Some links) st) in
  snd (resume_links (Some links) st) = Returned /\
  phase st' = Loaded /\
  globals st' = globals st /\
  activations (effects st') = activations (effects st) /\
  projectsView st' = projectsView (fst (loadCodeProjects true st)).
Proof.
  cbn zeta. unfold resume_links.
  destruct (aside_updateLinks links st) as (R1 & G1 & P1 & Ph1 & A1).
  rewrite (andThen_returned _ _ _ R1).
  set (s1 := fst (updateLinks links st)) in *.
  destruct (loadCodeProjects_spec true s1) as (R2 & G2 & Ph2 & _ & _ & P2 & E2).
  destruct (loadCodeProjects_spec true st) as (_ & _ & _ & _ & _ & P0 & _).
  rewrite (andThen_returned _ _ _ R2).
  set (s2 := fst (loadCodeProjects true s1)) in *.
  destruct (aside_loadFeaturedArt s2) as (R3 & G3 & P3 & Ph3 & A3).
  rewrite (andThen_returned _ _ _ R3).
  set (s3 := fst (loadFeaturedArt s2)) in *.
  destruct (aside_animateHero s3) as (R4 & G4 & P4 & Ph4 & A4).
  rewrite (andThen_returned _ _ _ R4).
  set (s4 := fst (animateHero s3)) in *.
  cbn [lift fst snd set_phase phase globals effects projectsView].
  repeat split.
  - congruence.
  - rewrite A4, A3, E2. cbn [activations]. exact A1.
  - rewrite P4, P3, P2, P0, P1, G1. reflexivity.
Qed.

(** ** What one event does to the pagination *)

Lemma in_phase_eq (p : LoadPhase) (st : State) : in_phase p st = true -> phase st = p.
Proof. unfold in_phase. destruct p, (phase st); congruence. Qed.

Lemma move_off (e : Event) (h : Handler) (st : State) :
  is_load_more e && load_more_registered st = false ->
  off_pagination h -> Move e st (after h st).
Proof. intros He H. apply move_none; [exact He|apply H]. Qed.

Lemma move_domContentLoaded (st : State) :
  phase st = NotStarted -> Move DOMContentLoaded st (after domContentLoaded st).
Proof.
  intros Hp. apply move_loading; try congruence.
  - unfold domContentLoaded, setupEventListeners, setupLoadMore, setupGallery,
      setupSmoothScroll, setupLightboxControls, after, andThen.
    cbn. destruct (imageModal (lightboxView st)); cbn; discriminate.
  - unfold domContentLoaded, setupEventListeners, setupLoadMore, setupGallery,
      setupSmoothScroll, setupLightboxControls, after, andThen.
    cbn. destruct (imageModal (lightboxView st)); reflexivity.
  - unfold domContentLoaded, setupEventListeners, setupLoadMore, setupGallery,
      setupSmoothScroll, setupLightboxControls, after, andThen.
    cbn. destruct (imageModal (lightboxView st)); reflexivity.
Qed.

Lemma move_loadMore_click (st : State) :
  load_more_registered st = true ->
  Move ClickLoadMore st (after loadMore_click st).
Proof.
  intros Hs.
  assert (E0 : after loadMore_click st
               = fst (loadCodeProjects false
                        (set_displayedProjectCount (displayed st + projectsPerLoad) st)))
    by (unfold loadMore_click, after; now rewrite andThen_returned).
  rewrite E0.
  destruct (loadCodeProjects_spec false (set_displayedProjectCount (displayed st + projectsPerLoad) st))
    as (_ & G & Ph & _ & _ & _ & E).
  apply move_more;
    [reflexivity | assumption | now rewrite Ph | exact (f_equal displayedProjectCount G)
    | exact (f_equal projectData G) | now rewrite E | reflexivity].
Qed.

Lemma handle_moves (e : Event) (st : State) : Move e st (handle e st).
Proof.
  unfold handle.
  destruct e as [|ok|r|r|r| |i| | |i|i| | | | |key|i ly]; cbn [listener].
  - destruct (in_phase NotStarted st) eqn:Hp; [|apply move_off; [reflexivity|apply off_ret]].
    now apply move_domContentLoaded, in_phase_eq.
  - destruct (in_phase Fetching st) eqn:Hp; [|apply move_off; [reflexivity|apply off_ret]].
    apply in_phase_eq in Hp.
    apply move_loading; destruct ok; unfold displayed; cbn; congruence.
  - destruct (in_phase ParsingArt st) eqn:Hp; [|apply move_off; [reflexivity|apply off_ret]].
    apply in_phase_eq in Hp.
    apply move_loading; destruct r; unfold displayed; cbn; congruence.
  - destruct (in_phase ParsingProjects st) eqn:Hp; [|apply move_off; [reflexivity|apply off_ret]].
    apply in_phase_eq in Hp.
    apply move_loading; destruct r; unfold displayed; cbn; congruence.
  - destruct (in_phase ParsingLinks st) eqn:Hp; [|apply move_off; [reflexivity|apply off_ret]].
    apply in_phase_eq in Hp.
    destruct r as [links|]; [|apply move_loading; unfold displayed; cbn; congruence].
    destruct (resume_links_spec links st) as (R & Ph & G & A & P).
    unfold after, try_catch.
    destruct (resume_links (Some links) st) as [st' o]; cbn [fst snd] in *; subst o.
    cbn [fst]. apply move_loaded; try assumption. congruence.
  - fold (load_more_registered st).
    destruct (load_more_registered st) eqn:Hs; [|apply move_off; [exact Hs|apply off_ret]].
    now apply move_loadMore_click.
  - destruct (codeGrid (projectsView st)) as [cards|]; [|apply move_off; [reflexivity|apply off_ret]].
    destruct (nth_error cards i); apply move_off; try reflexivity; [apply off_card_click|apply off_ret].
  - destruct (_ && _); apply move_off; try reflexivity; [apply off_viewAll_click|apply off_ret].
  - destruct (_ && _); apply move_off; try reflexivity; [apply off_galleryClose_click|apply off_ret].
  - destruct (fullGalleryGrid (galleryView st)) as [items|]; [|apply move_off; [reflexivity|apply off_ret]].
    destruct (nth_error items i); apply move_off; try reflexivity; [apply off_openLightbox|apply off_ret].
  - destruct (thumbnailStrip (lightboxView st)) as [thumbs|]; [|apply move_off; [reflexivity|apply off_ret]].
    destruct (nth_error thumbs i); apply move_off; try reflexivity; [apply off_thumbnail_click|apply off_ret].
  - destruct (_ && _); apply move_off; try reflexivity; [apply off_closeLightbox|apply off_ret].
  - destruct (_ && _); apply move_off; try reflexivity; [apply off_nextImage|apply off_ret].
  - destruct (_ && _); apply move_off; try reflexivity; [apply off_prevImage|apply off_ret].
  - destruct (_ && _); apply move_off; try reflexivity; [apply off_closeLightbox|apply off_ret].
  - destruct (_ && _); apply move_off; try reflexivity; [apply off_keydown|apply off_ret].
  - destruct (nth_error (anchors (pageView st)) i) as [a|]; [|apply move_off; [reflexivity|apply off_ret]].
    destruct (smooth a); apply move_off; try reflexivity; [apply off_anchor_click|apply off_ret].
Qed.

(** ** The pagination invariant *)

Lemma pagination_eq (st st' : State) :
  pagination st' = pagination st ->
  displayed st' = displayed st /\ projectData (globals st') = projectData (globals st) /\
  projectsView st' = projectsView st /\ phase st' = phase st /\
  activations (effects st') = activations (effects st).
Proof. unfold pagination, displayed. intros H. injection H. auto. Qed.

Lemma rendered_initial (dc : Z) (all : list Project) (grid0 : list Card) :
  rendered true dc all grid0 = map project_card (slice0 all dc).
Proof. reflexivity. Qed.

Lemma rendered_next_page (dc : Z) (all : list Project) :
  0 <= dc ->
  rendered false (dc + projectsPerLoad) all (map project_card (slice0 all dc))
  = map project_card (slice0 all (dc + projectsPerLoad)).
Proof.
  intros H. unfold rendered. rewrite <- map_app.
  replace (dc + projectsPerLoad - projectsPerLoad) with dc by lia.
  now rewrite slice0_next_page.
Qed.

Lemma paginated_move (e : Event) (st st' : State) :
  Move e st st' -> paginated st -> paginated st'.
Proof.
  intros M [Hc Hl]. unfold paginated, all_projects in *.
  destruct M as [_ Hp | Hn Hn' Hd Ha | Hn Hl' Hg Ha Hv | _ _ Hph Hd Hpd Ha Hv].
  - apply pagination_eq in Hp. destruct Hp as (Hd & Hpd & Hv & Hph & Ha).
    rewrite Hd, Hpd, Hv, Hph, Ha. auto.
  - split; [congruence|]. intros H. contradiction.
  - split; [unfold displayed in *; congruence|]. intros _ cards Hcards.
    destruct (loadCodeProjects_spec true st) as (_ & _ & _ & _ & _ & P & _).
    rewrite Hv, P in *. unfold displayed. rewrite Hg.
    destruct (codeGrid (projectsView st)) as [grid0|] eqn:Hgrid.
    + cbn [codeGrid loadMoreProjects] in *. injection Hcards as <-.
      split; [apply rendered_initial|].
      intros d Hd. destruct (loadMoreProjects (projectsView st)); [|discriminate].
      now injection Hd as <-.
    + congruence.
  - assert (H0 : 0 <= displayed st) by (pose proof (activations_nonneg (effects st)); lia).
    split; [unfold projectsPerLoad in Hd; lia|]. intros Hph' cards Hcards.
    rewrite Hph in Hph'. specialize (Hl Hph').
    destruct (loadCodeProjects_spec false
                (set_displayedProjectCount (displayed st + projectsPerLoad) st))
      as (_ & _ & _ & _ & _ & P & _).
    rewrite Hv, P in *. rewrite Hd, Hpd.
    change (projectsView (set_displayedProjectCount (displayed st + projectsPerLoad) st))
      with (projectsView st) in *.
    change (globals (set_displayedProjectCount (displayed st + projectsPerLoad) st))
      with (mkGlobals (artData (globals st)) (projectData (globals st))
                      (displayed st + projectsPerLoad)
                      (currentLightboxIndex (globals st)) (currentLightboxSource (globals st))) in *.
    cbn [displayedProjectCount projectData] in *.
    destruct (codeGrid (projectsView st)) as [grid0|] eqn:Hgrid; [|congruence].
    destruct (Hl grid0 eq_refl) as [-> Hb].
    cbn [codeGrid loadMoreProjects] in *. injection Hcards as <-.
    split; [now apply rendered_next_page|].
    intros d Hd'. destruct (loadMoreProjects (projectsView st)); [|discriminate].
    now injection Hd' as <-.
Qed.

Lemma paginated_initial (st : State) : is_initial st -> paginated st.
Proof.
  intros (Hg & Hp & He & _). unfold paginated, displayed. rewrite Hg, Hp, He.
  split; [reflexivity|discriminate].
Qed.

Lemma paginated_reachable (st : State) : reachable st -> paginated st.
Proof.
  induction 1 as [st Hi|st e _ IH]; [now apply paginated_initial|].
  exact (paginated_move e _ _ (handle_moves e st) IH).
Qed.

Lemma paginated_run_events (es : list Event) (st : State) :
  paginated st -> paginated (run_events es st).
Proof.
  revert st. induction es as [|e es IH]; intros st H; [exact H|].
  cbn. apply IH. exact (paginated_move e _ _ (handle_moves e st) H).
Qed.

Lemma reachable_run_events (es : list Event) (st : State) :
  reachable st -> reachable (run_events es st).
Proof.
  revert st. induction es as [|e es IH]; intros st H; [exact H|].
  cbn. apply IH. now constructor.
Qed.

(** No event makes the counter smaller; an activation adds a page to it. *)
Lemma displayed_step (e : Event) (st : State) :
  displayed (handle e st) = displayed st \/
  displayed (handle e st) = displayed st + projectsPerLoad.
Proof.
  destruct (handle_moves e st) as [_ Hp | _ _ Hd _ | _ _ Hg _ _ | _ _ _ Hd _ _ _].
  - apply pagination_eq in Hp. left. apply Hp.
  - now left.
  - left. unfold displayed. now rewrite Hg.
  - now right.
Qed.

Lemma displayed_monotone (es : list Event) (st : State) :
  displayed st <= displayed (run_events es st).
Proof.
  revert st. induction es as [|e es IH]; intros st; [cbn; lia|].
  cbn [run_events fold_left]. specialize (IH (handle e st)). unfold run_events in IH.
  destruct (displayed_step e st) as [H|H]; unfold projectsPerLoad in *; lia.
Qed.

(** ** The data load, one [await] at a time *)

Lemma in_phase_refl (st : State) : in_phase (phase st) st = true.
Proof. unfold in_phase. now destruct (phase st). Qed.

Lemma handle_DOMContentLoaded (st : State) :
  phase st = NotStarted ->
  let st' := handle DOMContentLoaded st in
  phase st' = Fetching /\ globals st' = globals st /\ projectsView st' = projectsView st /\
  galleryView st' = galleryView st /\ lightboxView st' = lightboxView st /\
  effects st' = effects st.
Proof.
  intros Hp. unfold handle. cbn [listener].
  rewrite <- Hp, in_phase_refl.
  unfold domContentLoaded, setupEventListeners, setupLoadMore, setupGallery,
    setupSmoothScroll, setupLightboxControls, after, andThen.
  cbn. destruct (imageModal (lightboxView st)); cbn; auto 10.
Qed.

Lemma handle_FetchesSettled (st : State) :
  phase st = Fetching -> handle (FetchesSettled true) st = set_phase ParsingArt st.
Proof. intros Hp. unfold handle. cbn [listener]. now rewrite <- Hp, in_phase_refl. Qed.

Lemma handle_ArtJson (a : ArtCatalog) (st : State) :
  phase st = ParsingArt ->
  handle (ArtJson (Some a)) st = set_phase ParsingProjects (set_artData a st).
Proof. intros Hp. unfold handle. cbn [listener]. now rewrite <- Hp, in_phase_refl. Qed.

Lemma handle_ProjectJson (p : ProjectCatalog) (st : State) :
  phase st = ParsingProjects ->
  handle (ProjectJson (Some p)) st = set_phase ParsingLinks (set_projectData p st).
Proof. intros Hp. unfold handle. cbn [listener]. now rewrite <- Hp, in_phase_refl. Qed.

Lemma handle_LinksJson (l : LinksConfig) (st : State) :
  phase st = ParsingLinks ->
  handle (LinksJson (Some l)) st = fst (resume_links (Some l) st).
Proof.
  intros Hp. unfold handle. cbn [listener]. rewrite <- Hp, in_phase_refl.
  unfold after, try_catch.
  destruct (resume_links_spec l st) as (R & _).
  destruct (resume_links (Some l) st) as [st' o]. cbn [snd] in R. now subst o.
Qed.

Lemma presence_loadCodeProjects (initial : bool) (st : State) :
  let pv' := projectsView (fst (loadCodeProjects initial st)) in
  is_some (codeGrid pv') = is_some (codeGrid (projectsView st)) /\
  is_some (loadMoreProjects pv') = is_some (loadMoreProjects (projectsView st)).
Proof.
  destruct (loadCodeProjects_spec initial st) as (_ & _ & _ & _ & _ & P & _).
  cbn zeta. rewrite P.
  destruct (codeGrid (projectsView st)) eqn:Hg; [|now rewrite Hg].
  cbn. now destruct (loadMoreProjects (projectsView st)).
Qed.

Lemma load_events_spec (a : ArtCatalog) (p : ProjectCatalog) (l : LinksConfig) (st : State) :
  phase st = NotStarted ->
  let st' := run_events (load_events a p l) st in
  phase st' = Loaded /\
  artData (globals st') = a /\
  projectData (globals st') = p /\
  activations (effects st') = activations (effects st) /\
  is_some (codeGrid (projectsView st')) = is_some (codeGrid (projectsView st)) /\
  is_some (loadMoreProjects (projectsView st')) = is_some (loadMoreProjects (projectsView st)).
Proof.
  intros Hp. cbn [run_events load_events fold_left].
  destruct (handle_DOMContentLoaded st Hp) as (P1 & G1 & V1 & _ & _ & E1).
  set (s1 := handle DOMContentLoaded st) in *.
  rewrite (handle_FetchesSettled s1 P1).
  rewrite handle_ArtJson by reflexivity.
  rewrite handle_ProjectJson by reflexivity.
  rewrite handle_LinksJson by reflexivity.
  set (s4 := set_phase ParsingLinks _).
  destruct (resume_links_spec l s4) as (_ & Ph & G & A & V).
  destruct (presence_loadCodeProjects true s4) as (Pg & Pb).
  rewrite Ph, G, A, V, Pg, Pb. subst s4. cbn. rewrite V1, E1. repeat split.
Qed.

(** ** Events after the load *)

Lemma handle_when_loaded (e : Event) (st : State) :
  phase st = Loaded ->
  is_some (loadMoreProjects (projectsView st)) = true ->
  let st' := handle e st in
  phase st' = Loaded /\
  projectData (globals st') = projectData (globals st) /\
  is_some (codeGrid (projectsView st')) = is_some (codeGrid (projectsView st)) /\
  is_some (loadMoreProjects (projectsView st')) = true /\
  activations (effects st') = (if is_load_more e then 1 else 0) + activations (effects st).
Proof.
  intros Hp Hb. cbn zeta.
  assert (Hr : load_more_registered st = true)
    by (unfold load_more_registered, started; now rewrite Hp, Hb).
  destruct (handle_moves e st) as [He Hq | Hn _ _ _ | Hn _ _ _ _ | He _ Hph _ Hpd Ha Hv];
    try contradiction.
  - rewrite Hr, andb_true_r in He. rewrite He.
    apply pagination_eq in Hq. destruct Hq as (_ & Hpd & Hv & Hph & Ha).
    rewrite Hpd, Hv, Hph, Ha. auto.
  - rewrite He, Hph, Hpd, Ha, Hv.
    destruct (presence_loadCodeProjects false
                (set_displayedProjectCount (displayed st + projectsPerLoad) st)) as (Pg & Pb).
    rewrite Pg, Pb. auto.
Qed.

Lemma run_events_when_loaded (es : list Event) :
  forall st,
    phase st = Loaded ->
    is_some (loadMoreProjects (projectsView st)) = true ->
    let st' := run_events es st in
    phase st' = Loaded /\
    projectData (globals st') = projectData (globals st) /\
    is_some (codeGrid (projectsView st')) = is_some (codeGrid (projectsView st)) /\
    is_some (loadMoreProjects (projectsView st')) = true /\
    activations (effects st') = load_more_clicks es + activations (effects st).
Proof.
  induction es as [|e es IH]; intros st Hp Hb; [cbn; auto|].
  destruct (handle_when_loaded e st Hp Hb) as (Hp1 & Hd1 & Hg1 & Hb1 & Ha1).
  destruct (IH (handle e st) Hp1 Hb1) as (Hp2 & Hd2 & Hg2 & Hb2 & Ha2).
  cbn [run_events fold_left] in *. unfold run_events in *.
  rewrite Hp2, Hd2, Hg2, Hb2, Ha2, Hd1, Hg1, Ha1.
  repeat split; try reflexivity.
  destruct e; cbn [is_load_more load_more_clicks]; lia.
Qed.

(** What the invariant says of a loaded page, in the terms of the grid
    and the button. *)
Lemma paginated_loaded (st : State) :
  paginated st ->
  phase st = Loaded ->
  let total := Z.of_nat (length (all_projects st)) in
  displayed st = 6 + 6 * activations (effects st) /\
  forall cards,
    codeGrid (projectsView st) = Some cards ->
    cards = map project_card (firstn (Z.to_nat (Z.min (displayed st) total)) (all_projects st)) /\
    Z.of_nat (length cards) = Z.min (displayed st) total /\
    forall d,
      loadMoreProjects (projectsView st) = Some d ->
      (d = DisplayNone \/ d = DisplayBlock) /\
      (d = DisplayNone <-> Z.of_nat (length cards) = total) /\
      (d = DisplayNone <-> displayed st >= total).
Proof.
  intros [Hc Hl] Hp. cbn zeta. split; [exact Hc|].
  intros cards Hcards. destruct (Hl Hp cards Hcards) as [-> Hbtn].
  assert (H0 : 0 <= displayed st) by (pose proof (activations_nonneg (effects st)); lia).
  assert (Hlen : Z.of_nat (length (map project_card (slice0 (all_projects st) (displayed st))))
                 = Z.min (displayed st) (Z.of_nat (length (all_projects st))))
    by (rewrite length_map; now apply length_slice0).
  split; [now rewrite slice0_min|]. split; [exact Hlen|].
  intros d Hd. rewrite Hlen, (Hbtn d Hd). unfold button_display.
  destruct (Z.geb_spec (displayed st) (Z.of_nat (length (all_projects st)))).
  - repeat split; auto; lia.
  - repeat split; auto; try discriminate; lia.
Qed.

(** After start-up and a successful load, the activations are the clicks on
    the button. *)
Lemma load_then_events (grid0 : list Card) (d0 : Display) (gv : GalleryView) (lv : LightboxView)
      (page : PageView) (a : ArtCatalog) (p : ProjectCatalog) (l : LinksConfig) (es : list Event) :
  let st := run_events (load_events a p l ++ es)
                       (initial_state (mkProjectsView (Some grid0) (Some d0)) gv lv page) in
  paginated st /\ phase st = Loaded /\ projectData (globals st) = p /\
  activations (effects st) = load_more_clicks es /\
  is_some (codeGrid (projectsView st)) = true /\
  is_some (loadMoreProjects (projectsView st)) = true.
Proof.
  cbn zeta.
  set (init := initial_state (mkProjectsView (Some grid0) (Some d0)) gv lv page).
  assert (Hi : paginated init) by (split; [reflexivity|discriminate]).
  unfold run_events. rewrite fold_left_app.
  fold (run_events (load_events a p l) init).
  destruct (load_events_spec a p l init eq_refl) as (Hp & _ & Hd & Ha & Hg & Hb).
  set (s0 := run_events (load_events a p l) init) in *.
  fold (run_events es s0).
  destruct (run_events_when_loaded es s0 Hp Hb) as (Hp' & Hd' & Hg' & Hb' & Ha').
  change (activations (effects init)) with 0 in Ha.
  split; [exact (paginated_run_events es s0 (paginated_run_events _ init Hi))|].
  split; [exact Hp'|]. split; [now rewrite Hd'|].
  split; [rewrite Ha', Ha; lia|]. split; [now rewrite Hg', Hg|exact Hb'].
Qed.

(** C2. In every state the page can reach in which the data is loaded, the
    counter is 6 plus 6 per "load more" activation, the grid holds the cards
    of the first min(counter, total) projects, and the button is hidden
    exactly when all projects are shown, that is exactly when
    counter >= total, and is shown otherwise.  In particular, on a page that
    has the grid and the button: after start-up and a successful load of a
    catalog followed by any events, N of them clicks on the button, the
    counter is 6 + 6N, with the grid and the button as just said. *)
Theorem load_more_pagination :
  (forall st : State,
      reachable st ->
      phase st = Loaded ->
      let total := Z.of_nat (length (projects (projectData (globals st)))) in
      displayedProjectCount (globals st) = 6 + 6 * activations (effects st) /\
      forall cards,
        codeGrid (projectsView st) = Some cards ->
        cards = map project_card
                    (firstn (Z.to_nat (Z.min (displayedProjectCount (globals st)) total))
                            (projects (projectData (globals st)))) /\
        Z.of_nat (length cards) = Z.min (displayedProjectCount (globals st)) total /\
        forall d,
          loadMoreProjects (projectsView st) = Some d ->
          (d = DisplayNone \/ d = DisplayBlock) /\
          (d = DisplayNone <-> Z.of_nat (length cards) = total) /\
          (d = DisplayNone <-> displayedProjectCount (globals st) >= total)) /\
  (forall (grid0 : list Card) (d0 : Display) (gv : GalleryView) (lv : LightboxView)
          (page : PageView) (a : ArtCatalog) (p : ProjectCatalog) (l : LinksConfig)
          (es : list Event),
      let st := run_events (load_events a p l ++ es)
                           (initial_state (mkProjectsView (Some grid0) (Some d0)) gv lv page) in
      let N := load_more_clicks es in
      let total := Z.of_nat (length (projects p)) in
      displayedProjectCount (globals st) = 6 + 6 * N /\
      exists (cards : list Card) (d : Display),
        codeGrid (projectsView st) = Some cards /\
        loadMoreProjects (projectsView st) = Some d /\
        cards = map project_card
                    (firstn (Z.to_nat (Z.min (displayedProjectCount (globals st)) total))
                            (projects p)) /\
        Z.of_nat (length cards) = Z.min (displayedProjectCount (globals st)) total /\
        (d = DisplayNone \/ d = DisplayBlock) /\
        (d = DisplayNone <-> Z.of_nat (length cards) = total) /\
        (d = DisplayNone <-> displayedProjectCount (globals st) >= total)).
Proof.
  split.
  - intros st Hr Hp. exact (paginated_loaded st (paginated_reachable st Hr) Hp).
  - intros grid0 d0 gv lv page a p l es. cbn zeta.
    destruct (load_then_events grid0 d0 gv lv page a p l es) as (Hi & Hp & Hd & Ha & Hg & Hb).
    set (st := run_events _ _) in *.
    destruct (paginated_loaded st Hi Hp) as (Hc & Hcards).
    unfold displayed, all_projects in *. rewrite Hd, Ha in *.
    split; [exact Hc|].
    destruct (codeGrid (projectsView st)) as [cards|]; [|discriminate Hg].
    destruct (loadMoreProjects (projectsView st)) as [d|]; [|discriminate Hb].
    destruct (Hcards cards eq_refl) as (H1 & H2 & H3).
    destruct (H3 d eq_refl) as (H4 & H5 & H6).
    exists cards, d. auto 10.
Qed.

Lemma sample_more_reachable : reachable sample_more.
Proof.
  unfold sample_more, sample_loaded.
  apply reachable_run_events, reachable_run_events, reach_init.
  repeat split. repeat constructor.
Qed.

Lemma load_more_pagination_witness :
  displayedProjectCount (globals sample_more) = 6 + 6 * activations (effects sample_more) /\
  forall cards,
    codeGrid (projectsView sample_more) = Some cards ->
    Z.of_nat (length cards)
    = Z.min (displayedProjectCount (globals sample_more))
            (Z.of_nat (length (projects (projectData (globals sample_more))))).
Proof.
  destruct load_more_pagination as (H & _).
  destruct (H sample_more sample_more_reachable) as (Hc & Hcards); [vm_compute; reflexivity|].
  split; [exact Hc|]. intros cards Hg. now destruct (Hcards cards Hg) as (_ & Hlen & _).
Defined.

Lemma cards_between_nth (lo hi : nat) (all : list Project) (k : nat) :
  nth_error (cards_between lo hi all) k
  = if (lo + k <? hi)%nat then option_map project_card (nth_error all (lo + k)) else None.
Proof.
  unfold cards_between.
  rewrite nth_error_map, nth_error_skipn, nth_error_firstn.
  now destruct (lo + k <? hi)%nat.
Qed.

(** C3. With the counter at 6 or more: an incremental call keeps the cards
    that are there and appends the cards of exactly the projects at
    positions [counter - 6 <= index < min(counter, total)]; a full reset
    leaves exactly the cards of the projects at positions
    [0 <= index < min(counter, total)]; and at the initial counter 6 the
    append test admits every position shown, so both calls render the same
    cards. *)
Theorem loadCodeProjects_append_and_reset :
  forall (st : State) (grid0 : list Card),
    codeGrid (projectsView st) = Some grid0 ->
    6 <= displayedProjectCount (globals st) ->
    let count := displayedProjectCount (globals st) in
    let all := projects (projectData (globals st)) in
    let shown := Z.to_nat (Z.min count (Z.of_nat (length all))) in
    let lo := Z.to_nat (count - projectsPerLoad) in
    codeGrid (projectsView (after (loadCodeProjects false) st))
      = Some (grid0 ++ cards_between lo shown all) /\
    codeGrid (projectsView (after (loadCodeProjects true) st))
      = Some (cards_between 0 shown all) /\
    (forall k, nth_error (cards_between lo shown all) k
               = if (lo + k <? shown)%nat
                 then option_map project_card (nth_error all (lo + k)) else None) /\
    (count = 6 ->
     (forall index, (index < shown)%nat -> card_wanted false count index = true) /\
     cards_between lo shown all = cards_between 0 shown all).
Proof.
  intros st grid0 Hg H6. cbn zeta. unfold after.
  destruct (loadCodeProjects_spec false st) as (_ & _ & _ & _ & _ & Pf & _).
  destruct (loadCodeProjects_spec true st) as (_ & _ & _ & _ & _ & Pt & _).
  rewrite Pf, Pt, Hg. cbn [codeGrid]. unfold rendered, cards_between.
  rewrite (slice0_min (projects (projectData (globals st)))) by lia.
  split; [reflexivity|]. split; [reflexivity|]. split.
  - intros k. apply cards_between_nth.
  - intros H. split.
    + intros index _. unfold card_wanted, projectsPerLoad. cbn [orb].
      apply Z.geb_le. lia.
    + rewrite H. reflexivity.
Qed.

Lemma loadCodeProjects_append_and_reset_witness :
  codeGrid (projectsView (after (loadCodeProjects false) sample_loaded))
    = Some (map project_card (firstn 6 (projects sample_projectData))
            ++ cards_between 0 6 (projects sample_projectData)) /\
  codeGrid (projectsView (after (loadCodeProjects true) sample_loaded))
    = Some (cards_between 0 6 (projects sample_projectData)).
Proof.
  destruct (loadCodeProjects_append_and_reset sample_loaded
              (map project_card (firstn 6 (projects sample_projectData))))
    as (Hf & Ht & _).
  - reflexivity.
  - vm_compute. discriminate.
  - split; [exact Hf|exact Ht].
Defined.




(** ** Gallery and lightbox *)

Lemma nth_error_indexed_from {A : Type} (l : list A) :
  forall i k, nth_error (indexed_from i l) k = option_map (pair (i + k)%nat) (nth_error l k).
Proof.
  induction l as [|x l IH]; intros i k; [now destruct k|].
  destruct k as [|k]; cbn [indexed_from nth_error option_map].
  - now rewrite Nat.add_0_r.
  - rewrite IH. now rewrite Nat.add_succ_r.
Qed.

Lemma length_indexed_from {A : Type} (l : list A) :
  forall i, length (indexed_from i l) = length l.
Proof. induction l as [|x l IH]; intros i; cbn; [reflexivity|now rewrite IH]. Qed.

(** The [forEach] of the gallery listener in closed form. *)
Lemma forEach_gallery (allArt : list ArtItem) (l : list (nat * ArtItem)) :
  forall grid,
    fold_left (fun grid '(index, art) => grid ++ [gallery_item allArt index art]) l grid
    = grid ++ map (fun '(index, art) => gallery_item allArt index art) l.
Proof.
  induction l as [|[i a] l IH]; intros grid; cbn [fold_left map].
  - now rewrite app_nil_r.
  - now rewrite IH, <- app_assoc.
Qed.

Lemma gallery_of_nth (allArt : list ArtItem) (i : nat) :
  nth_error (gallery_of allArt) i = option_map (gallery_item allArt i) (nth_error allArt i).
Proof.
  unfold gallery_of, indexed. rewrite nth_error_map, nth_error_indexed_from.
  now destruct (nth_error allArt i).
Qed.

Lemma viewAll_click_spec (st : State) (grid0 : list GalleryItem) (cl : ClassList) :
  fullGalleryGrid (galleryView st) = Some grid0 ->
  galleryModal (galleryView st) = Some cl ->
  let allArt := heroImages (artData (globals st)) ++ artworks (artData (globals st)) in
  viewAll_click st =
    (set_bodyOverflow OverflowHidden
       (set_galleryModal show_modal (set_fullGalleryGrid (gallery_of allArt) st)), Returned).
Proof.
  intros Hg Hm. cbn zeta. unfold viewAll_click. rewrite Hg.
  rewrite forEach_gallery. cbn [app].
  cbn [set_fullGalleryGrid set_galleryView galleryView galleryModal]. now rewrite Hm.
Qed.

Lemma scroll_marks_frame (current : jsnum) (l : list (nat * Thumb)) :
  forall st,
    let st' := fold_left (fun s '(idx, _) =>
                            if js_index_eqb idx current then log (ScrollIntoView idx) s else s)
                         l st in
    globals st' = globals st /\ lightboxView st' = lightboxView st /\
    galleryView st' = galleryView st /\ pageView st' = pageView st.
Proof.
  induction l as [|[idx t] l IH]; intros st; [repeat split|].
  cbn [fold_left]. 
  destruct (IH (if js_index_eqb idx current then log (ScrollIntoView idx) st else st))
    as (G & L & V & P).
  cbn zeta. rewrite G, L, V, P. now destruct (js_index_eqb idx current).
Qed.

(** [updateLightboxContent] writes the image and the marks, nothing else;
    it throws exactly when there is no current item or no image element. *)
Lemma updateLightboxContent_spec (st : State) :
  let st' := fst (updateLightboxContent st) in
  globals st' = globals st /\
  galleryView st' = galleryView st /\
  pageView st' = pageView st /\
  imageModal (lightboxView st') = imageModal (lightboxView st) /\
  modalClose (lightboxView st') = modalClose (lightboxView st) /\
  modalNext (lightboxView st') = modalNext (lightboxView st) /\
  modalPrev (lightboxView st') = modalPrev (lightboxView st) /\
  is_some (modalImg (lightboxView st')) = is_some (modalImg (lightboxView st)) /\
  (forall item,
      js_get (currentLightboxSource (globals st)) (currentLightboxIndex (globals st)) = Some item ->
      is_some (modalImg (lightboxView st)) = true ->
      snd (updateLightboxContent st) = Returned /\
      modalImg (lightboxView st') = Some (mkImg (art_image item) (art_title item))).
Proof.
  unfold updateLightboxContent.
  destruct (js_get _ _) as [item|]; [|cbn; repeat split; discriminate].
  destruct (modalImg (lightboxView st)) as [img0|] eqn:Hi;
    [|cbn; rewrite Hi; repeat split; discriminate].
  cbn [set_modalImg set_lightboxView lightboxView thumbnailStrip].
  destruct (thumbnailStrip (lightboxView st)) as [thumbs|] eqn:Ht.
  - unfold ret. cbn [fst snd].
    match goal with
    | |- context [fold_left ?f ?l ?s] =>
        destruct (scroll_marks_frame (currentLightboxIndex (globals st)) l s) as (G & L & V & P)
    end.
    cbn zeta in *. rewrite G, L, V, P. cbn. repeat split; congruence.
  - cbn. repeat split; congruence.
Qed.

Lemma js_get_in_range {A : Type} (l : list A) (i : Z) :
  0 <= i < Z.of_nat (length l) -> exists x, js_get l (Num i) = Some x.
Proof.
  intros H. unfold js_get. destruct (Z.ltb_spec i 0); [lia|].
  destruct (nth_error l (Z.to_nat i)) as [x|] eqn:E; [now exists x|].
  apply nth_error_None in E. lia.
Qed.

(** Moving the index and redrawing, the common tail of [nextImage],
    [prevImage] and the thumbnail listener. *)
Lemma redraw_at (j : Z) (st : State) :
  0 <= j < Z.of_nat (length (currentLightboxSource (globals st))) ->
  let r := updateLightboxContent (set_currentLightboxIndex (Num j) st) in
  currentLightboxIndex (globals (fst r)) = Num j /\
  currentLightboxSource (globals (fst r)) = currentLightboxSource (globals st) /\
  imageModal (lightboxView (fst r)) = imageModal (lightboxView st) /\
  is_some (modalImg (lightboxView (fst r))) = is_some (modalImg (lightboxView st)) /\
  (is_some (modalImg (lightboxView st)) = true -> snd r = Returned).
Proof.
  intros Hj. cbn zeta.
  destruct (updateLightboxContent_spec (set_currentLightboxIndex (Num j) st))
    as (G & _ & _ & M & _ & _ & _ & I & R).
  rewrite G, M, I. repeat split.
  intros Hi. destruct (js_get_in_range (currentLightboxSource (globals st)) j Hj) as [item Hitem].
  now destruct (R item Hitem Hi).
Qed.

Lemma nextImage_unfold (e : bool) (st : State) (i : Z) :
  currentLightboxIndex (globals st) = Num i ->
  0 <= i < Z.of_nat (length (currentLightboxSource (globals st))) ->
  let L := Z.of_nat (length (currentLightboxSource (globals st))) in
  let s := if e then log StopPropagation st else st in
  nextImage e st = updateLightboxContent (set_currentLightboxIndex (Num ((i + 1) mod L)) s).
Proof.
  intros Hi Hr. cbn zeta. unfold nextImage.
  rewrite andThen_returned by (now destruct e).
  rewrite andThen_returned by reflexivity.
  cbn [lift fst].
  assert (E : forall s, globals s = globals st ->
                js_rem (js_add (currentLightboxIndex (globals s)) (Num 1)) (source_length s)
                = Num ((i + 1) mod Z.of_nat (length (currentLightboxSource (globals st))))).
  { intros s Hs. unfold source_length. rewrite Hs, Hi. cbn [js_add js_rem].
    destruct (Z.eqb_spec (Z.of_nat (length (currentLightboxSource (globals st)))) 0); [lia|].
    now rewrite Z.rem_mod_nonneg by lia. }
  destruct e; cbn [lift fst]; now rewrite E.
Qed.

Lemma prevImage_unfold (e : bool) (st : State) (i : Z) :
  currentLightboxIndex (globals st) = Num i ->
  0 <= i < Z.of_nat (length (currentLightboxSource (globals st))) ->
  let L := Z.of_nat (length (currentLightboxSource (globals st))) in
  let s := if e then log StopPropagation st else st in
  prevImage e st = updateLightboxContent (set_currentLightboxIndex (Num ((i - 1 + L) mod L)) s).
Proof.
  intros Hi Hr. cbn zeta. unfold prevImage.
  rewrite andThen_returned by (now destruct e).
  rewrite andThen_returned by reflexivity.
  cbn [lift fst].
  assert (E : forall s, globals s = globals st ->
                js_rem (js_add (js_sub (currentLightboxIndex (globals s)) (Num 1)) (source_length s))
                       (source_length s)
                = Num ((i - 1 + Z.of_nat (length (currentLightboxSource (globals st))))
                       mod Z.of_nat (length (currentLightboxSource (globals st))))).
  { intros s Hs. unfold source_length. rewrite Hs, Hi. cbn [js_add js_sub js_rem].
    destruct (Z.eqb_spec (Z.of_nat (length (currentLightboxSource (globals st)))) 0); [lia|].
    now rewrite Z.rem_mod_nonneg by lia. }
  destruct e; cbn [lift fst]; now rewrite E.
Qed.

Lemma generateThumbnails_spec (st : State) :
  let st' := fst (generateThumbnails st) in
  globals st' = globals st /\
  imageModal (lightboxView st') = imageModal (lightboxView st).
Proof.
  unfold generateThumbnails. destruct (thumbnailStrip (lightboxView st)); now cbn.
Qed.

(** [openLightbox] stores its arguments before anything can throw, and
    shows the modal when the page has one. *)
Lemma openLightbox_spec (src : list ArtItem) (j : jsnum) (st : State) :
  let st' := after (openLightbox src j) st in
  currentLightboxSource (globals st') = src /\
  currentLightboxIndex (globals st') = j /\
  (is_some (imageModal (lightboxView st)) = true -> lightbox_open st' = true).
Proof.
  cbn zeta. unfold openLightbox, after.
  rewrite andThen_returned by reflexivity.
  rewrite andThen_returned by reflexivity.
  cbn [lift fst].
  set (s2 := set_currentLightboxIndex j (set_currentLightboxSource src st)).
  assert (G2 : currentLightboxSource (globals s2) = src /\ currentLightboxIndex (globals s2) = j)
    by (now split).
  assert (M2 : imageModal (lightboxView s2) = imageModal (lightboxView st)) by reflexivity.
  unfold andThen, lightbox_open. cbn beta. rewrite M2.
  destruct (imageModal (lightboxView st)) as [cl|]; [|cbn; repeat split; discriminate].
  cbn [ret].
  set (s3 := set_bodyOverflow OverflowHidden (set_imageModal show_modal s2)).
  destruct (updateLightboxContent_spec s3) as (G3 & _ & _ & M3 & _).
  destruct (generateThumbnails_spec (fst (updateLightboxContent s3))) as (G4 & M4).
  destruct (updateLightboxContent s3) as [s4 []]; cbn [fst snd] in *.
  - rewrite G4, G3, M4, M3. now cbn.
  - rewrite G3, M3. now cbn.
Qed.

(** C5. Whenever the gallery is opened (on a page that has its button,
    modal and grid), the grid is rebuilt from the catalog as it then is:
    one thumbnail block per item of [heroImages] followed by [artworks], in
    that order, so as many blocks as both lists have items together; and a
    click on the block at position [i] opens the lightbox on that same
    sequence at index [i]. *)
Theorem gallery_is_hero_then_artworks :
  forall st : State,
    started st = true ->
    viewAllArt (galleryView st) = true ->
    is_some (galleryModal (galleryView st)) = true ->
    is_some (fullGalleryGrid (galleryView st)) = true ->
    let allArt := heroImages (artData (globals st)) ++ artworks (artData (globals st)) in
    let st' := handle ClickViewAll st in
    exists items : list GalleryItem,
      fullGalleryGrid (galleryView st') = Some items /\
      length items
      = (length (heroImages (artData (globals st))) + length (artworks (artData (globals st))))%nat /\
      map item_innerHTML items = map img_template allArt /\
      (forall i, nth_error items i = option_map (gallery_item allArt i) (nth_error allArt i)) /\
      (forall i it,
          nth_error items i = Some it ->
          let st'' := handle (ClickGalleryItem i) st' in
          currentLightboxSource (globals st'') = allArt /\
          currentLightboxIndex (globals st'') = Num (Z.of_nat i) /\
          (is_some (imageModal (lightboxView st)) = true -> lightbox_open st'' = true)).
Proof.
  intros st Hs Hb Hm Hg. cbn zeta.
  destruct (galleryModal (galleryView st)) as [cl|] eqn:Em; [|discriminate].
  destruct (fullGalleryGrid (galleryView st)) as [grid0|] eqn:Eg; [|discriminate].
  assert (E : handle ClickViewAll st
              = set_bodyOverflow OverflowHidden
                  (set_galleryModal show_modal
                     (set_fullGalleryGrid
                        (gallery_of (heroImages (artData (globals st))
                                     ++ artworks (artData (globals st)))) st))).
  { unfold handle. cbn [listener]. rewrite Hs, Hb, Em. cbn [is_some andb].
    unfold after. now rewrite (viewAll_click_spec st grid0 cl Eg Em). }
  rewrite E.
  set (allArt := heroImages (artData (globals st)) ++ artworks (artData (globals st))).
  exists (gallery_of allArt).
  split; [reflexivity|].
  split; [unfold gallery_of, indexed;
          now rewrite length_map, length_indexed_from; unfold allArt; rewrite length_app|].
  split.
  { apply nth_error_ext. intros i.
    rewrite !nth_error_map, gallery_of_nth. now destruct (nth_error allArt i). }
  split; [apply gallery_of_nth|].
  intros i it Hit. cbn zeta.
  set (opened := set_bodyOverflow OverflowHidden
                   (set_galleryModal show_modal (set_fullGalleryGrid (gallery_of allArt) st))).
  assert (Ec : handle (ClickGalleryItem i) opened
               = after (openLightbox allArt (Num (Z.of_nat i))) opened).
  { unfold handle. cbn [listener].
    change (fullGalleryGrid (galleryView opened)) with (Some (gallery_of allArt)).
    cbv beta iota.
    rewrite Hit. unfold galleryItem_click.
    rewrite gallery_of_nth in Hit.
    destruct (nth_error allArt i) as [art|]; [|discriminate].
    now injection Hit as <-. }
  rewrite Ec.
  destruct (openLightbox_spec allArt (Num (Z.of_nat i)) opened) as (Hsrc & Hidx & Hopen).
  split; [exact Hsrc|]. split; [exact Hidx|]. intros Hi. apply Hopen. exact Hi.
Qed.

Lemma gallery_is_hero_then_artworks_witness :
  exists items : list GalleryItem,
    fullGalleryGrid (galleryView (handle ClickViewAll sample_loaded)) = Some items /\
    length items = 5%nat /\
    currentLightboxIndex
      (globals (handle (ClickGalleryItem 3) (handle ClickViewAll sample_loaded))) = Num 3.
Proof.
  destruct (gallery_is_hero_then_artworks sample_loaded)
    as (items & Hitems & Hlen & _ & Hnth & Hclick); try reflexivity.
  exists items. split; [exact Hitems|]. split; [exact Hlen|].
  destruct (Hclick 3%nat (gallery_item (heroImages sample_artData ++ artworks sample_artData)
                                       3 (sample_art "D")))
    as (_ & Hidx & _); [rewrite Hnth; reflexivity|exact Hidx].
Defined.

(** *** Next and previous *)

Lemma nextImage_spec (e : bool) (st : State) (i : Z) :
  currentLightboxIndex (globals st) = Num i ->
  0 <= i < Z.of_nat (length (currentLightboxSource (globals st))) ->
  let L := Z.of_nat (length (currentLightboxSource (globals st))) in
  currentLightboxIndex (globals (after (nextImage e) st)) = Num ((i + 1) mod L) /\
  currentLightboxSource (globals (after (nextImage e) st)) = currentLightboxSource (globals st) /\
  is_some (modalImg (lightboxView (after (nextImage e) st)))
  = is_some (modalImg (lightboxView st)) /\
  (is_some (modalImg (lightboxView st)) = true -> snd (nextImage e st) = Returned).
Proof.
  intros Hi Hr. cbn zeta. unfold after. rewrite (nextImage_unfold e st i Hi Hr).
  set (L := Z.of_nat (length (currentLightboxSource (globals st)))) in *.
  assert (Hj : 0 <= (i + 1) mod L < L) by (apply Z.mod_pos_bound; lia).
  destruct e.
  - destruct (redraw_at ((i + 1) mod L) (log StopPropagation st) Hj) as (A & B & _ & C & D).
    auto.
  - destruct (redraw_at ((i + 1) mod L) st Hj) as (A & B & _ & C & D). auto.
Qed.

Lemma prevImage_spec (e : bool) (st : State) (i : Z) :
  currentLightboxIndex (globals st) = Num i ->
  0 <= i < Z.of_nat (length (currentLightboxSource (globals st))) ->
  let L := Z.of_nat (length (currentLightboxSource (globals st))) in
  currentLightboxIndex (globals (after (prevImage e) st)) = Num ((i - 1 + L) mod L) /\
  currentLightboxSource (globals (after (prevImage e) st)) = currentLightboxSource (globals st) /\
  is_some (modalImg (lightboxView (after (prevImage e) st)))
  = is_some (modalImg (lightboxView st)) /\
  (is_some (modalImg (lightboxView st)) = true -> snd (prevImage e st) = Returned).
Proof.
  intros Hi Hr. cbn zeta. unfold after. rewrite (prevImage_unfold e st i Hi Hr).
  set (L := Z.of_nat (length (currentLightboxSource (globals st)))) in *.
  assert (Hj : 0 <= (i - 1 + L) mod L < L) by (apply Z.mod_pos_bound; lia).
  destruct e.
  - destruct (redraw_at ((i - 1 + L) mod L) (log StopPropagation st) Hj) as (A & B & _ & C & D).
    auto.
  - destruct (redraw_at ((i - 1 + L) mod L) st Hj) as (A & B & _ & C & D). auto.
Qed.

Lemma nextImage_iter (e : bool) (st : State) (i : Z) (k : nat) :
  currentLightboxIndex (globals st) = Num i ->
  0 <= i < Z.of_nat (length (currentLightboxSource (globals st))) ->
  let L := Z.of_nat (length (currentLightboxSource (globals st))) in
  let st' := Nat.iter k (after (nextImage e)) st in
  currentLightboxIndex (globals st') = Num ((i + Z.of_nat k) mod L) /\
  currentLightboxSource (globals st') = currentLightboxSource (globals st).
Proof.
  intros Hi Hr. cbn zeta. induction k as [|k [IHi IHs]].
  - cbn. rewrite Z.add_0_r, Z.mod_small by lia. auto.
  - rewrite Nat.iter_succ.
    set (L := Z.of_nat (length (currentLightboxSource (globals st)))) in *.
    assert (Hb : 0 <= (i + Z.of_nat k) mod L < L) by (apply Z.mod_pos_bound; lia).
    destruct (nextImage_spec e _ _ IHi) as (A & B & _); [now rewrite IHs|].
    rewrite A, B, IHs. fold L. split; [|reflexivity].
    rewrite Z.add_mod_idemp_l by lia. f_equal. f_equal. lia.
Qed.

Lemma prevImage_iter (e : bool) (st : State) (i : Z) (k : nat) :
  currentLightboxIndex (globals st) = Num i ->
  0 <= i < Z.of_nat (length (currentLightboxSource (globals st))) ->
  let L := Z.of_nat (length (currentLightboxSource (globals st))) in
  let st' := Nat.iter k (after (prevImage e)) st in
  currentLightboxIndex (globals st') = Num ((i - Z.of_nat k) mod L) /\
  currentLightboxSource (globals st') = currentLightboxSource (globals st).
Proof.
  intros Hi Hr. cbn zeta. induction k as [|k [IHi IHs]].
  - cbn. rewrite Z.sub_0_r, Z.mod_small by lia. auto.
  - rewrite Nat.iter_succ.
    set (L := Z.of_nat (length (currentLightboxSource (globals st)))) in *.
    assert (Hb : 0 <= (i - Z.of_nat k) mod L < L) by (apply Z.mod_pos_bound; lia).
    destruct (prevImage_spec e _ _ IHi) as (A & B & _); [now rewrite IHs|].
    rewrite A, B, IHs. fold L. split; [|reflexivity].
    replace ((i - Z.of_nat k) mod L - 1 + L) with ((i - Z.of_nat k) mod L + (-1 + 1 * L)) by lia.
    rewrite Z.add_mod_idemp_l by lia. rewrite Z.add_assoc, Z.mod_add by lia.
    f_equal. f_equal. lia.
Qed.

(** C6. With a source of L >= 1 items and the index i in [0, L): "next"
    sets the index to (i + 1) mod L and "previous" to (i - 1 + L) mod L;
    both stay in [0, L), neither throws, repeating them walks the indices
    cyclically modulo L, and with a single item the index stays 0. *)
Theorem lightbox_index_cycles :
  forall (st : State) (e : bool) (i : Z),
    let L := Z.of_nat (length (currentLightboxSource (globals st))) in
    1 <= L ->
    currentLightboxIndex (globals st) = Num i ->
    0 <= i < L ->
    is_some (modalImg (lightboxView st)) = true ->
    currentLightboxIndex (globals (after (nextImage e) st)) = Num ((i + 1) mod L) /\
    currentLightboxIndex (globals (after (prevImage e) st)) = Num ((i - 1 + L) mod L) /\
    0 <= (i + 1) mod L < L /\
    0 <= (i - 1 + L) mod L < L /\
    snd (nextImage e st) = Returned /\
    snd (prevImage e st) = Returned /\
    (forall k, currentLightboxIndex (globals (Nat.iter k (after (nextImage e)) st))
               = Num ((i + Z.of_nat k) mod L)) /\
    (forall k, currentLightboxIndex (globals (Nat.iter k (after (prevImage e)) st))
               = Num ((i - Z.of_nat k) mod L)) /\
    (L = 1 ->
     forall k, currentLightboxIndex (globals (Nat.iter k (after (nextImage e)) st)) = Num 0 /\
               currentLightboxIndex (globals (Nat.iter k (after (prevImage e)) st)) = Num 0).
Proof.
  intros st e i L HL Hi Hr Hm.
  destruct (nextImage_spec e st i Hi Hr) as (N1 & _ & _ & N2).
  destruct (prevImage_spec e st i Hi Hr) as (P1 & _ & _ & P2).
  fold L in N1, P1.
  repeat split; try apply Z.mod_pos_bound; try lia; auto.
  - intros k. apply (nextImage_iter e st i k Hi Hr).
  - intros k. apply (prevImage_iter e st i k Hi Hr).
  - destruct (nextImage_iter e st i k Hi Hr) as [-> _]. fold L. rewrite H, Z.mod_1_r. reflexivity.
  - destruct (prevImage_iter e st i k Hi Hr) as [-> _]. fold L. rewrite H, Z.mod_1_r. reflexivity.
Qed.

Lemma lightbox_index_cycles_witness :
  currentLightboxIndex (globals (after (nextImage true) sample_lightbox)) = Num 4 /\
  currentLightboxIndex (globals (Nat.iter 2 (after (nextImage true)) sample_lightbox)) = Num 0 /\
  currentLightboxIndex (globals (after (prevImage true) sample_lightbox)) = Num 2.
Proof.
  destruct (lightbox_index_cycles sample_lightbox true 3)
    as (Hn & Hp & _ & _ & _ & _ & Hk & _); try reflexivity.
  - vm_compute. discriminate.
  - vm_compute. split; [discriminate|reflexivity].
  - split; [exact Hn|]. split; [exact (Hk 2%nat)|exact Hp].
Defined.

(** ** Keyboard *)

Lemma after_then_ret (h : Handler) (st : State) : after (h ;; ret) st = after h st.
Proof. unfold after, andThen, ret. now destruct (h st) as [st' []]. Qed.

Lemma after_ret_then (h : Handler) (st : State) : after (ret ;; h) st = after h st.
Proof. reflexivity. Qed.

Lemma keydown_closed (key : jsstring) (st : State) :
  lightbox_open st = false -> handle (KeyDown key) st = st.
Proof.
  intros Hc. unfold handle, lightbox_open in *. cbn [listener].
  destruct (started st); [|reflexivity]. cbn [andb].
  destruct (imageModal (lightboxView st)) as [cl|] eqn:Em; [|reflexivity].
  cbn [is_some]. unfold keydown, after. rewrite Em, Hc. reflexivity.
Qed.

Lemma keydown_open (key : jsstring) (st : State) :
  started st = true -> lightbox_open st = true ->
  handle (KeyDown key) st
  = after ((if jsstring_eqb key (lit "Escape") then closeLightbox else ret) ;;
           (if jsstring_eqb key (lit "ArrowRight") then nextImage false else ret) ;;
           (if jsstring_eqb key (lit "ArrowLeft") then prevImage false else ret)) st.
Proof.
  intros Hs Ho. unfold handle, lightbox_open in *. cbn [listener]. rewrite Hs.
  destruct (imageModal (lightboxView st)) as [cl|] eqn:Em; [|discriminate].
  cbn [is_some andb]. unfold keydown, after. now rewrite Em, Ho.
Qed.

Lemma closeLightbox_closes (st : State) :
  is_some (imageModal (lightboxView st)) = true ->
  closeLightbox st = (set_bodyOverflow OverflowAuto (set_imageModal hide_modal st), Returned) /\
  lightbox_open (after closeLightbox st) = false.
Proof.
  unfold closeLightbox, after. destruct (imageModal (lightboxView st)); [|discriminate].
  intros _. split; reflexivity.
Qed.

(** C7. While the lightbox is closed a key press changes nothing, whatever
    the key; while it is open, Escape closes it, the right arrow runs
    "next" and the left arrow runs "previous", and any other key changes
    nothing. *)
Theorem keyboard_only_while_open :
  forall (st : State) (key : jsstring),
    started st = true ->
    (lightbox_open st = false -> handle (KeyDown key) st = st) /\
    (lightbox_open st = true ->
     handle (KeyDown (lit "Escape")) st = after closeLightbox st /\
     lightbox_open (handle (KeyDown (lit "Escape")) st) = false /\
     handle (KeyDown (lit "ArrowRight")) st = after (nextImage false) st /\
     handle (KeyDown (lit "ArrowLeft")) st = after (prevImage false) st /\
     (jsstring_eqb key (lit "Escape") = false ->
      jsstring_eqb key (lit "ArrowRight") = false ->
      jsstring_eqb key (lit "ArrowLeft") = false ->
      handle (KeyDown key) st = st)).
Proof.
  intros st key Hs. split; [apply keydown_closed|].
  intros Ho.
  assert (Hm : is_some (imageModal (lightboxView st)) = true)
    by (unfold lightbox_open in Ho; destruct (imageModal (lightboxView st)); [reflexivity|discriminate]).
  assert (He : handle (KeyDown (lit "Escape")) st = after closeLightbox st).
  { rewrite keydown_open by assumption.
    change (jsstring_eqb (lit "Escape") (lit "Escape")) with true.
    change (jsstring_eqb (lit "Escape") (lit "ArrowRight")) with false.
    change (jsstring_eqb (lit "Escape") (lit "ArrowLeft")) with false.
    cbv iota. now rewrite !after_then_ret. }
  split; [exact He|]. split; [rewrite He; now apply closeLightbox_closes|].
  split; [|split].
  - rewrite keydown_open by assumption.
    change (jsstring_eqb (lit "ArrowRight") (lit "Escape")) with false.
    change (jsstring_eqb (lit "ArrowRight") (lit "ArrowRight")) with true.
    change (jsstring_eqb (lit "ArrowRight") (lit "ArrowLeft")) with false.
    cbv iota. now rewrite after_ret_then, after_then_ret.
  - rewrite keydown_open by assumption.
    change (jsstring_eqb (lit "ArrowLeft") (lit "Escape")) with false.
    change (jsstring_eqb (lit "ArrowLeft") (lit "ArrowRight")) with false.
    change (jsstring_eqb (lit "ArrowLeft") (lit "ArrowLeft")) with true.
    cbv iota. now rewrite !after_ret_then.
  - intros H1 H2 H3. rewrite keydown_open by assumption. now rewrite H1, H2, H3.
Qed.

Lemma keyboard_only_while_open_witness :
  handle (KeyDown (lit "Escape")) sample_loaded = sample_loaded /\
  handle (KeyDown (lit "ArrowRight")) sample_loaded = sample_loaded /\
  lightbox_open (handle (KeyDown (lit "Escape")) sample_lightbox) = false /\
  handle (KeyDown (lit "ArrowRight")) sample_lightbox = after (nextImage false) sample_lightbox.
Proof.
  destruct (keyboard_only_while_open sample_loaded (lit "Escape")) as (Hc1 & _); [reflexivity|].
  destruct (keyboard_only_while_open sample_loaded (lit "ArrowRight")) as (Hc2 & _); [reflexivity|].
  destruct (keyboard_only_while_open sample_lightbox (lit "Escape")) as (_ & Ho); [reflexivity|].
  destruct Ho as (_ & He & Hr & _); [reflexivity|].
  split; [apply Hc1; reflexivity|]. split; [apply Hc2; reflexivity|].
  split; [exact He|exact Hr].
Defined.

(** ** Smooth scrolling *)

Lemma jsstring_eqb_eq (a b : jsstring) : jsstring_eqb a b = true <-> a = b.
Proof.
  revert b. induction a as [|x a IH]; intros [|y b]; cbn; try (split; congruence).
  rewrite andb_true_iff, N.eqb_eq, IH. split; [intros [-> ->]; reflexivity|].
  intros H. injection H as -> ->. auto.
Qed.

(** C8 (as amended). A click on an in-page link: an href that is absent or
    does not start with [#] is ignored and the default action is left
    alone; for every href that starts with [#] the default action is
    suppressed, whether or not a target exists; [#] alone does nothing
    more; a target that does not resolve does nothing more; a target that
    resolves scrolls smoothly to its offset less the height of the
    navigation bar, 0 without a bar. *)
Theorem anchor_click_cases :
  forall (this : Anchor) (ly : Layout) (st : State),
    (href this = None -> anchor_click this ly st = (st, Returned)) /\
    (forall t, href this = Some t -> startsWith t (lit "#") = false ->
               anchor_click this ly st = (st, Returned)) /\
    (href this = Some (lit "#") ->
     anchor_click this ly st = (log PreventDefault st, Returned)) /\
    (forall t, href this = Some t -> startsWith t (lit "#") = true -> t <> lit "#" ->
               (querySelector ly t = QNull ->
                anchor_click this ly st = (log PreventDefault st, Returned)) /\
               (querySelector ly t = QSyntaxError ->
                anchor_click this ly st = (log PreventDefault st, Threw)) /\
               (forall top, querySelector ly t = QElement top ->
                            anchor_click this ly st
                            = (log (ScrollTo (top - nav_height ly)) (log PreventDefault st),
                               Returned))).
Proof.
  intros this ly st. unfold anchor_click.
  split; [intros ->; reflexivity|].
  split; [intros t -> Hs; rewrite Hs; now destruct t|].
  split; [intros ->; reflexivity|].
  intros t -> Hs Hne. rewrite Hs.
  assert (Ht : match t with [] => true | _ => false end = false) by (destruct t; [discriminate Hs|reflexivity]).
  rewrite Ht. cbn [negb orb].
  destruct (jsstring_eqb t (lit "#")) eqn:E; [apply jsstring_eqb_eq in E; contradiction|].
  split; [intros ->; reflexivity|]. split; [intros ->; reflexivity|].
  intros top ->. unfold nav_height. destruct (navbar ly) as [h|]; [|reflexivity].
  destruct (Z.eqb_spec h 0) as [->|_]; reflexivity.
Qed.

Lemma anchor_click_cases_witness :
  anchor_click (link_to "https://example.org/") full_layout sample_loaded
    = (sample_loaded, Returned) /\
  anchor_click (link_to "#") full_layout sample_loaded
    = (log PreventDefault sample_loaded, Returned) /\
  anchor_click (link_to "#missing") empty_layout sample_loaded
    = (log PreventDefault sample_loaded, Returned) /\
  anchor_click (link_to "#about") full_layout sample_loaded
    = (log (ScrollTo 836) (log PreventDefault sample_loaded), Returned).
Proof.
  destruct (anchor_click_cases (link_to "https://example.org/") full_layout sample_loaded)
    as (_ & H1 & _).
  destruct (anchor_click_cases (link_to "#") full_layout sample_loaded) as (_ & _ & H2 & _).
  destruct (anchor_click_cases (link_to "#missing") empty_layout sample_loaded)
    as (_ & _ & _ & H3).
  destruct (anchor_click_cases (link_to "#about") full_layout sample_loaded)
    as (_ & _ & _ & H4).
  split; [apply (H1 (lit "https://example.org/")); reflexivity|].
  split; [apply H2; reflexivity|].
  split.
  - destruct (H3 (lit "#missing")) as (H & _); [reflexivity|reflexivity|discriminate|].
    apply H. reflexivity.
  - destruct (H4 (lit "#about")) as (_ & _ & H); [reflexivity|reflexivity|discriminate|].
    apply (H 900). reflexivity.
Defined.

(** C8 as stated fails: the default action is suppressed for a target that
    does not exist. *)
Lemma unresolved_target_is_suppressed :
  ~ (forall (this : Anchor) (ly : Layout) (st : State) (t : jsstring),
       href this = Some t ->
       ~ In PreventDefault (effects st) ->
       In PreventDefault (effects (after (anchor_click this ly) st)) ->
       exists top, querySelector ly t = QElement top).
Proof.
  intros H.
  destruct (H (link_to "#missing") empty_layout sample_page (lit "#missing")) as [top Htop].
  - reflexivity.
  - intros [].
  - left. reflexivity.
  - discriminate Htop.
Qed.

(** ** The data load *)

Lemma loadData_settle_events (ok : bool) (ra : option ArtCatalog) (rp : option ProjectCatalog)
      (rl : option LinksConfig) (st : State) :
  phase st = Fetching ->
  run_events [FetchesSettled ok; ArtJson ra; ProjectJson rp; LinksJson rl] st
  = after (loadData_settle ok ra rp rl) st.
Proof.
  intros Hp. cbn [run_events fold_left].
  destruct ok.
  2:{ unfold handle. cbn [listener]. rewrite <- Hp, in_phase_refl. reflexivity. }
  rewrite handle_FetchesSettled by assumption.
  destruct ra as [a|]; [|reflexivity].
  rewrite handle_ArtJson by reflexivity.
  destruct rp as [p|]; [|reflexivity].
  rewrite handle_ProjectJson by reflexivity.
  destruct rl as [l|]; [|reflexivity].
  rewrite handle_LinksJson by reflexivity.
  unfold loadData_settle, after, try_catch.
  rewrite andThen_returned by reflexivity.
  rewrite andThen_returned by reflexivity.
  rewrite andThen_returned by reflexivity.
  cbn [resume_fetch resume_art resume_projects lift andThen fst].
  match goal with
  | |- _ = fst (match resume_links (Some l) ?s with _ => _ end) =>
      destruct (resume_links_spec l s) as (R & _); destruct (resume_links (Some l) s) as [s' o]
  end.
  cbn [snd] in R. now subst o.
Qed.

(** C10 (as amended). When the fetches resolve and [art.json] parses, a
    later failure leaves the globals half replaced: if [project.json] fails,
    [artData] is the new catalog and [projectData] the old one; if
    [project.json] parses and [links.json] fails, both are the new
    catalogs.  Either way the page is untouched and the only effect is one
    console error: none of [updateLinks], [loadCodeProjects],
    [loadFeaturedArt], [animateHero] has been called. *)
Theorem loadData_is_not_atomic :
  forall (st : State) (a : ArtCatalog) (p : ProjectCatalog) (rl : option LinksConfig),
    let s1 := after (loadData_settle true (Some a) None rl) st in
    let s2 := after (loadData_settle true (Some a) (Some p) None) st in
    (artData (globals s1) = a /\
     projectData (globals s1) = projectData (globals st) /\
     effects s1 = ConsoleError :: effects st /\
     projectsView s1 = projectsView st /\ galleryView s1 = galleryView st /\
     lightboxView s1 = lightboxView st /\ pageView s1 = pageView st /\
     phase s1 = LoadFailed) /\
    (artData (globals s2) = a /\
     projectData (globals s2) = p /\
     effects s2 = ConsoleError :: effects st /\
     projectsView s2 = projectsView st /\ galleryView s2 = galleryView st /\
     lightboxView s2 = lightboxView st /\ pageView s2 = pageView st /\
     phase s2 = LoadFailed) /\
    (phase st = Fetching ->
     run_events [FetchesSettled true; ArtJson (Some a); ProjectJson None; LinksJson rl] st = s1 /\
     run_events [FetchesSettled true; ArtJson (Some a); ProjectJson (Some p); LinksJson None] st
     = s2).
Proof.
  intros st a p rl. cbn zeta.
  split; [repeat split|]. split; [repeat split|].
  intros Hp. split; now apply loadData_settle_events.
Qed.

Lemma loadData_is_not_atomic_witness :
  projectData (globals (run_events [FetchesSettled true; ArtJson (Some sample_artData);
                                    ProjectJson None; LinksJson (Some sample_links)]
                                   sample_fetching))
  = mkProjectCatalog [] /\
  artData (globals (run_events [FetchesSettled true; ArtJson (Some sample_artData);
                                ProjectJson None; LinksJson (Some sample_links)]
                               sample_fetching))
  = sample_artData.
Proof.
  destruct (loadData_is_not_atomic sample_fetching sample_artData sample_projectData
                                   (Some sample_links))
    as ((Ha & Hp & _) & _ & He).
  destruct He as (-> & _); [reflexivity|].
  split; [exact Hp|exact Ha].
Defined.

(** C10 as stated fails: when it is [links.json] that does not parse,
    [projectData] has been replaced. *)
Lemma projectData_replaced_before_links_fail :
  ~ (forall (st : State) (a : ArtCatalog) (rp : option ProjectCatalog) (rl : option LinksConfig),
       rp = None \/ rl = None ->
       projectData (globals (after (loadData_settle true (Some a) rp rl) st))
       = projectData (globals st)).
Proof.
  intros H.
  specialize (H sample_fetching sample_artData (Some sample_projectData) None (or_intror eq_refl)).
  discriminate H.
Qed.

(** ** Escaped text inside a quoted attribute *)

Lemma option_map_app_nil {A : Type} (x : option (list A)) : option_map (app []) x = x.
Proof. now destruct x. Qed.

(** Text free of double quotes is read back from a double-quoted attribute
    as it was, but for U+0000, which the tokenizer replaces by U+FFFD. *)
Lemma run_value_reference (t : Tag) (n v : jsstring) (c : N) (tl : jsstring) :
  c = AMP \/ c = NBSP \/ c = LT \/ c = GT ->
  run (AttrValueDQ t n v) O (escape_unit c ++ tl) = run (AttrValueDQ t n (v ++ [c])) O tl.
Proof.
  intros [-> | [-> | [-> | ->]]]; cbn; now destruct (run _ 0 tl).
Qed.

Lemma run_value_plain (t : Tag) (n v : jsstring) (c : N) (tl : jsstring) :
  c <> AMP -> c <> QUOT ->
  run (AttrValueDQ t n v) O (c :: tl) = run (AttrValueDQ t n (v ++ [nul_unit c])) O tl.
Proof.
  intros Ha Hq. cbn [run step]. unfold step_value_dq, step_value.
  rewrite (proj2 (N.eqb_neq c QUOT) Hq), (proj2 (N.eqb_neq c AMP) Ha).
  cbn. now destruct (run _ 0 tl).
Qed.

Lemma run_value_escape (t : Tag) (n : jsstring) (s : jsstring) :
  ~ In QUOT s ->
  forall v tl,
    run (AttrValueDQ t n v) O (escapeHtml s ++ tl)
    = run (AttrValueDQ t n (v ++ map nul_unit s)) O tl.
Proof.
  induction s as [|c s IH]; intros Hq v tl.
  - cbn. now rewrite app_nil_r.
  - rewrite escapeHtml_cons, <- app_assoc.
    assert (E : run (AttrValueDQ t n v) O (escape_unit c ++ escapeHtml s ++ tl)
                = run (AttrValueDQ t n (v ++ [nul_unit c])) O (escapeHtml s ++ tl)).
    { destruct (escape_unit_cases c) as [[-> _]|[[-> _]|[[-> _]|[[-> _]|(Ha & _ & _ & _ & E)]]]];
        try (apply run_value_reference; tauto).
      rewrite E. apply run_value_plain; [assumption|].
      intros ->. apply Hq. now left. }
    rewrite E, IH.
    + cbn [map]. now rewrite <- app_assoc.
    + intros H. apply Hq. now right.
Qed.

Lemma in_normalize_le (x : N) (n : nat) :
  forall s, (length s <= n)%nat -> In x (normalize_newlines s) -> x = 10%N \/ In x s.
Proof.
  induction n as [|n IH]; intros s Hn Hin.
  - destruct s; [destruct Hin|cbn in Hn; lia].
  - destruct s as [|c s]; [destruct Hin|]. cbn [length] in Hn.
    cbn [normalize_newlines] in Hin. destruct (N.eqb c 13).
    + destruct Hin as [<-|Hin]; [now left|].
      destruct s as [|d s]; [destruct Hin|]. cbn [length] in Hn.
      destruct (N.eqb d 10).
      * destruct (IH s ltac:(lia) Hin) as [H|H]; [now left|right; now right; right].
      * destruct (IH (d :: s) ltac:(cbn [length]; lia) Hin) as [H|H]; [now left|right; now right].
    + destruct Hin as [<-|Hin]; [right; now left|].
      destruct (IH s ltac:(lia) Hin) as [H|H]; [now left|right; now right].
Qed.

Lemma normalize_unquoted (s : jsstring) : ~ In QUOT s -> ~ In QUOT (normalize_newlines s).
Proof.
  intros Hq Hin. apply (in_normalize_le QUOT (length s) s (le_n _)) in Hin.
  destruct Hin as [H|H]; [discriminate H|contradiction].
Qed.

(** Without CR there is nothing to normalise, and without U+0000 nothing to
    drop or to replace. *)
Lemma normalize_without_CR (s : jsstring) : ~ In 13%N s -> normalize_newlines s = s.
Proof.
  induction s as [|c s IH]; intros H; [reflexivity|].
  rewrite normalize_plain by (intros ->; apply H; now left).
  rewrite IH; [reflexivity|]. intros Hin. apply H. now right.
Qed.

Lemma read_as_written (s : jsstring) :
  ~ In 13%N s -> ~ In 0%N s -> text_read s = s /\ value_read s = s.
Proof.
  intros Hc H0. unfold text_read, value_read. rewrite normalize_without_CR by exact Hc.
  clear Hc. induction s as [|c s IH]; [split; reflexivity|].
  assert (Hc : c <> 0%N) by (intros ->; apply H0; now left).
  destruct IH as [IH1 IH2]; [intros H; apply H0; now right|].
  unfold drop_nul, nul_unit in *. cbn [filter map].
  rewrite (proj2 (N.eqb_neq c 0) Hc). cbn [negb]. now rewrite IH1, IH2.
Qed.

Lemma img_template_unquoted (art : ArtItem) :
  ~ In QUOT (art_image art) -> ~ In QUOT (art_title art) ->
  tokenize (img_template art)
  = Some [TStartTag (lit "img")
                    [(lit "src", value_read (art_image art));
                     (lit "alt", value_read (art_title art))] false].
Proof.
  intros Hq1 Hq2. unfold tokenize, img_template, value_read.
  cbn -[escapeHtml]. rewrite normalize_escape by (cbn; discriminate).
  cbn -[escapeHtml]. rewrite normalize_escape by (cbn; discriminate).
  cbn -[escapeHtml normalize_newlines]. rewrite !option_map_app_nil.
  rewrite run_value_escape by now apply normalize_unquoted.
  cbn -[escapeHtml normalize_newlines]. rewrite !option_map_app_nil.
  rewrite run_value_escape by now apply normalize_unquoted.
  reflexivity.
Qed.

(** C1, at the input on which it fails.  A title with a double quote in it
    (here [x" onerror="alert(1)]) ends the [alt] attribute that the
    featured-art template, the gallery and the thumbnail strip put it in:
    the image element gets [alt="x"] and an [onerror] attribute whose value
    is the rest of the title. *)
Theorem quoted_title_is_read_as_markup :
  exists (block : Block) (attrs : list (jsstring * jsstring)),
    featuredArtGrid (pageView quoted_loaded) = Some [block] /\
    option_map (attrs_of (lit "img")) (tokenize (block_innerHTML block)) = Some [attrs] /\
    In (lit "alt", lit "x") attrs /\
    In (lit "onerror", lit "alert(1)") attrs /\
    tokenize (img_template quoted_art)
    = Some [TStartTag (lit "img")
                      [(lit "src", lit "a.png"); (lit "alt", lit "x");
                       (lit "onerror", lit "alert(1)")] false].
Proof.
  eexists. eexists.
  split; [vm_compute; reflexivity|].
  split; [vm_compute; reflexivity|].
  split; [right; left; reflexivity|].
  split; [right; right; left; reflexivity|].
  vm_compute. reflexivity.
Qed.

(** * Further properties *)

(** ** Featured art *)

Lemma forEach_featured (l : list (nat * ArtItem)) :
  forall grid,
    fold_left (fun grid '(index, art) => grid ++ [featured_block index art]) l grid
    = grid ++ map (fun '(index, art) => featured_block index art) l.
Proof.
  induction l as [|[i a] l IH]; intros grid; cbn [fold_left map].
  - now rewrite app_nil_r.
  - now rewrite IH, <- app_assoc.
Qed.

(** X1. [loadFeaturedArt] on a page with the featured grid replaces
    whatever the grid held by one block per item of the first two hero
    images, in order: as many blocks as min(2, number of hero images), the
    second one (and only it) with a transition delay of 100ms; it creates
    one observer, returns and leaves the globals alone.  On a page without
    the grid it does nothing. *)
Theorem loadFeaturedArt_first_two :
  forall st : State,
    (featuredArtGrid (pageView st) = None ->
     loadFeaturedArt st = (log (Called FloadFeaturedArt) st, Returned)) /\
    (forall grid0,
        featuredArtGrid (pageView st) = Some grid0 ->
        let hero := heroImages (artData (globals st)) in
        let st' := after loadFeaturedArt st in
        snd (loadFeaturedArt st) = Returned /\
        globals st' = globals st /\
        revealObservers (pageView st') = S (revealObservers (pageView st)) /\
        exists blocks,
          featuredArtGrid (pageView st') = Some blocks /\
          length blocks = Nat.min 2 (length hero) /\
          map block_innerHTML blocks = map featured_template (firstn 2 hero) /\
          map block_transitionDelay blocks
          = firstn (length hero) [None; Some (lit "100ms")]).
Proof.
  intros st. unfold loadFeaturedArt, after.
  cbn [log pageView featuredArtGrid]. split.
  - intros ->. reflexivity.
  - intros grid0 ->. cbn zeta.
    rewrite forEach_featured. cbn [globals log app].
    split; [reflexivity|]. split; [reflexivity|]. split; [reflexivity|].
    destruct (heroImages (artData (globals st))) as [|a [|b rest]];
      eexists; (split; [reflexivity|]); repeat split;
      cbn [length firstn]; now rewrite ?firstn_nil.
Qed.

Lemma loadFeaturedArt_first_two_witness :
  exists blocks,
    featuredArtGrid (pageView (after loadFeaturedArt sample_loaded)) = Some blocks /\
    length blocks = 2%nat.
Proof.
  destruct (loadFeaturedArt_first_two sample_loaded) as (_ & H).
  destruct (H (map (fun '(i, a) => featured_block i a)
                   (indexed (firstn 2 (heroImages sample_artData)))))
    as (_ & _ & _ & blocks & Hb & Hlen & _); [reflexivity|].
  exists blocks. split; [exact Hb|exact Hlen].
Defined.

(** ** Links *)

Lemma updateLinks_spec (links : LinksConfig) (st : State) :
  updateLinks links st
  = (set_anchors (map (rewritten links) (anchors (pageView st))) (log (Called FupdateLinks) st),
     Returned).
Proof.
  unfold updateLinks, ret. f_equal. cbn [log pageView anchors]. f_equal.
  apply map_ext. intros a. unfold rewritten.
  destruct a as [h r d s]. cbn. destruct r; [reflexivity|].
  now destruct (is_github_link _).
Qed.

Lemma rewritten_idempotent (links : LinksConfig) (a : Anchor) :
  rewritten links (rewritten links a) = rewritten links a.
Proof.
  unfold rewritten at 2 3. destruct (js_resume_download a) eqn:Er; [reflexivity|].
  destruct (is_github_link a) eqn:Eg.
  - unfold rewritten. cbn [js_resume_download].
    destruct (is_github_link (mkAnchor _ _ _ _)); reflexivity.
  - unfold rewritten. now rewrite Er, Eg.
Qed.

(** X2. [updateLinks] keeps every anchor in place and rewrites it by its
    own marks alone: an anchor of class [js-resume-download] gets the
    résumé URL and the fixed download name; any other anchor whose href
    contains [github.com] gets the GitHub URL; every other anchor is left
    as it is.  Scroll listeners are untouched, nothing else on the page or
    in the globals changes, and a second call with the same links changes
    no anchor again. *)
Theorem updateLinks_rewrites_once :
  forall (links : LinksConfig) (st : State),
    let st' := after (updateLinks links) st in
    snd (updateLinks links st) = Returned /\
    globals st' = globals st /\
    projectsView st' = projectsView st /\
    galleryView st' = galleryView st /\
    lightboxView st' = lightboxView st /\
    length (anchors (pageView st')) = length (anchors (pageView st)) /\
    (forall i a,
        nth_error (anchors (pageView st)) i = Some a ->
        exists a',
          nth_error (anchors (pageView st')) i = Some a' /\
          smooth a' = smooth a /\
          js_resume_download a' = js_resume_download a /\
          (js_resume_download a = true ->
           href a' = Some (links_resume links) /\
           download a' = Some (lit "Dixit_Parmar_Resume.pdf")) /\
          (js_resume_download a = false ->
           download a' = download a /\
           href a' = if is_github_link a then Some (links_github links) else href a)) /\
    anchors (pageView (after (updateLinks links) st')) = anchors (pageView st').
Proof.
  intros links st. cbn zeta. unfold after. rewrite !updateLinks_spec.
  cbn [fst snd set_anchors set_pageView log globals projectsView galleryView lightboxView
       pageView anchors].
  repeat split.
  - apply length_map.
  - intros i a Hi. exists (rewritten links a).
    split; [now rewrite nth_error_map, Hi|].
    unfold rewritten. destruct a as [h r d s]. cbn.
    destruct r; [repeat split; discriminate|].
    destruct (is_github_link _); repeat split; discriminate.
  - rewrite map_map. apply map_ext. intros a. apply rewritten_idempotent.
Qed.

(** ** The lightbox, drawn *)

Lemma forEach_thumbs (current : jsnum) (l : list (nat * ArtItem)) :
  forall strip,
    fold_left (fun strip '(index, item) => strip ++ [thumbnail current index item]) l strip
    = strip ++ map (fun '(index, item) => thumbnail current index item) l.
Proof.
  induction l as [|[i a] l IH]; intros strip; cbn [fold_left map].
  - now rewrite app_nil_r.
  - now rewrite IH, <- app_assoc.
Qed.

Lemma marked_nth (current : jsnum) (thumbs : list Thumb) (k : nat) :
  nth_error (marked current thumbs) k
  = option_map (fun th => mkThumb (js_index_eqb k current) (thumb_innerHTML th) (thumb_index th))
               (nth_error thumbs k).
Proof.
  unfold marked, indexed. rewrite nth_error_map, nth_error_indexed_from.
  now destruct (nth_error thumbs k).
Qed.

Lemma length_marked (current : jsnum) (thumbs : list Thumb) :
  length (marked current thumbs) = length thumbs.
Proof. unfold marked, indexed. now rewrite length_map, length_indexed_from. Qed.

Lemma strip_of_nth (current : jsnum) (source : list ArtItem) (k : nat) :
  nth_error (strip_of current source) k
  = option_map (thumbnail current k) (nth_error source k).
Proof.
  unfold strip_of, indexed. rewrite nth_error_map, nth_error_indexed_from.
  now destruct (nth_error source k).
Qed.

Lemma length_strip_of (current : jsnum) (source : list ArtItem) :
  length (strip_of current source) = length source.
Proof. unfold strip_of, indexed. now rewrite length_map, length_indexed_from. Qed.

Lemma js_index_eqb_nat (k i : nat) : js_index_eqb k (Num (Z.of_nat i)) = Nat.eqb k i.
Proof.
  cbn. destruct (Nat.eqb_spec k i) as [->|H]; [apply Z.eqb_refl|].
  apply Z.eqb_neq. lia.
Qed.

(** [updateLightboxContent] with an item to show and an image to show it
    in: the image and the marks are written, nothing else but the log. *)
Lemma updateLightboxContent_draws (st : State) (item : ArtItem) :
  js_get (currentLightboxSource (globals st)) (currentLightboxIndex (globals st)) = Some item ->
  is_some (modalImg (lightboxView st)) = true ->
  let st' := fst (updateLightboxContent st) in
  let v := lightboxView st in
  snd (updateLightboxContent st) = Returned /\
  globals st' = globals st /\
  projectsView st' = projectsView st /\
  galleryView st' = galleryView st /\
  pageView st' = pageView st /\
  phase st' = phase st /\
  lightboxView st'
  = mkLightboxView (modalClose v) (modalPrev v) (modalNext v) (imageModal v)
                   (Some (mkImg (art_image item) (art_title item)))
                   (option_map (marked (currentLightboxIndex (globals st))) (thumbnailStrip v)).
Proof.
  intros Hitem Himg. cbn zeta. unfold updateLightboxContent. rewrite Hitem.
  destruct (modalImg (lightboxView st)) as [img0|]; [|discriminate].
  cbn [set_modalImg set_lightboxView lightboxView thumbnailStrip].
  destruct (thumbnailStrip (lightboxView st)) as [thumbs|] eqn:Et; [|cbn; rewrite Et; repeat split].
  unfold ret. cbn [fst snd].
  match goal with
  | |- context [fold_left ?f ?l ?s] =>
      destruct (scroll_marks_frame (currentLightboxIndex (globals st)) l s) as (G & L & V & P);
      pose proof (scroll_marks_off (currentLightboxIndex (globals st)) l s) as Hoff
  end.
  apply pagination_eq in Hoff. destruct Hoff as (_ & _ & Hpv & Hph & _).
  cbn zeta in *. rewrite G, L, V, P, Hpv, Hph. cbn. repeat split.
Qed.

Lemma js_get_nat {A : Type} (l : list A) (i : nat) : js_get l (Num (Z.of_nat i)) = nth_error l i.
Proof.
  unfold js_get. destruct (Z.ltb_spec (Z.of_nat i) 0); [lia|]. now rewrite Nat2Z.id.
Qed.

Lemma generateThumbnails_builds (st : State) :
  is_some (thumbnailStrip (lightboxView st)) = true ->
  generateThumbnails st
  = (set_thumbnailStrip (strip_of (currentLightboxIndex (globals st))
                                  (currentLightboxSource (globals st))) st, Returned).
Proof.
  intros H. unfold generateThumbnails.
  destruct (thumbnailStrip (lightboxView st)); [|discriminate].
  now rewrite forEach_thumbs.
Qed.

(** X3. [openLightbox(source, i)] on a page with the image modal, its image
    and the thumbnail strip, for a position [i] inside the source: it
    returns, stores the source and the index, shows the modal and stops the
    page from scrolling, puts item [i] into the large image, and rebuilds
    the strip with one thumbnail per item in order, thumbnail [i] marked
    active and no other. *)
Theorem openLightbox_shows_item :
  forall (st : State) (source : list ArtItem) (i : nat) (item : ArtItem),
    is_some (imageModal (lightboxView st)) = true ->
    is_some (modalImg (lightboxView st)) = true ->
    is_some (thumbnailStrip (lightboxView st)) = true ->
    nth_error source i = Some item ->
    let r := openLightbox source (Num (Z.of_nat i)) st in
    snd r = Returned /\
    currentLightboxSource (globals (fst r)) = source /\
    currentLightboxIndex (globals (fst r)) = Num (Z.of_nat i) /\
    lightbox_open (fst r) = true /\
    bodyOverflow (pageView (fst r)) = OverflowHidden /\
    modalImg (lightboxView (fst r)) = Some (mkImg (art_image item) (art_title item)) /\
    exists thumbs,
      thumbnailStrip (lightboxView (fst r)) = Some thumbs /\
      length thumbs = length source /\
      map thumb_innerHTML thumbs = map img_template source /\
      (forall k t, nth_error thumbs k = Some t ->
                   thumb_index t = k /\ thumb_active t = Nat.eqb k i).
Proof.
  intros st source i item Hm Hi Ht Hitem. cbn zeta. unfold openLightbox.
  rewrite andThen_returned by reflexivity.
  rewrite andThen_returned by reflexivity.
  cbn [lift fst].
  set (s2 := set_currentLightboxIndex (Num (Z.of_nat i)) (set_currentLightboxSource source st)).
  assert (E3 : (fun st0 => match imageModal (lightboxView st0) with
                           | Some _ => ret (set_bodyOverflow OverflowHidden
                                              (set_imageModal show_modal st0))
                           | None => throw st0
                           end) s2
               = (set_bodyOverflow OverflowHidden (set_imageModal show_modal s2), Returned)).
  { cbn beta. change (imageModal (lightboxView s2)) with (imageModal (lightboxView st)).
    now destruct (imageModal (lightboxView st)). }
  rewrite andThen_returned by (now rewrite E3). rewrite E3. cbn [fst].
  set (s3 := set_bodyOverflow OverflowHidden (set_imageModal show_modal s2)).
  assert (Hget : js_get (currentLightboxSource (globals s3)) (currentLightboxIndex (globals s3))
                 = Some item)
    by (change (js_get source (Num (Z.of_nat i)) = Some item); now rewrite js_get_nat).
  destruct (updateLightboxContent_draws s3 item Hget Hi) as (R4 & G4 & _ & _ & P4 & _ & L4).
  rewrite andThen_returned by exact R4.
  set (s4 := fst (updateLightboxContent s3)) in *.
  assert (Ht4 : is_some (thumbnailStrip (lightboxView s4)) = true).
  { rewrite L4. cbn. now destruct (thumbnailStrip (lightboxView st)). }
  rewrite (generateThumbnails_builds s4 Ht4). unfold lightbox_open. cbn [fst snd].
  cbn [set_thumbnailStrip set_lightboxView globals lightboxView pageView
       imageModal modalImg thumbnailStrip].
  rewrite G4, P4, L4.
  cbn [imageModal modalImg thumbnailStrip].
  split; [reflexivity|]. split; [reflexivity|]. split; [reflexivity|].
  split; [reflexivity|]. split; [reflexivity|]. split; [reflexivity|].
  exists (strip_of (Num (Z.of_nat i)) source).
  split; [reflexivity|]. split; [apply length_strip_of|]. split.
  - apply nth_error_ext. intros k. rewrite !nth_error_map, strip_of_nth.
    now destruct (nth_error source k).
  - intros k t Hk. rewrite strip_of_nth in Hk.
    destruct (nth_error source k); [|discriminate]. injection Hk as <-.
    unfold thumbnail. cbn [thumb_index thumb_active]. split; [reflexivity|].
    apply js_index_eqb_nat.
Qed.

Lemma openLightbox_shows_item_witness :
  lightbox_open (fst (openLightbox (heroImages sample_artData) (Num (Z.of_nat 1)) sample_loaded))
  = true /\
  modalImg (lightboxView (fst (openLightbox (heroImages sample_artData) (Num (Z.of_nat 1))
                                            sample_loaded)))
  = Some (mkImg (lit "B.png") (lit "B")).
Proof.
  destruct (openLightbox_shows_item sample_loaded (heroImages sample_artData) 1 (sample_art "B"))
    as (_ & _ & _ & Ho & _ & Himg & _); try reflexivity.
  split; [exact Ho|exact Himg].
Defined.

(** X4. A click on the thumbnail at position [k] of the strip, whose
    listener holds an index inside the source, on a page with the large
    image: the index becomes the listener's index directly, the large image
    shows that item, and the strip is re-marked in place (same thumbnails,
    same listeners, the one at the position equal to the new index active
    and no other); the source and the modal are left as they are, and the
    click is kept from the modal's own listener. *)
Theorem thumbnail_click_jumps :
  forall (st : State) (thumbs : list Thumb) (k : nat) (t : Thumb) (item : ArtItem),
    thumbnailStrip (lightboxView st) = Some thumbs ->
    nth_error thumbs k = Some t ->
    nth_error (currentLightboxSource (globals st)) (thumb_index t) = Some item ->
    is_some (modalImg (lightboxView st)) = true ->
    let st' := handle (ClickThumbnail k) st in
    currentLightboxIndex (globals st') = Num (Z.of_nat (thumb_index t)) /\
    currentLightboxSource (globals st') = currentLightboxSource (globals st) /\
    imageModal (lightboxView st') = imageModal (lightboxView st) /\
    modalImg (lightboxView st') = Some (mkImg (art_image item) (art_title item)) /\
    exists thumbs',
      thumbnailStrip (lightboxView st') = Some thumbs' /\
      length thumbs' = length thumbs /\
      map thumb_innerHTML thumbs' = map thumb_innerHTML thumbs /\
      map thumb_index thumbs' = map thumb_index thumbs /\
      (forall j t', nth_error thumbs' j = Some t' ->
                    thumb_active t' = Nat.eqb j (thumb_index t)).
Proof.
  intros st thumbs k t item Hs Hk Hitem Hi. cbn zeta.
  assert (E : handle (ClickThumbnail k) st
              = fst (updateLightboxContent
                       (set_currentLightboxIndex (Num (Z.of_nat (thumb_index t)))
                                                 (log StopPropagation st)))).
  { unfold handle. cbn [listener]. rewrite Hs, Hk. unfold thumbnail_click, after.
    rewrite andThen_returned by reflexivity. now rewrite andThen_returned by reflexivity. }
  rewrite E.
  set (s2 := set_currentLightboxIndex (Num (Z.of_nat (thumb_index t))) (log StopPropagation st)).
  assert (Hget : js_get (currentLightboxSource (globals s2)) (currentLightboxIndex (globals s2))
                 = Some item)
    by (change (js_get (currentLightboxSource (globals st)) (Num (Z.of_nat (thumb_index t)))
                = Some item); now rewrite js_get_nat).
  destruct (updateLightboxContent_draws s2 item Hget Hi) as (_ & G & _ & _ & _ & _ & L).
  rewrite G, L.
  change (thumbnailStrip (lightboxView s2)) with (thumbnailStrip (lightboxView st)).
  rewrite Hs. cbn [imageModal modalImg thumbnailStrip option_map].
  repeat (split; [reflexivity|]).
  exists (marked (Num (Z.of_nat (thumb_index t))) thumbs).
  split; [reflexivity|]. split; [apply length_marked|].
  split; [|split].
  - apply nth_error_ext. intros j. rewrite !nth_error_map, marked_nth.
    now destruct (nth_error thumbs j).
  - apply nth_error_ext. intros j. rewrite !nth_error_map, marked_nth.
    now destruct (nth_error thumbs j).
  - intros j t' Hj. rewrite marked_nth in Hj.
    destruct (nth_error thumbs j); [|discriminate]. injection Hj as <-.
    apply js_index_eqb_nat.
Qed.

Lemma thumbnail_click_jumps_witness :
  currentLightboxIndex (globals (handle (ClickThumbnail 1) sample_lightbox)) = Num 1 /\
  modalImg (lightboxView (handle (ClickThumbnail 1) sample_lightbox))
  = Some (mkImg (lit "B.png") (lit "B")).
Proof.
  destruct (thumbnail_click_jumps
              sample_lightbox
              (strip_of (Num 3) (heroImages sample_artData ++ artworks sample_artData))
              1 (thumbnail (Num 3) 1 (sample_art "B")) (sample_art "B"))
    as (Hidx & _ & _ & Himg & _); try reflexivity.
  split; [exact Hidx|exact Himg].
Defined.

Lemma wrap_back (i L : Z) : 0 <= i < L -> ((i + 1) mod L - 1 + L) mod L = i.
Proof.
  intros H. destruct (Z.eq_dec (i + 1) L) as [E|E].
  - rewrite E, Z.mod_same by lia. replace (0 - 1 + L) with i by lia.
    apply Z.mod_small. lia.
  - rewrite (Z.mod_small (i + 1)) by lia.
    replace (i + 1 - 1 + L) with (i + 1 * L) by lia.
    rewrite Z.mod_add by lia. apply Z.mod_small. lia.
Qed.

Lemma wrap_forth (i L : Z) : 0 <= i < L -> ((i - 1 + L) mod L + 1) mod L = i.
Proof.
  intros H. destruct (Z.eq_dec i 0) as [E|E].
  - subst i. replace (0 - 1 + L) with (L - 1) by lia.
    rewrite (Z.mod_small (L - 1)) by lia.
    replace (L - 1 + 1) with L by lia. now rewrite Z.mod_same by lia.
  - replace (i - 1 + L) with (i - 1 + 1 * L) by lia.
    rewrite Z.mod_add by lia. rewrite (Z.mod_small (i - 1)) by lia.
    replace (i - 1 + 1) with i by lia. apply Z.mod_small. lia.
Qed.

(** X5. With the index inside a non-empty source, "previous" undoes "next"
    and "next" undoes "previous", and as many "next" (or "previous") as the
    source has items lead back to the index one started from; none of them
    changes the source. *)
Theorem next_and_previous_are_inverse :
  forall (st : State) (e : bool) (i : Z),
    let L := Z.of_nat (length (currentLightboxSource (globals st))) in
    currentLightboxIndex (globals st) = Num i ->
    0 <= i < L ->
    currentLightboxIndex (globals (after (prevImage e) (after (nextImage e) st))) = Num i /\
    currentLightboxIndex (globals (after (nextImage e) (after (prevImage e) st))) = Num i /\
    currentLightboxSource (globals (after (prevImage e) (after (nextImage e) st)))
    = currentLightboxSource (globals st) /\
    currentLightboxIndex
      (globals (Nat.iter (length (currentLightboxSource (globals st))) (after (nextImage e)) st))
    = Num i /\
    currentLightboxIndex
      (globals (Nat.iter (length (currentLightboxSource (globals st))) (after (prevImage e)) st))
    = Num i.
Proof.
  intros st e i L Hi Hr.
  destruct (nextImage_spec e st i Hi Hr) as (N1 & N2 & _).
  destruct (prevImage_spec e st i Hi Hr) as (P1 & P2 & _).
  fold L in N1, P1.
  assert (Hn : 0 <= (i + 1) mod L < L) by (apply Z.mod_pos_bound; lia).
  assert (Hp : 0 <= (i - 1 + L) mod L < L) by (apply Z.mod_pos_bound; lia).
  destruct (prevImage_spec e (after (nextImage e) st) _ N1) as (A1 & A2 & _);
    [now rewrite N2|].
  destruct (nextImage_spec e (after (prevImage e) st) _ P1) as (B1 & _);
    [now rewrite P2|].
  rewrite N2 in A1, A2. rewrite P2 in B1. fold L in A1, B1.
  rewrite wrap_back in A1 by assumption. rewrite wrap_forth in B1 by assumption.
  split; [exact A1|]. split; [exact B1|]. split; [exact A2|].
  destruct (nextImage_iter e st i (length (currentLightboxSource (globals st))) Hi Hr) as [-> _].
  destruct (prevImage_iter e st i (length (currentLightboxSource (globals st))) Hi Hr) as [-> _].
  fold L. split; f_equal.
  - replace (i + L) with (i + 1 * L) by lia. rewrite Z.mod_add by lia. apply Z.mod_small. lia.
  - replace (i - L) with (i + (-1) * L) by lia. rewrite Z.mod_add by lia. apply Z.mod_small. lia.
Qed.

Lemma next_and_previous_are_inverse_witness :
  currentLightboxIndex
    (globals (after (prevImage true) (after (nextImage true) sample_lightbox))) = Num 3 /\
  currentLightboxIndex (globals (Nat.iter 5 (after (nextImage true)) sample_lightbox)) = Num 3.
Proof.
  destruct (next_and_previous_are_inverse sample_lightbox true 3) as (H1 & _ & _ & H2 & _).
  - reflexivity.
  - vm_compute. split; [discriminate|reflexivity].
  - split; [exact H1|exact H2].
Defined.

(** X6. With an empty source, "next" and "previous" set the index to NaN,
    whatever it was, and throw before drawing anything: the page is left as
    it was. *)
Theorem navigation_on_empty_source :
  forall (st : State) (e : bool),
    currentLightboxSource (globals st) = [] ->
    let s := if e then log StopPropagation st else st in
    nextImage e st = (set_currentLightboxIndex NaN s, Threw) /\
    prevImage e st = (set_currentLightboxIndex NaN s, Threw).
Proof.
  intros st e Hs. cbn zeta. unfold nextImage, prevImage.
  rewrite !(andThen_returned (if e then lift (log StopPropagation) else ret))
    by (now destruct e).
  rewrite !andThen_returned by reflexivity.
  assert (El : forall s, currentLightboxSource (globals s) = [] -> source_length s = Num 0)
    by (intros s Hs'; unfold source_length; now rewrite Hs').
  assert (Er : forall x, js_rem x (Num 0) = NaN) by (now intros [z|]).
  destruct e; cbn [lift fst]; rewrite !El, !Er by exact Hs;
    unfold updateLightboxContent; cbn [globals set_currentLightboxIndex set_globals
                                        currentLightboxIndex currentLightboxSource js_get];
    split; reflexivity.
Qed.

Lemma navigation_on_empty_source_witness :
  currentLightboxIndex (globals (fst (nextImage false sample_loaded))) = NaN /\
  snd (prevImage false sample_loaded) = Threw.
Proof.
  destruct (navigation_on_empty_source sample_loaded false) as (Hn & Hp); [reflexivity|].
  rewrite Hn, Hp. split; reflexivity.
Defined.

(** ** Gallery and lightbox together *)

Lemma generateThumbnails_frame (st : State) :
  let st' := fst (generateThumbnails st) in
  galleryView st' = galleryView st /\ pageView st' = pageView st /\
  is_some (imageModal (lightboxView st')) = is_some (imageModal (lightboxView st)) /\
  modalClose (lightboxView st') = modalClose (lightboxView st).
Proof.
  unfold generateThumbnails. destruct (thumbnailStrip (lightboxView st)); now cbn.
Qed.

(** [openLightbox] never touches the gallery, whether it returns or not. *)
Lemma openLightbox_frame (src : list ArtItem) (j : jsnum) (st : State) :
  let st' := after (openLightbox src j) st in
  galleryView st' = galleryView st /\
  is_some (imageModal (lightboxView st')) = is_some (imageModal (lightboxView st)) /\
  modalClose (lightboxView st') = modalClose (lightboxView st) /\
  phase st' = phase st.
Proof.
  cbn zeta. unfold openLightbox, after.
  rewrite andThen_returned by reflexivity.
  rewrite andThen_returned by reflexivity.
  cbn [lift fst].
  set (s2 := set_currentLightboxIndex j (set_currentLightboxSource src st)).
  assert (M2 : imageModal (lightboxView s2) = imageModal (lightboxView st)) by reflexivity.
  unfold andThen. cbn beta. rewrite M2.
  destruct (imageModal (lightboxView st)) as [cl|] eqn:Em; [|cbn; rewrite Em; repeat split].
  cbn [ret].
  set (s3 := set_bodyOverflow OverflowHidden (set_imageModal show_modal s2)).
  destruct (updateLightboxContent_spec s3) as (_ & V3 & _ & M3 & C3 & _).
  pose proof (off_updateLightboxContent s3) as O3. apply pagination_eq in O3.
  destruct O3 as (_ & _ & _ & Ph3 & _).
  destruct (generateThumbnails_frame (fst (updateLightboxContent s3))) as (V4 & _ & M4 & C4).
  pose proof (off_generateThumbnails (fst (updateLightboxContent s3))) as O4.
  apply pagination_eq in O4. destruct O4 as (_ & _ & _ & Ph4 & _).
  destruct (updateLightboxContent s3) as [s4 []]; cbn [fst snd] in *.
  - rewrite V4, V3, M4, M3, C4, C3, Ph4, Ph3. cbn. repeat split.
  - rewrite V3, M3, C3, Ph3. cbn. repeat split.
Qed.

Lemma handle_ClickViewAll (st : State) :
  started st = true ->
  viewAllArt (galleryView st) = true ->
  is_some (galleryModal (galleryView st)) = true ->
  is_some (fullGalleryGrid (galleryView st)) = true ->
  handle ClickViewAll st
  = set_bodyOverflow OverflowHidden
      (set_galleryModal show_modal
         (set_fullGalleryGrid
            (gallery_of (heroImages (artData (globals st)) ++ artworks (artData (globals st))))
            st)).
Proof.
  intros Hs Hb Hm Hg.
  destruct (galleryModal (galleryView st)) as [cl|] eqn:Em; [|discriminate].
  destruct (fullGalleryGrid (galleryView st)) as [grid0|] eqn:Eg; [|discriminate].
  unfold handle. cbn [listener]. rewrite Hs, Hb, Em. cbn [is_some andb].
  unfold after. now rewrite (viewAll_click_spec st grid0 cl Eg Em).
Qed.

Lemma handle_ClickGalleryClose (st : State) :
  started st = true ->
  galleryClose (galleryView st) = true ->
  is_some (galleryModal (galleryView st)) = true ->
  handle ClickGalleryClose st = set_bodyOverflow OverflowAuto (set_galleryModal hide_modal st).
Proof.
  intros Hs Hc Hm. unfold handle. cbn [listener]. rewrite Hs, Hc. cbn [andb].
  unfold after, galleryClose_click. now destruct (galleryModal (galleryView st)).
Qed.

(** X7. Open the gallery, click any of its blocks, close the lightbox with
    its close button (on a page that has those elements): the gallery modal
    is still shown, but page scrolling is back on, since closing the
    lightbox sets the body's overflow to [auto] without looking at the
    gallery underneath. *)
Theorem lightbox_close_unlocks_scroll_under_gallery :
  forall (st : State) (i : nat),
    started st = true ->
    viewAllArt (galleryView st) = true ->
    is_some (galleryModal (galleryView st)) = true ->
    is_some (fullGalleryGrid (galleryView st)) = true ->
    is_some (imageModal (lightboxView st)) = true ->
    modalClose (lightboxView st) = true ->
    let opened := handle ClickViewAll st in
    let st' := run_events [ClickViewAll; ClickGalleryItem i; ClickModalClose] st in
    galleryModal (galleryView opened) = Some show_modal /\
    bodyOverflow (pageView opened) = OverflowHidden /\
    galleryModal (galleryView st') = Some show_modal /\
    lightbox_open st' = false /\
    bodyOverflow (pageView st') = OverflowAuto.
Proof.
  intros st i Hs Hb Hm Hg Hi Hc. cbn zeta.
  pose proof (handle_ClickViewAll st Hs Hb Hm Hg) as E.
  cbn [run_events fold_left]. rewrite E.
  set (opened := set_bodyOverflow _ _).
  split; [reflexivity|]. split; [reflexivity|].
  assert (F : galleryView (handle (ClickGalleryItem i) opened) = galleryView opened /\
              is_some (imageModal (lightboxView (handle (ClickGalleryItem i) opened))) = true /\
              modalClose (lightboxView (handle (ClickGalleryItem i) opened)) = true /\
              started (handle (ClickGalleryItem i) opened) = true).
  { unfold handle. cbn [listener].
    destruct (fullGalleryGrid (galleryView opened)) as [items|]; [|now cbn].
    destruct (nth_error items i) as [it|]; [|now cbn].
    destruct (openLightbox_frame (item_source it) (Num (Z.of_nat (item_index it))) opened)
      as (V & M & C & P).
    unfold galleryItem_click, started. rewrite V, M, C, P. now cbn. }
  destruct F as (V & M & C & S).
  set (s2 := handle (ClickGalleryItem i) opened) in *.
  assert (E3 : handle ClickModalClose s2
               = set_bodyOverflow OverflowAuto (set_imageModal hide_modal s2)).
  { unfold handle. cbn [listener]. rewrite S, C. cbn [andb].
    unfold after. destruct (closeLightbox_closes s2 M) as (-> & _). reflexivity. }
  rewrite E3. unfold lightbox_open.
  cbn [set_bodyOverflow set_pageView set_imageModal set_lightboxView galleryView pageView
       lightboxView bodyOverflow imageModal hide_modal cl_hidden negb].
  rewrite V. repeat split.
Qed.

Lemma lightbox_close_unlocks_scroll_under_gallery_witness :
  galleryModal
    (galleryView (run_events [ClickViewAll; ClickGalleryItem 3; ClickModalClose] sample_loaded))
  = Some show_modal /\
  bodyOverflow
    (pageView (run_events [ClickViewAll; ClickGalleryItem 3; ClickModalClose] sample_loaded))
  = OverflowAuto.
Proof.
  destruct (lightbox_close_unlocks_scroll_under_gallery sample_loaded 3)
    as (_ & _ & Hg & _ & Ho); try reflexivity.
  split; [exact Hg|exact Ho].
Defined.

(** X8. Opening the gallery is idempotent: on a page with the gallery
    elements, a second click on "view all" leaves the state of the first
    (the grid is cleared and rebuilt, never extended).  Closing the gallery
    hides the modal and turns scrolling back on but leaves the blocks in
    the grid; opening it again gives the state of the first opening. *)
Theorem gallery_reopen_rebuilds :
  forall st : State,
    started st = true ->
    viewAllArt (galleryView st) = true ->
    galleryClose (galleryView st) = true ->
    is_some (galleryModal (galleryView st)) = true ->
    is_some (fullGalleryGrid (galleryView st)) = true ->
    let opened := handle ClickViewAll st in
    let closed := handle ClickGalleryClose opened in
    handle ClickViewAll opened = opened /\
    galleryModal (galleryView closed) = Some hide_modal /\
    bodyOverflow (pageView closed) = OverflowAuto /\
    fullGalleryGrid (galleryView closed) = fullGalleryGrid (galleryView opened) /\
    handle ClickViewAll closed = opened.
Proof.
  intros st Hs Hb Hc Hm Hg. cbn zeta.
  rewrite (handle_ClickViewAll st Hs Hb Hm Hg).
  set (G := gallery_of _).
  set (opened := set_bodyOverflow OverflowHidden
                   (set_galleryModal show_modal (set_fullGalleryGrid G st))).
  rewrite (handle_ClickViewAll opened Hs Hb eq_refl eq_refl).
  rewrite (handle_ClickGalleryClose opened Hs Hc eq_refl).
  rewrite (handle_ClickViewAll (set_bodyOverflow OverflowAuto (set_galleryModal hide_modal opened))
                               Hs Hb eq_refl eq_refl).
  subst opened. cbn [globals set_bodyOverflow set_pageView set_galleryModal set_galleryView
                     set_fullGalleryGrid]. fold G.
  destruct st as [g pv [va gc gm fg] lv [fa bo an ht ro] ph ef].
  repeat split.
Qed.

Lemma gallery_reopen_rebuilds_witness :
  handle ClickViewAll (handle ClickViewAll sample_loaded) = handle ClickViewAll sample_loaded /\
  handle ClickViewAll (handle ClickGalleryClose (handle ClickViewAll sample_loaded))
  = handle ClickViewAll sample_loaded.
Proof.
  destruct (gallery_reopen_rebuilds sample_loaded) as (H1 & _ & _ & _ & H2); try reflexivity.
  split; [exact H1|exact H2].
Defined.

(** ** Project cards *)

(** X9. On a loaded page, the card at position [i] of the grid is the card
    of project [i] of the catalog, and a click on it assigns the project's
    link to [window.location.href] when the project has a non-empty link,
    and does nothing at all when the link is absent or empty. *)
Theorem card_click_navigates :
  forall (st : State) (cards : list Card) (i : nat) (c : Card),
    reachable st ->
    phase st = Loaded ->
    codeGrid (projectsView st) = Some cards ->
    nth_error cards i = Some c ->
    exists p : Project,
      nth_error (projects (projectData (globals st))) i = Some p /\
      c = project_card p /\
      handle (ClickCard i) st
      = match project_link p with
        | Some (u :: url) => log (Navigate (u :: url)) st
        | _ => st
        end.
Proof.
  intros st cards i c Hr Hp Hg Hc.
  destruct (paginated_loaded st (paginated_reachable st Hr) Hp) as (_ & Hcards).
  destruct (Hcards cards Hg) as (E & _).
  assert (Hi : exists p, nth_error (projects (projectData (globals st))) i = Some p /\
                         c = project_card p).
  { rewrite E, nth_error_map, nth_error_firstn in Hc. unfold all_projects in Hc.
    destruct (i <? _)%nat; [|discriminate].
    destruct (nth_error (projects (projectData (globals st))) i) as [p|]; [|discriminate].
    injection Hc as <-. now exists p. }
  destruct Hi as (p & Hi & ->). exists p. split; [exact Hi|]. split; [reflexivity|].
  unfold handle. cbn [listener]. rewrite Hg, Hc.
  unfold card_click, project_card, after.
  destruct (project_link p) as [[|u url]|]; reflexivity.
Qed.

Lemma card_click_navigates_witness :
  exists p : Project,
    nth_error (projects (projectData (globals sample_more))) 7 = Some p /\
    handle (ClickCard 7) sample_more = sample_more.
Proof.
  destruct (card_click_navigates sample_more
              (map project_card (projects sample_projectData)) 7
              (project_card (sample_project 7)) sample_more_reachable)
    as (p & Hp & _ & Hc); try reflexivity.
  exists p. split; [exact Hp|].
  rewrite Hc. injection Hp as <-. reflexivity.
Defined.

(** X13. Once every project is shown on a loaded page with the grid and
    the button, nothing changes that: whatever events follow (further
    clicks on "load more" among them), the grid holds the same cards, one
    per project of the catalog in order, and the button is hidden. *)
Theorem all_shown_is_final :
  forall (st : State) (cards : list Card),
    reachable st ->
    phase st = Loaded ->
    codeGrid (projectsView st) = Some cards ->
    is_some (loadMoreProjects (projectsView st)) = true ->
    Z.of_nat (length (projects (projectData (globals st)))) <= displayedProjectCount (globals st) ->
    cards = map project_card (projects (projectData (globals st))) /\
    forall es : list Event,
      codeGrid (projectsView (run_events es st)) = Some cards /\
      loadMoreProjects (projectsView (run_events es st)) = Some DisplayNone.
Proof.
  intros st cards Hr Hp Hg Hb Hall.
  assert (Hfull : forall s,
             reachable s -> phase s = Loaded ->
             projectData (globals s) = projectData (globals st) ->
             displayed st <= displayed s ->
             forall cs, codeGrid (projectsView s) = Some cs ->
                        cs = map project_card (projects (projectData (globals st))) /\
                        forall d, loadMoreProjects (projectsView s) = Some d -> d = DisplayNone).
  { intros s Hrs Hps Hd Hle cs Hcs.
    destruct (paginated_loaded s (paginated_reachable s Hrs) Hps) as (_ & Hcards).
    destruct (Hcards cs Hcs) as (E & _ & Hbtn). unfold all_projects, displayed in *.
    rewrite Hd in *. split.
    - rewrite E, Z.min_r, Nat2Z.id by lia. now rewrite firstn_all.
    - intros d Hd'. destruct (Hbtn d Hd') as (_ & _ & H). apply H. lia. }
  split; [apply (Hfull st Hr Hp eq_refl (Z.le_refl _) cards Hg)|].
  intros es.
  destruct (run_events_when_loaded es st Hp Hb) as (Hp' & Hd' & Hg' & Hb' & _).
  pose proof (displayed_monotone es st) as Hm.
  pose proof (reachable_run_events es st Hr) as Hr'.
  rewrite Hg in Hg'. cbn [is_some] in Hg'.
  destruct (codeGrid (projectsView (run_events es st))) as [cs|] eqn:Ecs; [|discriminate].
  destruct (loadMoreProjects (projectsView (run_events es st))) as [d|] eqn:Ed; [|discriminate].
  destruct (Hfull _ Hr' Hp' Hd' Hm cs Ecs) as (-> & Hbtn).
  destruct (Hfull st Hr Hp eq_refl (Z.le_refl _) cards Hg) as (-> & _).
  split; [reflexivity|]. now rewrite (Hbtn d Ed).
Qed.

Lemma all_shown_is_final_witness :
  codeGrid (projectsView (run_events [ClickLoadMore; ClickLoadMore] sample_more))
  = Some (map project_card (projects sample_projectData)) /\
  loadMoreProjects (projectsView (run_events [ClickLoadMore; ClickLoadMore] sample_more))
  = Some DisplayNone.
Proof.
  destruct (all_shown_is_final sample_more (map project_card (projects sample_projectData))
                               sample_more_reachable)
    as (_ & H); try reflexivity.
  - vm_compute. discriminate.
  - exact (H [ClickLoadMore; ClickLoadMore]).
Defined.

(** ** The data load, from start to end *)

Lemma timers_logged (l : list nat) :
  forall st,
    fold_left (fun s index => log (SetTimeout index (Z.of_nat index * 150 + 400)) s) l st
    = mkState (globals st) (projectsView st) (galleryView st) (lightboxView st) (pageView st)
              (phase st)
              (rev (map (fun index => SetTimeout index (Z.of_nat index * 150 + 400)) l)
               ++ effects st).
Proof.
  induction l as [|i l IH]; intros st; [now destruct st|].
  cbn [fold_left map rev]. rewrite IH. cbn [log globals projectsView galleryView lightboxView
                                               pageView phase effects].
  now rewrite <- app_assoc.
Qed.

Lemma animateHero_spec (st : State) :
  animateHero st
  = (mkState (globals st) (projectsView st) (galleryView st) (lightboxView st) (pageView st)
             (phase st)
             (hero_timers (heroText (pageView st)) ++ Called FanimateHero :: effects st),
     Returned).
Proof. unfold animateHero, ret, hero_timers. now rewrite timers_logged. Qed.

Lemma loadFeaturedArt_frame (st : State) :
  let st' := fst (loadFeaturedArt st) in
  snd (loadFeaturedArt st) = Returned /\
  globals st' = globals st /\ projectsView st' = projectsView st /\
  galleryView st' = galleryView st /\ lightboxView st' = lightboxView st /\
  phase st' = phase st /\
  heroText (pageView st') = heroText (pageView st) /\
  anchors (pageView st') = anchors (pageView st) /\
  bodyOverflow (pageView st') = bodyOverflow (pageView st) /\
  effects st' = Called FloadFeaturedArt :: effects st.
Proof.
  unfold loadFeaturedArt. cbn [log pageView featuredArtGrid].
  destruct (featuredArtGrid (pageView st)); cbn; repeat split.
Qed.

Lemma loadCodeProjects_page (initial : bool) (st : State) :
  let st' := fst (loadCodeProjects initial st) in
  heroText (pageView st') = heroText (pageView st) /\
  anchors (pageView st') = anchors (pageView st) /\
  featuredArtGrid (pageView st') = featuredArtGrid (pageView st) /\
  bodyOverflow (pageView st') = bodyOverflow (pageView st) /\
  revealObservers (pageView st')
  = (if is_some (codeGrid (projectsView st)) then S (revealObservers (pageView st))
     else revealObservers (pageView st)).
Proof.
  destruct st as [g [cg lm] gv lv pg ph ef].
  unfold loadCodeProjects. cbn -[fold_left indexed slice0 Z.geb Z.sub].
  destruct cg as [grid0|]; [|cbn; repeat split].
  destruct lm as [d|]; cbn -[fold_left indexed slice0 Z.geb Z.sub]; repeat split.
Qed.

(** X10. When the three fetches resolve and the three documents parse,
    [loadData] replaces [artData] and [projectData] by the parsed catalogs
    and then calls [updateLinks], [loadCodeProjects(true)],
    [loadFeaturedArt] and [animateHero], in that order and each once;
    [animateHero] sets one timer per [.hero-text] element, element [k]
    after 400 + 150k milliseconds; no error is logged, the counter is left
    alone, and a project grid that is there holds the first page. *)
Theorem loadData_success :
  forall (st : State) (a : ArtCatalog) (p : ProjectCatalog) (l : LinksConfig),
    let r := loadData_settle true (Some a) (Some p) (Some l) st in
    snd r = Returned /\
    phase (fst r) = Loaded /\
    artData (globals (fst r)) = a /\
    projectData (globals (fst r)) = p /\
    displayedProjectCount (globals (fst r)) = displayedProjectCount (globals st) /\
    effects (fst r)
    = hero_timers (heroText (pageView st))
      ++ [Called FanimateHero; Called FloadFeaturedArt; Called (FloadCodeProjects true);
          Called FupdateLinks]
      ++ effects st /\
    (forall grid0,
        codeGrid (projectsView st) = Some grid0 ->
        codeGrid (projectsView (fst r))
        = Some (map project_card (slice0 (projects p) (displayedProjectCount (globals st))))).
Proof.
  intros st a p l. cbn zeta. unfold loadData_settle, try_catch.
  rewrite andThen_returned by reflexivity.
  rewrite andThen_returned by reflexivity.
  rewrite andThen_returned by reflexivity.
  cbn [resume_fetch resume_art resume_projects lift andThen fst].
  set (s0 := set_phase ParsingLinks _).
  unfold resume_links.
  rewrite andThen_returned by (now rewrite updateLinks_spec).
  rewrite updateLinks_spec. cbn [fst].
  set (s1 := set_anchors _ _).
  destruct (loadCodeProjects_spec true s1) as (R2 & G2 & Ph2 & _ & _ & P2 & E2).
  destruct (loadCodeProjects_page true s1) as (H2 & _).
  rewrite andThen_returned by exact R2.
  set (s2 := fst (loadCodeProjects true s1)) in *.
  destruct (loadFeaturedArt_frame s2) as (R3 & G3 & P3 & _ & _ & Ph3 & H3 & _ & _ & E3).
  rewrite andThen_returned by exact R3.
  set (s3 := fst (loadFeaturedArt s2)) in *.
  rewrite andThen_returned by (now rewrite animateHero_spec).
  rewrite animateHero_spec.
  cbn [fst snd lift set_phase globals projectsView phase effects].
  rewrite G3, G2, P3, P2, H3, H2, E3, E2.
  split; [reflexivity|]. split; [reflexivity|]. split; [reflexivity|].
  split; [reflexivity|]. split; [reflexivity|]. split; [reflexivity|].
  intros grid0 Hg.
  change (codeGrid (projectsView s1)) with (codeGrid (projectsView st)).
  now rewrite Hg.
Qed.

(** X11. When a fetch is rejected, or the fetches resolve and [art.json]
    does not parse, [loadData] replaces nothing and calls nothing: globals
    and page are as they were, and the only effect is one console error. *)
Theorem loadData_early_failure :
  forall (st : State) (fetched : bool) (ra : option ArtCatalog) (rp : option ProjectCatalog)
         (rl : option LinksConfig),
    fetched = false \/ ra = None ->
    let r := loadData_settle fetched ra rp rl st in
    snd r = Returned /\
    globals (fst r) = globals st /\
    projectsView (fst r) = projectsView st /\
    galleryView (fst r) = galleryView st /\
    lightboxView (fst r) = lightboxView st /\
    pageView (fst r) = pageView st /\
    phase (fst r) = LoadFailed /\
    effects (fst r) = ConsoleError :: effects st.
Proof.
  intros st fetched ra rp rl H. cbn zeta.
  destruct fetched; [|repeat split].
  destruct H as [H | ->]; [discriminate|]. repeat split.
Qed.

Lemma loadData_early_failure_witness :
  globals (fst (loadData_settle true None (Some sample_projectData) (Some sample_links)
                                sample_fetching))
  = globals sample_fetching /\
  effects (fst (loadData_settle false (Some sample_artData) (Some sample_projectData)
                                (Some sample_links) sample_fetching))
  = [ConsoleError].
Proof.
  destruct (loadData_early_failure sample_fetching true None (Some sample_projectData)
                                   (Some sample_links) (or_intror eq_refl))
    as (_ & Hg & _).
  destruct (loadData_early_failure sample_fetching false (Some sample_artData)
                                   (Some sample_projectData) (Some sample_links)
                                   (or_introl eq_refl))
    as (_ & _ & _ & _ & _ & _ & _ & He).
  split; [exact Hg|exact He].
Defined.

Lemma with_listener_spec (a : Anchor) :
  href (with_listener a) = href a /\
  (smooth a = false ->
   smooth (with_listener a) = match href a with
                              | Some h => startsWith h (lit "#")
                              | None => false
                              end).
Proof.
  unfold with_listener. destruct a as [[h|] r d s]; cbv beta iota delta [href smooth].
  - destruct (startsWith h (lit "#")); split; auto.
  - split; auto.
Qed.

Lemma domContentLoaded_spec (st : State) :
  domContentLoaded st
  = (let s := set_anchors (map with_listener (anchors (pageView st))) (set_phase Fetching st) in
     if is_some (imageModal (lightboxView st))
     then (set_revealObservers (S (revealObservers (pageView st))) s, Returned)
     else (s, Threw)).
Proof.
  unfold domContentLoaded, setupEventListeners, setupLoadMore, setupGallery,
    setupSmoothScroll, setupLightboxControls, loadData_start, setupScrollAnimations,
    andThen, lift, ret, throw.
  cbv beta iota zeta.
  change (imageModal (lightboxView (set_anchors ?l (set_phase Fetching st))))
    with (imageModal (lightboxView st)).
  now destruct (imageModal (lightboxView st)).
Qed.

(** X12. Start-up begins the data load and registers the scroll listeners
    on exactly the anchors whose href starts with [#], leaving every href
    as it is; on a page with the image modal it then creates the first
    observer, while on a page without it the set-up of the lightbox
    controls throws and no observer is created at start-up. *)
Theorem startup_registers_listeners :
  forall st : State,
    phase st = NotStarted ->
    Forall (fun a => smooth a = false) (anchors (pageView st)) ->
    let st' := handle DOMContentLoaded st in
    phase st' = Fetching /\
    globals st' = globals st /\
    effects st' = effects st /\
    load_more_registered st' = is_some (loadMoreProjects (projectsView st)) /\
    map href (anchors (pageView st')) = map href (anchors (pageView st)) /\
    (forall i a', nth_error (anchors (pageView st')) i = Some a' ->
                  smooth a' = match href a' with
                              | Some h => startsWith h (lit "#")
                              | None => false
                              end) /\
    revealObservers (pageView st')
    = (if is_some (imageModal (lightboxView st)) then S (revealObservers (pageView st))
       else revealObservers (pageView st)) /\
    snd (domContentLoaded st)
    = (if is_some (imageModal (lightboxView st)) then Returned else Threw).
Proof.
  intros st Hp Hsm. cbn zeta.
  unfold handle. cbn [listener]. rewrite <- Hp, in_phase_refl.
  unfold after. rewrite domContentLoaded_spec. cbv zeta.
  assert (Hh : map href (map with_listener (anchors (pageView st)))
               = map href (anchors (pageView st))).
  { rewrite map_map. apply map_ext. intros a. apply with_listener_spec. }
  assert (Hs : forall i a',
             nth_error (map with_listener (anchors (pageView st))) i = Some a' ->
             smooth a' = match href a' with
                         | Some h => startsWith h (lit "#")
                         | None => false
                         end).
  { intros i a' Hi. rewrite nth_error_map in Hi.
    destruct (nth_error (anchors (pageView st)) i) as [a|] eqn:Ea; [|discriminate].
    apply nth_error_In in Ea. rewrite Forall_forall in Hsm. specialize (Hsm a Ea).
    assert (Ha : a' = with_listener a) by (unfold option_map in Hi; congruence).
    subst a'. destruct (with_listener_spec a) as (E1 & E2). now rewrite E1, E2. }
  destruct (imageModal (lightboxView st)); cbv beta iota delta [is_some fst snd];
    unfold load_more_registered, started;
    cbn [set_revealObservers set_anchors set_pageView set_phase phase globals effects
         projectsView pageView anchors revealObservers andb];
    repeat split; auto.
Qed.

Lemma startup_registers_listeners_witness :
  phase (handle DOMContentLoaded sample_page) = Fetching /\
  map smooth (anchors (pageView (handle DOMContentLoaded sample_page))) = [true; false].
Proof.
  destruct (startup_registers_listeners sample_page) as (Hp & _).
  - reflexivity.
  - repeat constructor.
  - split; [exact Hp|reflexivity].
Defined.

(** ** Who assigns the catalogs *)

Lemma keeps_ret : keeps_catalogs ret.
Proof. intros st. reflexivity. Qed.

Lemma keeps_andThen (f g : Handler) :
  keeps_catalogs f -> keeps_catalogs g -> keeps_catalogs (f ;; g).
Proof.
  intros Hf Hg st. unfold andThen. specialize (Hf st).
  destruct (f st) as [st' []]; cbn [fst] in *; [now rewrite Hg|assumption].
Qed.

Lemma keeps_if (b : bool) (f g : Handler) :
  keeps_catalogs f -> keeps_catalogs g -> keeps_catalogs (if b then f else g).
Proof. now destruct b. Qed.

Lemma keeps_lift (f : State -> State) :
  (forall st, catalogs (f st) = catalogs st) -> keeps_catalogs (lift f).
Proof. intros H st. apply H. Qed.

Lemma keeps_updateLightboxContent : keeps_catalogs updateLightboxContent.
Proof.
  intros st. destruct (updateLightboxContent_spec st) as (G & _).
  pose proof (off_updateLightboxContent st) as O. apply pagination_eq in O.
  destruct O as (_ & _ & _ & P & _). unfold catalogs. now rewrite G, P.
Qed.

Lemma keeps_generateThumbnails : keeps_catalogs generateThumbnails.
Proof. intros st. unfold generateThumbnails. now destruct (thumbnailStrip _). Qed.

Lemma keeps_closeLightbox : keeps_catalogs closeLightbox.
Proof. intros st. unfold closeLightbox. now destruct (imageModal _). Qed.

Lemma keeps_openLightbox (src : list ArtItem) (i : jsnum) : keeps_catalogs (openLightbox src i).
Proof.
  unfold openLightbox.
  repeat apply keeps_andThen; try (apply keeps_lift; reflexivity);
    auto using keeps_updateLightboxContent, keeps_generateThumbnails.
  intros st. now destruct (imageModal _).
Qed.

Lemma keeps_nextImage (e : bool) : keeps_catalogs (nextImage e).
Proof.
  unfold nextImage.
  repeat apply keeps_andThen; try apply keeps_if; try (apply keeps_lift; reflexivity);
    auto using keeps_ret, keeps_updateLightboxContent.
Qed.

Lemma keeps_prevImage (e : bool) : keeps_catalogs (prevImage e).
Proof.
  unfold prevImage.
  repeat apply keeps_andThen; try apply keeps_if; try (apply keeps_lift; reflexivity);
    auto using keeps_ret, keeps_updateLightboxContent.
Qed.

Lemma keeps_keydown (key : jsstring) : keeps_catalogs (keydown key).
Proof.
  intros st. unfold keydown.
  destruct (imageModal _) as [cl|]; [|reflexivity].
  destruct (negb (cl_hidden cl)); [|reflexivity].
  revert st. repeat apply keeps_andThen; apply keeps_if;
    auto using keeps_ret, keeps_closeLightbox, keeps_nextImage, keeps_prevImage.
Qed.

Lemma keeps_viewAll_click : keeps_catalogs viewAll_click.
Proof.
  intros st. unfold viewAll_click.
  destruct (fullGalleryGrid _); [|reflexivity].
  cbn [set_fullGalleryGrid set_galleryView galleryView galleryModal].
  now destruct (galleryModal (galleryView st)).
Qed.

Lemma keeps_galleryClose_click : keeps_catalogs galleryClose_click.
Proof. intros st. unfold galleryClose_click. now destruct (galleryModal _). Qed.

Lemma keeps_thumbnail_click (t : Thumb) : keeps_catalogs (thumbnail_click t).
Proof.
  unfold thumbnail_click.
  repeat apply keeps_andThen; try (apply keeps_lift; reflexivity);
    auto using keeps_updateLightboxContent.
Qed.

Lemma keeps_card_click (c : Card) : keeps_catalogs (card_click c).
Proof.
  unfold card_click. destruct (card_onclick c); [apply keeps_lift; reflexivity|apply keeps_ret].
Qed.

Lemma keeps_anchor_click (a : Anchor) (ly : Layout) : keeps_catalogs (anchor_click a ly).
Proof.
  intros st. unfold anchor_click.
  destruct (href a) as [t|]; [|reflexivity].
  destruct (_ || _); [reflexivity|].
  destruct (jsstring_eqb _ _); [reflexivity|].
  destruct (querySelector ly t); reflexivity.
Qed.

Lemma keeps_loadMore_click : keeps_catalogs loadMore_click.
Proof.
  intros st. unfold loadMore_click.
  rewrite andThen_returned by reflexivity. cbn [lift fst].
  match goal with
  | |- catalogs (fst (loadCodeProjects false ?s)) = _ =>
      destruct (loadCodeProjects_spec false s) as (_ & G & P & _)
  end.
  unfold catalogs. now rewrite G, P.
Qed.

Lemma user_listener_keeps (e : Event) (st : State) :
  user_event e = true -> keeps_catalogs (listener e st).
Proof.
  destruct e as [|ok|r|r|r| |i| | |i|i| | | | |key|i ly]; cbn [user_event listener];
    try discriminate; intros _.
  - destruct (_ && _); auto using keeps_loadMore_click, keeps_ret.
  - destruct (codeGrid _) as [cards|]; [|apply keeps_ret].
    destruct (nth_error cards i); auto using keeps_card_click, keeps_ret.
  - destruct (_ && _); auto using keeps_viewAll_click, keeps_ret.
  - destruct (_ && _); auto using keeps_galleryClose_click, keeps_ret.
  - destruct (fullGalleryGrid _) as [items|]; [|apply keeps_ret].
    destruct (nth_error items i); [apply keeps_openLightbox|apply keeps_ret].
  - destruct (thumbnailStrip _) as [thumbs|]; [|apply keeps_ret].
    destruct (nth_error thumbs i); auto using keeps_thumbnail_click, keeps_ret.
  - destruct (_ && _); auto using keeps_closeLightbox, keeps_ret.
  - destruct (_ && _); auto using keeps_nextImage, keeps_ret.
  - destruct (_ && _); auto using keeps_prevImage, keeps_ret.
  - destruct (_ && _); auto using keeps_closeLightbox, keeps_ret.
  - destruct (_ && _); auto using keeps_keydown, keeps_ret.
  - destruct (nth_error _ i) as [a|]; [|apply keeps_ret].
    destruct (smooth a); auto using keeps_anchor_click, keeps_ret.
Qed.

Lemma user_events_keep (es : list Event) :
  forall st, forallb user_event es = true -> catalogs (run_events es st) = catalogs st.
Proof.
  induction es as [|e es IH]; intros st H; [reflexivity|].
  cbn [forallb] in H. apply andb_prop in H. destruct H as [He Hes].
  cbn [run_events fold_left]. fold (run_events es (handle e st)).
  rewrite IH by exact Hes. apply (user_listener_keeps e st He).
Qed.

(** One event and the two catalogs: a parsed [art.json] is the only thing
    ever assigned to [artData], a parsed [project.json] to [projectData]. *)
Lemma handle_catalogs (e : Event) (st : State) :
  (artData (globals (handle e st)) = artData (globals st) \/
   exists a, e = ArtJson (Some a) /\ artData (globals (handle e st)) = a) /\
  (projectData (globals (handle e st)) = projectData (globals st) \/
   exists p, e = ProjectJson (Some p) /\ projectData (globals (handle e st)) = p).
Proof.
  destruct (user_event e) eqn:Hu.
  - pose proof (user_listener_keeps e st Hu st) as H. unfold catalogs in H.
    injection H as Ha Hp _. unfold handle, after. now split; left.
  - unfold handle, after.
    destruct e as [|ok|r|r|r| |i| | |i|i| | | | |key|i ly]; try discriminate Hu;
      cbn [listener]; (destruct (in_phase _ st); [|now split; left]).
    + rewrite domContentLoaded_spec. cbv zeta.
      destruct (is_some (imageModal (lightboxView st))); now split; left.
    + destruct ok; now split; left.
    + destruct r as [a|]; [|now split; left].
      split; [right; now exists a|now left].
    + destruct r as [p|]; [|now split; left].
      split; [now left|right; now exists p].
    + destruct r as [l|]; [|now split; left].
      unfold try_catch. destruct (resume_links_spec l st) as (R & _ & G & _).
      destruct (resume_links (Some l) st) as [st' o]. cbn [fst snd] in *. subst o.
      cbn [fst]. rewrite G. now split; left.
Qed.

(** X17. Only the data load assigns the catalogs.  No click and no key
    changes [artData], [projectData] or the state of the load, in whatever
    state the page is; and after any events [artData] is what it was or a
    catalog that a parse of [art.json] delivered among them, and
    [projectData] what it was or one that a parse of [project.json]
    delivered. *)
Theorem catalogs_change_only_on_load :
  forall (st : State) (es : list Event),
    (forallb user_event es = true ->
     artData (globals (run_events es st)) = artData (globals st) /\
     projectData (globals (run_events es st)) = projectData (globals st) /\
     phase (run_events es st) = phase st) /\
    (artData (globals (run_events es st)) = artData (globals st) \/
     exists a, In (ArtJson (Some a)) es /\ artData (globals (run_events es st)) = a) /\
    (projectData (globals (run_events es st)) = projectData (globals st) \/
     exists p, In (ProjectJson (Some p)) es /\ projectData (globals (run_events es st)) = p).
Proof.
  intros st es. split.
  - intros H. pose proof (user_events_keep es st H) as Hc. unfold catalogs in Hc.
    injection Hc as Ha Hp Hph. auto.
  - revert st. induction es as [|e es IH]; intros st; [now split; left|].
    cbn [run_events fold_left]. fold (run_events es (handle e st)).
    destruct (IH (handle e st)) as (IHa & IHp).
    destruct (handle_catalogs e st) as (Ha & Hp). split.
    + destruct IHa as [E|(a & Hin & E)]; [|right; exists a; split; [now right|exact E]].
      rewrite E. destruct Ha as [Ha|(a & -> & Ha)]; [now left|].
      right. exists a. split; [now left|exact Ha].
    + destruct IHp as [E|(p & Hin & E)]; [|right; exists p; split; [now right|exact E]].
      rewrite E. destruct Hp as [Hp|(p & -> & Hp)]; [now left|].
      right. exists p. split; [now left|exact Hp].
Qed.

(** ** The lightbox never leaves its source *)

Lemma lightbox_part_eq (st st' : State) :
  lightbox_part st' = lightbox_part st ->
  currentLightboxIndex (globals st') = currentLightboxIndex (globals st) /\
  currentLightboxSource (globals st') = currentLightboxSource (globals st) /\
  fullGalleryGrid (galleryView st') = fullGalleryGrid (galleryView st) /\
  strip_indices st' = strip_indices st /\
  is_some (imageModal (lightboxView st')) = is_some (imageModal (lightboxView st)) /\
  is_some (modalImg (lightboxView st')) = is_some (modalImg (lightboxView st)).
Proof. unfold lightbox_part. intros H. injection H. auto 10. Qed.

Lemma safe_ext (st st' : State) :
  lightbox_part st' = lightbox_part st -> lightbox_safe st -> lightbox_safe st'.
Proof.
  intros H. apply lightbox_part_eq in H. destruct H as (I & S & G & T & M & P).
  unfold lightbox_safe. now rewrite I, S, G, T, M, P.
Qed.

Lemma keeps_safe_off (h : Handler) : off_lightbox h -> keeps_safe h.
Proof. intros H st. apply safe_ext, H. Qed.

Lemma keeps_safe_ret : keeps_safe ret.
Proof. intros st H. exact H. Qed.

Lemma keeps_safe_andThen (f g : Handler) : keeps_safe f -> keeps_safe g -> keeps_safe (f ;; g).
Proof.
  intros Hf Hg st Hs. unfold andThen. specialize (Hf st Hs).
  destruct (f st) as [st' []]; cbn [fst] in *; [now apply Hg|assumption].
Qed.

Lemma keeps_safe_if (b : bool) (f g : Handler) :
  keeps_safe f -> keeps_safe g -> keeps_safe (if b then f else g).
Proof. now destruct b. Qed.

Lemma offl_ret : off_lightbox ret.
Proof. intros st. reflexivity. Qed.

Lemma offl_throw : off_lightbox throw.
Proof. intros st. reflexivity. Qed.

Lemma offl_andThen (f g : Handler) : off_lightbox f -> off_lightbox g -> off_lightbox (f ;; g).
Proof.
  intros Hf Hg st. unfold andThen. specialize (Hf st).
  destruct (f st) as [st' []]; cbn [fst] in *; [now rewrite Hg|assumption].
Qed.

Lemma offl_try_catch (f g : Handler) :
  off_lightbox f -> off_lightbox g -> off_lightbox (try_catch f g).
Proof.
  intros Hf Hg st. unfold try_catch. specialize (Hf st).
  destruct (f st) as [st' []]; cbn [fst] in *; [assumption|now rewrite Hg].
Qed.

Lemma offl_lift (f : State -> State) :
  (forall st, lightbox_part (f st) = lightbox_part st) -> off_lightbox (lift f).
Proof. intros H st. apply H. Qed.

Lemma offl_views (st st' : State) :
  globals st' = globals st -> galleryView st' = galleryView st ->
  lightboxView st' = lightboxView st -> lightbox_part st' = lightbox_part st.
Proof. intros G V L. unfold lightbox_part, strip_indices. now rewrite G, V, L. Qed.

Lemma offl_updateLinks (links : LinksConfig) : off_lightbox (updateLinks links).
Proof. intros st. now rewrite updateLinks_spec. Qed.

Lemma offl_loadCodeProjects (initial : bool) : off_lightbox (loadCodeProjects initial).
Proof.
  intros st. destruct (loadCodeProjects_spec initial st) as (_ & G & _ & V & L & _).
  now apply offl_views.
Qed.

Lemma offl_loadFeaturedArt : off_lightbox loadFeaturedArt.
Proof.
  intros st. destruct (loadFeaturedArt_frame st) as (_ & G & _ & V & L & _).
  now apply offl_views.
Qed.

Lemma offl_animateHero : off_lightbox animateHero.
Proof. intros st. now rewrite animateHero_spec. Qed.

Lemma offl_loadMore_click : off_lightbox loadMore_click.
Proof.
  unfold loadMore_click. apply offl_andThen; [apply offl_lift; reflexivity|].
  apply offl_loadCodeProjects.
Qed.

Lemma offl_card_click (c : Card) : off_lightbox (card_click c).
Proof.
  unfold card_click. destruct (card_onclick c); [apply offl_lift; reflexivity|apply offl_ret].
Qed.

Lemma offl_anchor_click (a : Anchor) (ly : Layout) : off_lightbox (anchor_click a ly).
Proof.
  intros st. unfold anchor_click.
  destruct (href a) as [t|]; [|reflexivity].
  destruct (_ || _); [reflexivity|].
  destruct (jsstring_eqb _ _); [reflexivity|].
  destruct (querySelector ly t); reflexivity.
Qed.

Lemma offl_galleryClose_click : off_lightbox galleryClose_click.
Proof. intros st. unfold galleryClose_click. now destruct (galleryModal _). Qed.

Lemma offl_closeLightbox : off_lightbox closeLightbox.
Proof.
  intros st. unfold closeLightbox, lightbox_part, strip_indices.
  destruct (imageModal (lightboxView st)) eqn:E; cbn; now rewrite ?E.
Qed.

Lemma offl_domContentLoaded : off_lightbox domContentLoaded.
Proof.
  intros st. rewrite domContentLoaded_spec. cbv zeta.
  now destruct (is_some (imageModal (lightboxView st))).
Qed.

Lemma offl_loader (e : Event) (st : State) :
  match e with
  | FetchesSettled _ | ArtJson _ | ProjectJson _ | LinksJson _ | DOMContentLoaded => True
  | _ => False
  end ->
  off_lightbox (listener e st).
Proof.
  assert (Hc : off_lightbox loadData_catch) by (apply offl_lift; reflexivity).
  destruct e as [|ok|r|r|r| |i| | |i|i| | | | |key|i ly]; try contradiction; intros _;
    cbn [listener].
  - destruct (in_phase _ _); [apply offl_domContentLoaded|apply offl_ret].
  - destruct (in_phase _ _); [|apply offl_ret]. apply offl_try_catch; [|exact Hc].
    destruct ok; [apply offl_lift; reflexivity|apply offl_throw].
  - destruct (in_phase _ _); [|apply offl_ret]. apply offl_try_catch; [|exact Hc].
    destruct r; [|apply offl_throw].
    apply offl_andThen; apply offl_lift; reflexivity.
  - destruct (in_phase _ _); [|apply offl_ret]. apply offl_try_catch; [|exact Hc].
    destruct r; [|apply offl_throw].
    apply offl_andThen; apply offl_lift; reflexivity.
  - destruct (in_phase _ _); [|apply offl_ret]. apply offl_try_catch; [|exact Hc].
    destruct r; [|apply offl_throw]. unfold resume_links.
    apply offl_andThen; [apply offl_updateLinks|].
    apply offl_andThen; [apply offl_loadCodeProjects|].
    apply offl_andThen; [apply offl_loadFeaturedArt|].
    apply offl_andThen; [apply offl_animateHero|].
    apply offl_lift. reflexivity.
Qed.

Lemma map_index_marked (current : jsnum) (thumbs : list Thumb) :
  map thumb_index (marked current thumbs) = map thumb_index thumbs.
Proof.
  apply nth_error_ext. intros k. rewrite !nth_error_map, marked_nth.
  now destruct (nth_error thumbs k).
Qed.

Lemma offl_updateLightboxContent : off_lightbox updateLightboxContent.
Proof.
  intros st. unfold updateLightboxContent.
  destruct (js_get _ _) as [item|]; [|reflexivity].
  destruct (modalImg (lightboxView st)) as [img0|] eqn:Hi; [|reflexivity].
  cbn [set_modalImg set_lightboxView lightboxView thumbnailStrip].
  destruct (thumbnailStrip (lightboxView st)) as [thumbs|] eqn:Ht.
  - unfold ret. cbn [fst].
    match goal with
    | |- context [fold_left ?f ?l ?s] =>
        destruct (scroll_marks_frame (currentLightboxIndex (globals st)) l s) as (G & L & V & _)
    end.
    cbn zeta in G, L, V. unfold lightbox_part, strip_indices. rewrite G, L, V.
    cbn. rewrite Ht, Hi. cbn.
    fold (marked (currentLightboxIndex (globals st)) thumbs).
    now rewrite map_index_marked.
  - unfold lightbox_part, strip_indices. cbn. now rewrite Ht, Hi.
Qed.

Lemma safe_set_index (st : State) (n : jsnum) :
  lightbox_safe st ->
  (currentLightboxSource (globals st) = [] \/
   exists i, n = Num (Z.of_nat i) /\ (i < length (currentLightboxSource (globals st)))%nat) ->
  lightbox_safe (set_currentLightboxIndex n st).
Proof.
  intros (A & B & _) C. split; [exact A|]. split; [exact B|exact C].
Qed.

Lemma keeps_safe_step (f : State -> jsnum) :
  (forall st i,
      currentLightboxIndex (globals st) = Num (Z.of_nat i) ->
      (i < length (currentLightboxSource (globals st)))%nat ->
      exists j, f st = Num (Z.of_nat j) /\
                (j < length (currentLightboxSource (globals st)))%nat) ->
  keeps_safe (lift (fun st => set_currentLightboxIndex (f st) st)).
Proof.
  intros Hf st Hs. cbn [lift fst]. apply safe_set_index; [exact Hs|].
  destruct Hs as (_ & _ & [C|(i & Hi & Hr)]); [now left|right].
  exact (Hf st i Hi Hr).
Qed.

Lemma keeps_safe_nextImage (e : bool) : keeps_safe (nextImage e).
Proof.
  unfold nextImage. apply keeps_safe_andThen.
  { apply keeps_safe_off. destruct e; [apply offl_lift; reflexivity|apply offl_ret]. }
  apply keeps_safe_andThen; [|apply keeps_safe_off, offl_updateLightboxContent].
  apply keeps_safe_step. intros st i Hi Hr. unfold source_length. rewrite Hi.
  cbn [js_add js_rem].
  set (L := Z.of_nat (length (currentLightboxSource (globals st)))).
  assert (HL : Z.of_nat i < L) by (unfold L; lia).
  destruct (Z.eqb_spec L 0); [lia|].
  rewrite Z.rem_mod_nonneg by lia.
  assert (Hj : 0 <= (Z.of_nat i + 1) mod L < L) by (apply Z.mod_pos_bound; lia).
  exists (Z.to_nat ((Z.of_nat i + 1) mod L)). split; [now rewrite Z2Nat.id by lia|].
  subst L. lia.
Qed.

Lemma keeps_safe_prevImage (e : bool) : keeps_safe (prevImage e).
Proof.
  unfold prevImage. apply keeps_safe_andThen.
  { apply keeps_safe_off. destruct e; [apply offl_lift; reflexivity|apply offl_ret]. }
  apply keeps_safe_andThen; [|apply keeps_safe_off, offl_updateLightboxContent].
  apply keeps_safe_step. intros st i Hi Hr. unfold source_length. rewrite Hi.
  cbn [js_add js_sub js_rem].
  set (L := Z.of_nat (length (currentLightboxSource (globals st)))).
  assert (HL : Z.of_nat i < L) by (unfold L; lia).
  destruct (Z.eqb_spec L 0); [lia|].
  rewrite Z.rem_mod_nonneg by lia.
  assert (Hj : 0 <= (Z.of_nat i - 1 + L) mod L < L) by (apply Z.mod_pos_bound; lia).
  exists (Z.to_nat ((Z.of_nat i - 1 + L) mod L)). split; [now rewrite Z2Nat.id by lia|].
  subst L. lia.
Qed.

Lemma keeps_safe_keydown (key : jsstring) : keeps_safe (keydown key).
Proof.
  intros st Hs. unfold keydown.
  destruct (imageModal (lightboxView st)) as [cl|]; [|exact Hs].
  destruct (negb (cl_hidden cl)); [|exact Hs].
  revert st Hs.
  change (keeps_safe ((if jsstring_eqb key (lit "Escape") then closeLightbox else ret) ;;
                      (if jsstring_eqb key (lit "ArrowRight") then nextImage false else ret) ;;
                      (if jsstring_eqb key (lit "ArrowLeft") then prevImage false else ret))).
  repeat apply keeps_safe_andThen; apply keeps_safe_if;
    auto using keeps_safe_ret, keeps_safe_nextImage, keeps_safe_prevImage.
  apply keeps_safe_off, offl_closeLightbox.
Qed.

Lemma in_gallery_of (allArt : list ArtItem) (it : GalleryItem) :
  In it (gallery_of allArt) ->
  item_source it = allArt /\ (item_index it < length allArt)%nat.
Proof.
  intros H. apply In_nth_error in H. destruct H as [k Hk].
  rewrite gallery_of_nth in Hk.
  destruct (nth_error allArt k) as [art|] eqn:E; [|discriminate].
  injection Hk as <-. split; [reflexivity|]. cbn.
  apply nth_error_Some. now rewrite E.
Qed.

Lemma keeps_safe_viewAll_click : keeps_safe viewAll_click.
Proof.
  intros st Hs. pose proof Hs as (A & B & C). unfold viewAll_click.
  destruct (fullGalleryGrid (galleryView st)) as [old|] eqn:Eg; [|exact Hs].
  rewrite forEach_gallery. cbn [app].
  fold (gallery_of (heroImages (artData (globals st)) ++ artworks (artData (globals st)))).
  assert (A' : forall it,
             In it (gallery_of (heroImages (artData (globals st)) ++ artworks (artData (globals st)))) ->
             (item_index it < length (item_source it))%nat).
  { intros it Hin. apply in_gallery_of in Hin. destruct Hin as [-> H]. exact H. }
  cbn zeta. cbn [set_fullGalleryGrid set_galleryView galleryView galleryModal].
  destruct (galleryModal (galleryView st)); cbn [throw ret fst];
    (split; [intros items it Hg; cbn in Hg; injection Hg as <-; apply A'|]);
    (split; [exact B|exact C]).
Qed.

Lemma strip_indices_strip_of (current : jsnum) (source : list ArtItem) :
  Forall (fun k => (k < length source)%nat) (map thumb_index (strip_of current source)).
Proof.
  apply Forall_forall. intros k Hk. apply In_nth_error in Hk. destruct Hk as [n Hn].
  rewrite nth_error_map, strip_of_nth in Hn.
  destruct (nth_error source n) as [item|] eqn:E; [|discriminate].
  cbn in Hn. injection Hn as <-. apply nth_error_Some. now rewrite E.
Qed.

(** Opening the lightbox at a position of its source. *)
Lemma safe_openLightbox (source : list ArtItem) (i : nat) (st : State) :
  (i < length source)%nat -> lightbox_safe st ->
  lightbox_safe (fst (openLightbox source (Num (Z.of_nat i)) st)).
Proof.
  intros Hi (A & B & C). unfold openLightbox.
  rewrite andThen_returned by reflexivity. cbn [lift fst].
  rewrite andThen_returned by reflexivity. cbn [lift fst].
  set (s2 := set_currentLightboxIndex (Num (Z.of_nat i)) (set_currentLightboxSource source st)).
  assert (C2 : currentLightboxSource (globals s2) = [] \/
               exists j, currentLightboxIndex (globals s2) = Num (Z.of_nat j) /\
                         (j < length (currentLightboxSource (globals s2)))%nat)
    by (right; now exists i).
  assert (Hget : exists item, js_get (currentLightboxSource (globals s2))
                                     (currentLightboxIndex (globals s2)) = Some item)
    by (apply (js_get_in_range source (Z.of_nat i)); lia).
  destruct Hget as [item Hget].
  (* without the markup the strip is still the empty one of the page *)
  assert (Stale : forall s,
             lightbox_part s = lightbox_part s2 ->
             is_some (imageModal (lightboxView st)) = false \/
             is_some (modalImg (lightboxView st)) = false ->
             lightbox_safe s).
  { intros s Hs Hno. apply lightbox_part_eq in Hs. destruct Hs as (I & S & G & T & M & P).
    unfold lightbox_safe. rewrite I, S, G, T, M, P.
    split; [exact A|]. split; [|exact C2].
    intros idxs E. change (strip_indices st = Some idxs) in E.
    destruct (B idxs E) as [->|(M' & P' & _)]; [now left|].
    destruct Hno; congruence. }
  unfold andThen at 1.
  change (imageModal (lightboxView s2)) with (imageModal (lightboxView st)).
  destruct (imageModal (lightboxView st)) as [cl|] eqn:Em;
    [|cbn [throw fst]; apply Stale; [reflexivity|left; reflexivity]].
  cbn [ret].
  set (s3 := set_bodyOverflow OverflowHidden (set_imageModal show_modal s2)).
  assert (P3 : lightbox_part s3 = lightbox_part s2).
  { unfold lightbox_part, strip_indices. cbn. rewrite ?Em. reflexivity. }
  destruct (modalImg (lightboxView st)) as [img0|] eqn:Ei.
  - assert (Hd := updateLightboxContent_draws s3 item Hget).
    assert (Hi3 : is_some (modalImg (lightboxView s3)) = true) by (cbn; rewrite ?Ei; reflexivity).
    specialize (Hd Hi3). cbn zeta in Hd. destruct Hd as (R & _).
    rewrite andThen_returned by exact R.
    pose proof (offl_updateLightboxContent s3) as P4. rewrite P3 in P4.
    set (s4 := fst (updateLightboxContent s3)) in *.
    apply lightbox_part_eq in P4. destruct P4 as (I & S & G & T & M & P).
    unfold generateThumbnails.
    destruct (thumbnailStrip (lightboxView s4)) as [old|] eqn:Et.
    + rewrite forEach_thumbs. cbn [app ret fst].
      fold (strip_of (currentLightboxIndex (globals s4)) (currentLightboxSource (globals s4))).
      rewrite I, S. unfold lightbox_safe, strip_indices.
      cbn [set_thumbnailStrip set_lightboxView lightboxView thumbnailStrip globals galleryView
           imageModal modalImg option_map].
      rewrite I, S, G, M, P.
      split; [exact A|]. split; [|exact C2].
      intros idxs E. injection E as <-. right.
      split; [cbn; rewrite ?Em; reflexivity|]. split; [cbn; rewrite ?Ei; reflexivity|].
      apply strip_indices_strip_of.
    + cbn [throw fst]. unfold lightbox_safe. rewrite I, S, G, M, P.
      split; [exact A|]. split; [|exact C2].
      intros idxs E. unfold strip_indices in E. rewrite Et in E. discriminate.
  - assert (Hthrow : fst ((updateLightboxContent ;; generateThumbnails) s3)
                     = s3).
    { assert (Hget3 : js_get (currentLightboxSource (globals s3))
                             (currentLightboxIndex (globals s3)) = Some item) by exact Hget.
      assert (Hi3 : modalImg (lightboxView s3) = None) by (cbn; rewrite ?Ei; reflexivity).
      unfold andThen, updateLightboxContent. cbv zeta. rewrite Hget3, Hi3. reflexivity. }
    rewrite Hthrow. apply Stale; [exact P3|right; reflexivity].
Qed.

Lemma safe_thumbnail_click (t : Thumb) (st : State) :
  (thumb_index t < length (currentLightboxSource (globals st)))%nat ->
  lightbox_safe st -> lightbox_safe (fst (thumbnail_click t st)).
Proof.
  intros Ht Hs. unfold thumbnail_click.
  rewrite andThen_returned by reflexivity. cbn [lift fst].
  rewrite andThen_returned by reflexivity. cbn [lift fst].
  apply (keeps_safe_off _ offl_updateLightboxContent).
  apply safe_set_index.
  - apply (safe_ext st); [reflexivity|exact Hs].
  - right. now exists (thumb_index t).
Qed.

Lemma safe_thumb_in_range (st : State) (thumbs : list Thumb) (k : nat) (t : Thumb) :
  lightbox_safe st ->
  thumbnailStrip (lightboxView st) = Some thumbs -> nth_error thumbs k = Some t ->
  is_some (imageModal (lightboxView st)) = true /\
  is_some (modalImg (lightboxView st)) = true /\
  (thumb_index t < length (currentLightboxSource (globals st)))%nat.
Proof.
  intros (_ & B & _) Et Hk.
  destruct (B (map thumb_index thumbs)) as [E|(M & P & F)].
  - unfold strip_indices. now rewrite Et.
  - destruct thumbs; [now destruct k|discriminate].
  - split; [exact M|]. split; [exact P|].
    rewrite Forall_forall in F. apply F. apply in_map. eapply nth_error_In, Hk.
Qed.

Lemma safe_handle (e : Event) (st : State) : lightbox_safe st -> lightbox_safe (handle e st).
Proof.
  intros Hs. unfold handle, after.
  destruct e as [|ok|r|r|r| |i| | |i|i| | | | |key|i ly].
  1-5: match goal with
       | |- lightbox_safe (fst (listener ?e ?s ?s)) =>
           exact (keeps_safe_off _ (offl_loader e s I) s Hs)
       end.
  all: cbn [listener].
  - destruct (_ && _); [apply (keeps_safe_off _ offl_loadMore_click)|]; exact Hs.
  - destruct (codeGrid _) as [cards|]; [|exact Hs].
    destruct (nth_error cards i) as [c|]; [|exact Hs].
    apply (keeps_safe_off _ (offl_card_click c)); exact Hs.
  - destruct (_ && _); [apply keeps_safe_viewAll_click|]; exact Hs.
  - destruct (_ && _); [apply (keeps_safe_off _ offl_galleryClose_click)|]; exact Hs.
  - destruct (fullGalleryGrid _) as [items|] eqn:Eg; [|exact Hs].
    destruct (nth_error items i) as [it|] eqn:Ei; [|exact Hs].
    unfold galleryItem_click. apply safe_openLightbox; [|exact Hs].
    destruct Hs as (A & _). apply (A items it Eg). eapply nth_error_In, Ei.
  - destruct (thumbnailStrip _) as [thumbs|] eqn:Et; [|exact Hs].
    destruct (nth_error thumbs i) as [t|] eqn:Ei; [|exact Hs].
    apply safe_thumbnail_click; [|exact Hs].
    now destruct (safe_thumb_in_range st thumbs i t Hs Et Ei) as (_ & _ & H).
  - destruct (_ && _); [apply (keeps_safe_off _ offl_closeLightbox)|]; exact Hs.
  - destruct (_ && _); [apply keeps_safe_nextImage|]; exact Hs.
  - destruct (_ && _); [apply keeps_safe_prevImage|]; exact Hs.
  - destruct (_ && _); [apply (keeps_safe_off _ offl_closeLightbox)|]; exact Hs.
  - destruct (_ && _); [apply keeps_safe_keydown|]; exact Hs.
  - destruct (nth_error _ i) as [a|]; [|exact Hs].
    destruct (smooth a); [apply (keeps_safe_off _ (offl_anchor_click a ly))|]; exact Hs.
Qed.

Lemma safe_run_events (es : list Event) :
  forall st, lightbox_safe st -> lightbox_safe (run_events es st).
Proof.
  induction es as [|e es IH]; intros st Hs; [exact Hs|].
  apply (IH (handle e st)), safe_handle, Hs.
Qed.

Lemma safe_fresh (st : State) : fresh_page st -> lightbox_safe st.
Proof.
  intros ((G & _) & Hg & Ht). unfold lightbox_safe, strip_indices. rewrite G.
  split; [|split; [|now left]].
  - intros items it E Hin. destruct Hg as [Hg|Hg]; rewrite Hg in E; [discriminate|].
    injection E as <-. destruct Hin.
  - intros idxs E. left. destruct Ht as [Ht|Ht]; rewrite Ht in E; [discriminate|].
    cbn in E. congruence.
Qed.

(** X16.  On a page whose gallery grid and thumbnail strip start empty,
    whatever events arrive: the lightbox's index is a position of its
    source as soon as there is a source; every gallery item and every
    thumbnail stands for an item that exists; a click on a thumbnail never
    throws; and with an item to show and an image element to show it in,
    neither do "next" and "previous". *)
Theorem lightbox_stays_in_range :
  forall (st : State) (es : list Event),
    fresh_page st ->
    let st' := run_events es st in
    let source := currentLightboxSource (globals st') in
    (source = [] \/
     exists item, js_get source (currentLightboxIndex (globals st')) = Some item) /\
    (forall items k it,
        fullGalleryGrid (galleryView st') = Some items -> nth_error items k = Some it ->
        exists art, nth_error (item_source it) (item_index it) = Some art) /\
    (forall thumbs k t,
        thumbnailStrip (lightboxView st') = Some thumbs -> nth_error thumbs k = Some t ->
        (exists item, nth_error source (thumb_index t) = Some item) /\
        snd (thumbnail_click t st') = Returned) /\
    (forall e,
        source <> [] -> is_some (modalImg (lightboxView st')) = true ->
        snd (nextImage e st') = Returned /\ snd (prevImage e st') = Returned).
Proof.
  intros st es Hf. cbn zeta.
  pose proof (safe_run_events es st (safe_fresh st Hf)) as Hs.
  set (st' := run_events es st) in *.
  assert (Hnth : forall (A : Type) (l : list A) n, (n < length l)%nat ->
                                                   exists x, nth_error l n = Some x).
  { intros A l n Hn. destruct (nth_error l n) eqn:E; [eauto|].
    apply nth_error_None in E. lia. }
  pose proof Hs as (A & B & C).
  split; [|split; [|split]].
  - destruct C as [C|(i & Hi & Hr)]; [now left|right]. rewrite Hi.
    apply js_get_in_range. lia.
  - intros items k it Eg Hk. apply Hnth. apply (A items it Eg). eapply nth_error_In, Hk.
  - intros thumbs k t Et Hk.
    destruct (safe_thumb_in_range st' thumbs k t Hs Et Hk) as (M & P & Hr).
    split; [now apply Hnth|].
    unfold thumbnail_click.
    rewrite andThen_returned by reflexivity. cbn [lift fst].
    rewrite andThen_returned by reflexivity. cbn [lift fst].
    destruct (Hnth _ _ _ Hr) as [item Hitem].
    apply (updateLightboxContent_draws _ item).
    + change (js_get (currentLightboxSource (globals st')) (Num (Z.of_nat (thumb_index t)))
              = Some item).
      now rewrite js_get_nat.
    + exact P.
  - intros e Hne Hi. destruct C as [C|(i & Ei & Hr)]; [contradiction|].
    split.
    + apply (nextImage_spec e st' (Z.of_nat i) Ei); [lia|exact Hi].
    + apply (prevImage_spec e st' (Z.of_nat i) Ei); [lia|exact Hi].
Qed.

Lemma lightbox_stays_in_range_witness :
  fresh_page sample_page /\
  snd (nextImage true
         (run_events (load_events sample_artData sample_projectData sample_links
                      ++ [ClickViewAll; ClickGalleryItem 3; ClickModalPrev])
                     sample_page)) = Returned.
Proof.
  assert (F : fresh_page sample_page).
  { split; [|split; right; reflexivity].
    split; [reflexivity|]. split; [reflexivity|]. split; [reflexivity|].
    repeat constructor. }
  split; [exact F|].
  pose proof (lightbox_stays_in_range sample_page
           (load_events sample_artData sample_projectData sample_links
            ++ [ClickViewAll; ClickGalleryItem 3; ClickModalPrev]) F) as H.
  cbv zeta in H.
  destruct H as (_ & _ & _ & H).
  destruct (H true) as [Hn _].
  - vm_compute; discriminate.
  - vm_compute; reflexivity.
  - exact Hn.
Defined.

(** ** What the browser reads in the templates *)

Lemma option_map_app {A : Type} (l1 l2 : list A) (x : option (list A)) :
  option_map (app l1) (option_map (app l2) x) = option_map (app (l1 ++ l2)) x.
Proof. destruct x; cbn; [now rewrite app_assoc|reflexivity]. Qed.

Lemma normalize_badge (tech rest : jsstring) :
  normalize_newlines (tech_badge tech ++ rest)
  = tech_badge (normalize_newlines tech) ++ normalize_newlines rest.
Proof.
  unfold tech_badge. rewrite <- !app_assoc.
  cbn -[escapeHtml]. rewrite normalize_escape by (cbn; discriminate).
  cbn -[escapeHtml]. reflexivity.
Qed.

Lemma normalize_badges (technologies : list jsstring) (rest : jsstring) :
  normalize_newlines (tech_badges technologies ++ rest)
  = tech_badges (map normalize_newlines technologies) ++ normalize_newlines rest.
Proof.
  unfold tech_badges. induction technologies as [|tech l IH]; [reflexivity|].
  cbn [map concat]. rewrite <- !app_assoc, normalize_badge, IH. reflexivity.
Qed.

Lemma run_data_badge (tech rest : jsstring) :
  run Data O (tech_badge (normalize_newlines tech) ++ rest)
  = option_map (app (badge_tokens tech)) (run Data O rest).
Proof.
  unfold tech_badge. rewrite <- !app_assoc.
  cbn -[escapeHtml normalize_newlines]. rewrite !option_map_app_nil.
  rewrite run_data_escape.
  cbn -[escapeHtml normalize_newlines]. rewrite !option_map_app_nil.
  destruct (run Data 0 rest); cbn -[normalize_newlines]; [|reflexivity].
  unfold chars, text_read. now rewrite <- app_assoc.
Qed.

Lemma run_data_badges (technologies : list jsstring) (rest : jsstring) :
  run Data O (tech_badges (map normalize_newlines technologies) ++ rest)
  = option_map (app (flat_map badge_tokens technologies)) (run Data O rest).
Proof.
  unfold tech_badges. induction technologies as [|tech l IH].
  - cbn. now rewrite option_map_app_nil.
  - cbn [map concat flat_map]. rewrite <- app_assoc, run_data_badge, IH.
    apply option_map_app.
Qed.

Lemma tokenize_card_template (project : Project) :
  tokenize (card_template project) = Some (card_tokens project).
Proof.
  unfold tokenize, card_template, card_tokens, text_read.
  cbn -[escapeHtml tech_badges]. rewrite !option_map_app_nil.
  rewrite normalize_escape by (cbn; discriminate). rewrite run_data_escape.
  cbn -[escapeHtml tech_badges]. rewrite !option_map_app_nil.
  rewrite normalize_escape by (cbn; discriminate). rewrite run_data_escape.
  cbn -[escapeHtml tech_badges]. rewrite !option_map_app_nil.
  rewrite normalize_badges, run_data_badges.
  cbn -[escapeHtml tech_badges normalize_newlines]. reflexivity.
Qed.

Lemma tokenize_featured_template (art : ArtItem) :
  ~ In QUOT (art_image art) -> ~ In QUOT (art_title art) ->
  tokenize (featured_template art) = Some (featured_tokens art).
Proof.
  intros Hq1 Hq2. unfold tokenize, featured_template, featured_tokens, text_read, value_read.
  cbn -[escapeHtml]. rewrite !option_map_app_nil.
  rewrite normalize_escape by (cbn; discriminate).
  rewrite run_value_escape by now apply normalize_unquoted.
  cbn -[escapeHtml]. rewrite !option_map_app_nil.
  rewrite normalize_escape by (cbn; discriminate).
  rewrite run_value_escape by now apply normalize_unquoted.
  cbn -[escapeHtml]. rewrite !option_map_app_nil.
  rewrite normalize_escape by (cbn; discriminate). rewrite run_data_escape.
  cbn -[escapeHtml]. rewrite !option_map_app_nil.
  rewrite normalize_escape by (cbn; discriminate). rewrite run_data_escape.
  cbn -[escapeHtml normalize_newlines]. reflexivity.
Qed.

Lemma tags_of_app (l1 l2 : list Token) : tags_of (l1 ++ l2) = tags_of l1 ++ tags_of l2.
Proof.
  induction l1 as [|[c|n a b|n] l1 IH]; cbn [app tags_of]; [reflexivity|assumption| |];
    now rewrite IH.
Qed.

Lemma text_of_app (l1 l2 : list Token) : text_of (l1 ++ l2) = text_of l1 ++ text_of l2.
Proof.
  induction l1 as [|[c|n a b|n] l1 IH]; cbn [app text_of]; [reflexivity| |assumption|assumption].
  now rewrite IH.
Qed.

Lemma tags_of_chars (s : jsstring) : tags_of (chars s) = [].
Proof. induction s as [|c s IH]; [reflexivity|exact IH]. Qed.

Lemma text_of_chars (s : jsstring) : text_of (chars s) = s.
Proof.
  induction s as [|c s IH]; [reflexivity|].
  change (c :: text_of (chars s) = c :: s). now rewrite IH.
Qed.

Lemma attrs_of_app (name : jsstring) (l1 l2 : list Token) :
  attrs_of name (l1 ++ l2) = attrs_of name l1 ++ attrs_of name l2.
Proof.
  induction l1 as [|[c|n a b|n] l1 IH]; cbn [app attrs_of];
    [reflexivity|assumption| |assumption].
  destruct (jsstring_eqb n name); [cbn; now rewrite IH|exact IH].
Qed.

Lemma attrs_of_chars (name s : jsstring) : attrs_of name (chars s) = [].
Proof. induction s as [|c s IH]; [reflexivity|exact IH]. Qed.

Lemma attrs_of_badges (technologies : list jsstring) :
  attrs_of (lit "span") (flat_map badge_tokens technologies)
  = map (fun _ => [(lit "class", lit "tech-badge")]) technologies.
Proof.
  induction technologies as [|tech l IH]; [reflexivity|].
  cbn [flat_map map]. rewrite attrs_of_app, IH. unfold badge_tokens.
  rewrite !attrs_of_app, attrs_of_chars. reflexivity.
Qed.

Lemma tags_of_badges (technologies : list jsstring) :
  tags_of (flat_map badge_tokens technologies)
  = flat_map (fun _ => [lit "span"; lit "/span"]) technologies.
Proof.
  induction technologies as [|tech l IH]; [reflexivity|].
  cbn [flat_map]. rewrite tags_of_app, IH. unfold badge_tokens.
  rewrite !tags_of_app, tags_of_chars. reflexivity.
Qed.

Lemma text_of_badges (technologies : list jsstring) :
  text_of (flat_map badge_tokens technologies) = concat (map text_read technologies).
Proof.
  induction technologies as [|tech l IH]; [reflexivity|].
  cbn [flat_map map concat]. rewrite text_of_app, IH. unfold badge_tokens.
  rewrite !text_of_app, text_of_chars. cbn [text_of app]. now rewrite app_nil_r.
Qed.

(** X14.  Whatever a project's title, description and technologies are, a
    card's markup is read as the same elements, one [span] per technology,
    and the three texts come back as text, as the parser reads text: with
    CR LF and CR turned into LF and U+0000 dropped, and unchanged when they
    hold neither CR nor U+0000.  Nothing in [projects.json] can add an
    element or an attribute to a card. *)
Theorem project_card_markup_is_fixed :
  forall project : Project,
    tokenize (card_innerHTML (project_card project)) = Some (card_tokens project) /\
    tags_of (card_tokens project)
    = [lit "h3"; lit "/h3"; lit "p"; lit "/p"; lit "div"] ++
      flat_map (fun _ => [lit "span"; lit "/span"]) (project_technologies project) ++
      [lit "/div"] /\
    attrs_of (lit "span") (card_tokens project)
    = map (fun _ => [(lit "class", lit "tech-badge")]) (project_technologies project) /\
    text_of (card_tokens project)
    = (nl ++ lit "        ") ++ text_read (project_title project) ++
      (nl ++ lit "        ") ++ text_read (project_description project) ++
      (nl ++ lit "        ") ++ (nl ++ lit "          ") ++
      concat (map text_read (project_technologies project)) ++
      (nl ++ lit "        ") ++ (nl ++ lit "      ") /\
    (forall s, ~ In 13%N s -> ~ In 0%N s -> text_read s = s).
Proof.
  intros project. split; [|split; [|split; [|split]]].
  - unfold project_card. destruct (truthy_link _); apply tokenize_card_template.
  - unfold card_tokens. rewrite !tags_of_app, !tags_of_chars, tags_of_badges. reflexivity.
  - unfold card_tokens.
    rewrite !attrs_of_app, !attrs_of_chars, attrs_of_badges. cbn [app].
    cbn -[map]. apply app_nil_r.
  - unfold card_tokens. rewrite !text_of_app, !text_of_chars, text_of_badges.
    cbn [text_of app]. reflexivity.
  - intros s Hc H0. now apply read_as_written.
Qed.

(** X15.  An artwork whose image path and title hold no double quote is
    read back, in the featured block, in the gallery and in the thumbnail
    strip, as one [img] element with the path as [src] and the title as
    [alt], and the block's heading and year are the title and the year as
    text; each string as the parser reads it (CR LF and CR turned into LF;
    U+0000 replaced by U+FFFD in an attribute and dropped in text), and so
    as written when it holds neither CR nor U+0000. *)
Theorem art_markup_without_quotes :
  forall (art : ArtItem) (allArt : list ArtItem) (index : nat) (current : jsnum),
    ~ In QUOT (art_image art) -> ~ In QUOT (art_title art) ->
    tokenize (block_innerHTML (featured_block index art)) = Some (featured_tokens art) /\
    tokenize (item_innerHTML (gallery_item allArt index art))
    = Some [TStartTag (lit "img")
                      [(lit "src", value_read (art_image art));
                       (lit "alt", value_read (art_title art))] false] /\
    tokenize (thumb_innerHTML (thumbnail current index art))
    = Some [TStartTag (lit "img")
                      [(lit "src", value_read (art_image art));
                       (lit "alt", value_read (art_title art))] false] /\
    tags_of (featured_tokens art)
    = [lit "div"; lit "img"; lit "/div"; lit "h3"; lit "/h3"; lit "p"; lit "/p"] /\
    (forall s, ~ In 13%N s -> ~ In 0%N s -> text_read s = s /\ value_read s = s).
Proof.
  intros art allArt index current Hq1 Hq2.
  split; [now apply tokenize_featured_template|].
  split; [now apply img_template_unquoted|].
  split; [now apply img_template_unquoted|].
  split; [|exact read_as_written].
  unfold featured_tokens. rewrite !tags_of_app, !tags_of_chars. reflexivity.
Qed.

Lemma art_markup_without_quotes_witness :
  tokenize (img_template (sample_art "A"))
  = Some [TStartTag (lit "img") [(lit "src", lit "A.png"); (lit "alt", lit "A")] false].
Proof.
  refine (proj1 (proj2 (art_markup_without_quotes (sample_art "A") [] 0 NaN _ _)));
    cbn; intuition discriminate.
Defined.
